(** * OrbitiveXR backend: the list codec, the match scorer and the match selector

    A shallow embedding of [backend/main.py]: [serialize_list],
    [deserialize_list], [calculate_match_score] and [match_designers],
    together with the parts of the Python runtime they rest on (binary64
    arithmetic, [str] as a sequence of code points, the [json] codec,
    [list.sort], what [sqlite3] does with a parameter and a column);
    then the database file and the endpoints that read and write it:
    [init_db], [dict_factory], [create_campaign], [list_campaigns],
    [create_designer], [list_designers] and [match_designers] on the rows
    of the file. *)

From Stdlib Require Import ZArith NArith PArith List Bool Lia String Ascii.
From Stdlib Require Import Sorting.Sorted Sorting.Permutation.
From Stdlib Require Import Floats.SpecFloat.
Import ListNotations.

(* ------------------------------------------------------------------------- *)
(** ** Python [float]: IEEE 754 binary64 *)
(* ------------------------------------------------------------------------- *)

Module Float64.

Definition float := spec_float.

Definition prec : Z := 53.
Definition emax : Z := 1024.

(** [a + b], [a * b] on floats, rounded to nearest even. *)
Definition add (a b : float) : float := SFadd prec emax a b.
Definition mul (a b : float) : float := SFmul prec emax a b.

(** Comparisons; every comparison with a NaN is false. *)
Definition ltb (a b : float) : bool := SFltb a b.
Definition leb (a b : float) : bool := SFleb a b.
Definition geb (a b : float) : bool := SFleb b a.
Definition eqb (a b : float) : bool := SFeqb a b.

(** The float nearest to an integer ([float(z)], or an integer literal
    written with a trailing [.0]). *)
Definition of_Z (z : Z) : float := binary_normalize prec emax z 0 false.

(** The float nearest to [m * 10^e]: what [float] makes of a decimal
    literal.  For a negative exponent the quotient [m / 10^-e] is
    computed with the division core, so that it is rounded once. *)
Definition of_decimal (neg : bool) (m : N) (e : Z) : float :=
  match m with
  | N0 => S754_zero neg
  | Npos p =>
      match e with
      | Zneg k =>
          let '(mz, ez, lz) :=
            SFdiv_core_binary prec emax (Zpos p) 0 (Zpos (Pos.pow 10 k)) 0 in
          binary_round_aux prec emax neg mz ez lz
      | _ => binary_round prec emax neg (p * Z.to_pos (10 ^ e)) 0
      end
  end.

(** [bool(f)]: a float is falsy exactly when it is a zero. *)
Definition truthy (f : float) : bool :=
  match f with
  | S754_zero _ => false
  | _ => true
  end.

Definition is_nan (f : float) : bool :=
  match f with
  | S754_nan => true
  | _ => false
  end.

(** Floats of the binary64 format (canonical mantissa and exponent). *)
Definition valid (f : float) : bool := valid_binary prec emax f.

End Float64.

Import Float64.

(* ------------------------------------------------------------------------- *)
(** ** Python [str]: a sequence of Unicode code points *)
(* ------------------------------------------------------------------------- *)

Module Str.

(** A code point.  Python admits every value below [0x110000], the
    surrogates [0xD800 .. 0xDFFF] included. *)
Definition char := N.
Definition pystr := list char.

Definition ch (a : ascii) : char := N_of_ascii a.

(** The double quote. *)
Definition dquote : char := 34%N.

(** An ASCII literal, written as a Rocq string: one code point for
    every character. *)
Definition lit (s : string) : pystr := map N_of_ascii (list_ascii_of_string s).

Definition max_code_point : N := 0x10FFFF.
Definition well_formed (s : pystr) : bool := forallb (fun c => c <=? max_code_point)%N s.

(** [a == b] *)
Fixpoint eqb (a b : pystr) : bool :=
  match a, b with
  | [], [] => true
  | x :: a', y :: b' => (x =? y)%N && eqb a' b'
  | _, _ => false
  end.

(** [a <= b]: lexicographic, by code point. *)
Fixpoint leb (a b : pystr) : bool :=
  match a, b with
  | [], _ => true
  | _ :: _, [] => false
  | x :: a', y :: b' =>
      if (x <? y)%N then true
      else if (y <? x)%N then false
      else leb a' b'
  end.

(** [bool(s)]: a string is falsy exactly when it is empty. *)
Definition truthy (s : pystr) : bool :=
  match s with
  | [] => false
  | _ :: _ => true
  end.

(** [s.startswith(p)], returning what follows the prefix. *)
Fixpoint strip_prefix (p s : pystr) : option pystr :=
  match p, s with
  | [], _ => Some s
  | x :: p', y :: s' => if (x =? y)%N then strip_prefix p' s' else None
  | _ :: _, [] => None
  end.

(** [x in s] for two strings: [x] occurs in [s] as a substring. *)
Fixpoint contains (x s : pystr) : bool :=
  match strip_prefix x s with
  | Some _ => true
  | None =>
      match s with
      | [] => false
      | _ :: s' => contains x s'
      end
  end.

(** [c.isspace()]: the white space that [str.strip] removes. *)
Definition isspace (c : char) : bool :=
  ((9 <=? c) && (c <=? 13) || (28 <=? c) && (c <=? 32)
   || (c =? 0x85) || (c =? 0xA0) || (c =? 0x1680)
   || (0x2000 <=? c) && (c <=? 0x200A)
   || (c =? 0x2028) || (c =? 0x2029) || (c =? 0x202F)
   || (c =? 0x205F) || (c =? 0x3000))%N.

Fixpoint lstrip (s : pystr) : pystr :=
  match s with
  | c :: s' => if isspace c then lstrip s' else s
  | [] => []
  end.

Definition rstrip (s : pystr) : pystr := rev (lstrip (rev s)).

(** [s.strip()] *)
Definition strip (s : pystr) : pystr := rstrip (lstrip s).

(** The longest prefix whose characters satisfy [p], and the rest. *)
Fixpoint span (p : char -> bool) (s : pystr) : pystr * pystr :=
  match s with
  | c :: s' =>
      if p c then let '(a, b) := span p s' in (c :: a, b) else ([], s)
  | [] => ([], [])
  end.

End Str.

Import Str.

(* ------------------------------------------------------------------------- *)
(** ** Python values *)
(* ------------------------------------------------------------------------- *)

#[local] Set Warnings "-register-all".

(** The values an attribute of a record may hold: [None], the values
    [json.loads] produces, and native lists. *)
Inductive pyval : Type :=
| PNone
| PBool (b : bool)
| PInt (z : Z)
| PFloat (f : float)
| PStr (s : pystr)
| PList (items : list pyval)
| PDict (pairs : list (pystr * pyval)).

(** A native list of strings. *)
Definition str_list (l : list pystr) : pyval := PList (map PStr l).

(** Exceptions the embedded code can raise. *)
Inductive exn : Type :=
| TypeError
| ValidationError
| OverflowError
| HTTPException (status_code : Z).

Inductive result (A : Type) : Type :=
| Ok (a : A)
| Raise (e : exn).

Arguments Ok {A} a.
Arguments Raise {A} e.

Definition bind {A B : Type} (r : result A) (k : A -> result B) : result B :=
  match r with
  | Ok a => k a
  | Raise e => Raise e
  end.

Notation "x <- r ;; k" := (bind r (fun x => k))
  (at level 61, r at next level, right associativity).

(** [x in container], with [x] a string.  On a list: some element equals
    [x] (only a string can equal a string).  On a string: the substring
    test.  On a dict: [x] is a key.  Anything else is not iterable. *)
Definition py_in (x : pystr) (container : pyval) : result bool :=
  match container with
  | PList items =>
      Ok (existsb (fun v => match v with PStr s => Str.eqb x s | _ => false end) items)
  | PStr s => Ok (Str.contains x s)
  | PDict pairs => Ok (existsb (fun kv => Str.eqb x (fst kv)) pairs)
  | _ => Raise TypeError
  end.

(* ------------------------------------------------------------------------- *)
(** ** The [json] module: [json.loads] and [json.dumps] *)
(* ------------------------------------------------------------------------- *)

Module Json.

Local Open Scope N_scope.

(** *** Decoding ([json.decoder], [json.scanner]) *)

(** The decoder as it works on a text of ordinary size.  Two limits of
    the interpreter are left out, under which [json.loads] raises where
    this decoder gives a value: an integer literal of more than 4300
    digits, and a nesting deeper than the recursion limit allows (about
    a thousand levels).  The text [json.dumps] writes for a list of
    strings is within both. *)

(** [WHITESPACE_STR = ' \t\n\r'] *)
Definition is_ws (c : char) : bool :=
  (c =? 32) || (c =? 9) || (c =? 10) || (c =? 13).

(** [WHITESPACE.match(s, idx).end()] *)
Fixpoint skip_ws (s : pystr) : pystr :=
  match s with
  | c :: s' => if is_ws c then skip_ws s' else s
  | [] => []
  end.

Definition is_digit (c : char) : bool := (48 <=? c) && (c <=? 57).

(** The value of a hexadecimal digit, [0-9A-Fa-f]. *)
Definition hex_value (c : char) : option N :=
  if (48 <=? c) && (c <=? 57) then Some (c - 48)
  else if (65 <=? c) && (c <=? 70) then Some (c - 55)
  else if (97 <=? c) && (c <=? 102) then Some (c - 87)
  else None.

(** [_decode_uXXXX]: [int(esc, 16)] of four hexadecimal digits. *)
Definition decode_uXXXX (h1 h2 h3 h4 : char) : option N :=
  match hex_value h1, hex_value h2, hex_value h3, hex_value h4 with
  | Some a, Some b, Some c, Some d => Some (((a * 16 + b) * 16 + c) * 16 + d)
  | _, _, _, _ => None
  end.

(** [BACKSLASH]: the one-letter escapes. *)
Definition backslash (esc : char) : option char :=
  if esc =? dquote then Some (dquote)
  else if esc =? ch "\" then Some (ch "\")
  else if esc =? ch "/" then Some (ch "/")
  else if esc =? ch "b" then Some 8
  else if esc =? ch "f" then Some 12
  else if esc =? ch "n" then Some 10
  else if esc =? ch "r" then Some 13
  else if esc =? ch "t" then Some 9
  else None.

Definition is_high_surrogate (c : N) : bool := (0xd800 <=? c) && (c <=? 0xdbff).
Definition is_low_surrogate (c : N) : bool := (0xdc00 <=? c) && (c <=? 0xdfff).

(** [0x10000 + (((uni - 0xd800) << 10) | (uni2 - 0xdc00))] *)
Definition join_surrogates (uni uni2 : N) : N :=
  0x10000 + N.lor (N.shiftl (uni - 0xd800) 10) (uni2 - 0xdc00).

(** [py_scanstring] in strict mode, entered after the opening quote:
    the decoded string and what follows the closing quote.  [chunks]
    holds the characters decoded so far, last first. *)
Fixpoint scanstring (s : pystr) (chunks : pystr) {struct s} : option (pystr * pystr) :=
  match s with
  | [] => None                                   (* unterminated string *)
  | c :: rest =>
      if c =? dquote then Some (rev chunks, rest)
      else if c =? ch "\" then
        match rest with
        | [] => None                             (* unterminated string *)
        | esc :: rest1 =>
            if esc =? ch "u" then
              match rest1 with
              | h1 :: h2 :: h3 :: h4 :: rest2 =>
                  match decode_uXXXX h1 h2 h3 h4 with
                  | None => None                 (* invalid \uXXXX escape *)
                  | Some uni =>
                      if is_high_surrogate uni then
                        match rest2 with
                        | b :: u :: rest3 =>
                            if (b =? ch "\") && (u =? ch "u") then
                              match rest3 with
                              | g1 :: g2 :: g3 :: g4 :: rest4 =>
                                  match decode_uXXXX g1 g2 g3 g4 with
                                  | None => None
                                  | Some uni2 =>
                                      if is_low_surrogate uni2
                                      then scanstring rest4 (join_surrogates uni uni2 :: chunks)
                                      else scanstring rest2 (uni :: chunks)
                                  end
                              | _ => None
                              end
                            else scanstring rest2 (uni :: chunks)
                        | _ => scanstring rest2 (uni :: chunks)
                        end
                      else scanstring rest2 (uni :: chunks)
                  end
              | _ => None                        (* invalid \uXXXX escape *)
              end
            else
              match backslash esc with
              | Some c' => scanstring rest1 (c' :: chunks)
              | None => None                     (* invalid \escape *)
              end
        end
      else if c <? 32 then None                  (* invalid control character *)
      else scanstring rest (c :: chunks)
  end.

(** The number a run of decimal digits denotes. *)
Definition digits_value (ds : pystr) : N :=
  fold_left (fun acc d => acc * 10 + (d - 48)) ds 0.

(** The integer part of [NUMBER_RE]: an optional minus sign, then a
    single zero or a run of digits that starts with a nonzero one. *)
Definition match_integer (s : pystr) : option (bool * pystr * pystr) :=
  let '(neg, s1) :=
    match s with
    | c :: r => if c =? ch "-" then (true, r) else (false, s)
    | [] => (false, s)
    end in
  match s1 with
  | d :: r =>
      if d =? ch "0" then Some (neg, [d], r)
      else if is_digit d then
        let '(ds, r') := span is_digit r in Some (neg, d :: ds, r')
      else None
  | [] => None
  end.

(** The fraction group of [NUMBER_RE]: a dot and at least one digit,
    or nothing. *)
Definition match_frac (s : pystr) : option pystr * pystr :=
  match s with
  | c :: r =>
      if c =? ch "." then
        match span is_digit r with
        | ([], _) => (None, s)
        | (ds, r') => (Some ds, r')
        end
      else (None, s)
  | [] => (None, s)
  end.

(** The exponent group of [NUMBER_RE]: [e] or [E], an optional sign and
    at least one digit, or nothing. *)
Definition match_exp (s : pystr) : option Z * pystr :=
  match s with
  | c :: r =>
      if (c =? ch "e") || (c =? ch "E") then
        let '(neg, r1) :=
          match r with
          | sg :: r' =>
              if sg =? ch "-" then (true, r')
              else if sg =? ch "+" then (false, r')
              else (false, r)
          | [] => (false, r)
          end in
        match span is_digit r1 with
        | ([], _) => (None, s)
        | (ds, r2) =>
            let e := Z.of_N (digits_value ds) in
            (Some (if neg then Z.opp e else e), r2)
        end
      else (None, s)
  | [] => (None, s)
  end.

(** [NUMBER_RE.match]: an integer literal becomes an [int], a literal
    with a fraction or an exponent a [float]. *)
Definition match_number (s : pystr) : option (pyval * pystr) :=
  match match_integer s with
  | None => None
  | Some (neg, int_digits, s1) =>
      let '(frac, s2) := match_frac s1 in
      let '(exp, s3) := match_exp s2 in
      match frac, exp with
      | None, None =>
          let z := Z.of_N (digits_value int_digits) in
          Some (PInt (if neg then Z.opp z else z), s3)
      | _, _ =>
          let frac_digits := match frac with Some ds => ds | None => [] end in
          let e := match exp with Some e => e | None => 0%Z end in
          Some (PFloat (of_decimal neg (digits_value (int_digits ++ frac_digits))
                          (e - Z.of_nat (List.length frac_digits))),
                s3)
      end
  end.

(** [dict(pairs)]: a later pair with a key already present replaces
    its value in place. *)
Fixpoint dict_set (pairs : list (pystr * pyval)) (k : pystr) (v : pyval) :=
  match pairs with
  | [] => [(k, v)]
  | (k', v') :: pairs' =>
      if Str.eqb k k' then (k', v) :: pairs' else (k', v') :: dict_set pairs' k v
  end.

Section Scanner.

(** The scanner for nested values, one level down. *)
Variable scan_once : pystr -> option (pyval * pystr).

(** The loop of [JSONArray], entered at the start of a value. *)
Fixpoint JSONArray_loop (n : nat) (s : pystr) (values : list pyval)
  : option (pyval * pystr) :=
  match n with
  | O => None
  | S n' =>
      match scan_once s with
      | None => None                           (* expecting value *)
      | Some (value, s1) =>
          match skip_ws s1 with
          | c :: s2 =>
              if c =? ch "]" then Some (PList (rev (value :: values)), s2)
              else if c =? ch "," then JSONArray_loop n' (skip_ws s2) (value :: values)
              else None                        (* expecting ',' delimiter *)
          | [] => None
          end
      end
  end.

(** [JSONArray], entered after the opening bracket. *)
Definition JSONArray (n : nat) (s : pystr) : option (pyval * pystr) :=
  match skip_ws s with
  | c :: s1 =>
      if c =? ch "]" then Some (PList [], s1)
      else JSONArray_loop n (skip_ws s) []
  | [] => None
  end.

(** The loop of [JSONObject], entered after the opening quote of a
    property name. *)
Fixpoint JSONObject_loop (n : nat) (s : pystr) (pairs : list (pystr * pyval))
  : option (pyval * pystr) :=
  match n with
  | O => None
  | S n' =>
      match scanstring s [] with
      | None => None
      | Some (key, s1) =>
          match skip_ws s1 with
          | c :: s2 =>
              if c =? ch ":" then
                match scan_once (skip_ws s2) with
                | None => None                 (* expecting value *)
                | Some (value, s3) =>
                    let pairs' := dict_set pairs key value in
                    match skip_ws s3 with
                    | d :: s4 =>
                        if d =? ch "}" then Some (PDict pairs', s4)
                        else if d =? ch "," then
                          match skip_ws s4 with
                          | q :: s5 =>
                              if q =? dquote then JSONObject_loop n' s5 pairs'
                              else None        (* expecting property name *)
                          | [] => None
                          end
                        else None              (* expecting ',' delimiter *)
                    | [] => None
                    end
                end
              else None                        (* expecting ':' delimiter *)
          | [] => None
          end
      end
  end.

(** [JSONObject], entered after the opening brace. *)
Definition JSONObject (n : nat) (s : pystr) : option (pyval * pystr) :=
  match skip_ws s with
  | c :: s1 =>
      if c =? ch "}" then Some (PDict [], s1)
      else if c =? dquote then JSONObject_loop n s1 []
      else None                                (* expecting property name *)
  | [] => None
  end.

End Scanner.

(** The constants the scanner accepts besides numbers. *)
Definition scan_constant (s : pystr) : option (pyval * pystr) :=
  match strip_prefix (lit "NaN") s with
  | Some r => Some (PFloat S754_nan, r)
  | None =>
      match strip_prefix (lit "Infinity") s with
      | Some r => Some (PFloat (S754_infinity false), r)
      | None =>
          match strip_prefix (lit "-Infinity") s with
          | Some r => Some (PFloat (S754_infinity true), r)
          | None => None
          end
      end
  end.

(** [_scan_once]; [None] is [StopIteration] or a decoding error.  The
    first argument bounds the nesting depth and the number of items of a
    container; the length of the text is always enough. *)
Fixpoint scan_once (fuel : nat) (s : pystr) {struct fuel} : option (pyval * pystr) :=
  match fuel with
  | O => None
  | S fuel' =>
      match s with
      | [] => None
      | nextchar :: rest =>
          if nextchar =? dquote then
            match scanstring rest [] with
            | Some (str, r) => Some (PStr str, r)
            | None => None
            end
          else if nextchar =? ch "{" then JSONObject (scan_once fuel') fuel' rest
          else if nextchar =? ch "[" then JSONArray (scan_once fuel') fuel' rest
          else
            match strip_prefix (lit "null") s with
            | Some r => Some (PNone, r)
            | None =>
            match strip_prefix (lit "true") s with
            | Some r => Some (PBool true, r)
            | None =>
            match strip_prefix (lit "false") s with
            | Some r => Some (PBool false, r)
            | None =>
            match match_number s with
            | Some res => Some res
            | None => scan_constant s
            end end end end
      end
  end.

(** [json.loads(s)] for a [str]: one value, white space around it
    allowed, nothing else after it.  [None] stands for any exception
    the decoder raises. *)
Definition loads (s : pystr) : option pyval :=
  match scan_once (S (List.length s)) (skip_ws s) with
  | Some (obj, rest) =>
      match skip_ws rest with
      | [] => Some obj
      | _ :: _ => None                           (* extra data *)
      end
  | None => None
  end.

(** *** Encoding ([json.encoder], with the default [ensure_ascii]) *)

(** One lower-case hexadecimal digit. *)
Definition hex_digit (n : N) : char := if n <? 10 then 48 + n else 87 + n.

(** ['\\u{0:04x}'.format(n)] *)
Definition u_escape (n : N) : pystr :=
  [ch "\"; ch "u";
   hex_digit (N.land (N.shiftr n 12) 15); hex_digit (N.land (N.shiftr n 8) 15);
   hex_digit (N.land (N.shiftr n 4) 15); hex_digit (N.land n 15)].

(** [replace] of [py_encode_basestring_ascii]: printable ASCII apart from
    the quote and the backslash stands for itself, everything else is
    escaped, a code point past the basic plane as a surrogate pair. *)
Definition escape_char (c : char) : pystr :=
  if c =? dquote then [ch "\"; dquote]
  else if c =? ch "\" then [ch "\"; ch "\"]
  else if c =? 10 then [ch "\"; ch "n"]
  else if c =? 13 then [ch "\"; ch "r"]
  else if c =? 9 then [ch "\"; ch "t"]
  else if c =? 8 then [ch "\"; ch "b"]
  else if c =? 12 then [ch "\"; ch "f"]
  else if (32 <=? c) && (c <=? 126) then [c]
  else if c <? 0x10000 then u_escape c
  else
    let n := c - 0x10000 in
    let s1 := N.lor 0xd800 (N.land (N.shiftr n 10) 0x3ff) in
    let s2 := N.lor 0xdc00 (N.land n 0x3ff) in
    u_escape s1 ++ u_escape s2.

Fixpoint escape (s : pystr) : pystr :=
  match s with
  | [] => []
  | c :: s' => escape_char c ++ escape s'
  end.

(** [py_encode_basestring_ascii] *)
Definition encode_string (s : pystr) : pystr := dquote :: escape s ++ [dquote].

(** The items of a list, separated by [', ']. *)
Fixpoint encode_items (items : list pystr) : pystr :=
  match items with
  | [] => []
  | [s] => encode_string s
  | s :: items' => encode_string s ++ ch "," :: ch " " :: encode_items items'
  end.

(** [json.dumps(items)] for a list of strings. *)
Definition dumps (items : list pystr) : pystr :=
  ch "[" :: encode_items items ++ [ch "]"].

End Json.

(* ------------------------------------------------------------------------- *)
(** ** [list.sort(key=..., reverse=True)] *)
(* ------------------------------------------------------------------------- *)

Module PySort.

Section Sort.

Context {A : Type}.
Variable key : A -> float.

(** Insertion behind every element whose key is strictly smaller; the
    only comparison used is [<] on keys, as in [list.sort]. *)
Fixpoint insert (x : A) (l : list A) : list A :=
  match l with
  | [] => [x]
  | y :: l' => if Float64.ltb (key y) (key x) then y :: insert x l' else x :: l
  end.

(** A stable ascending sort. *)
Fixpoint sort (l : list A) : list A :=
  match l with
  | [] => []
  | x :: l' => insert x (sort l')
  end.

(** [l.sort(key=key, reverse=True)]: the list is reversed, sorted and
    reversed again, which keeps elements with equal keys in their
    original order. *)
Definition sort_reverse (l : list A) : list A := rev (sort (rev l)).

End Sort.

End PySort.

(* ------------------------------------------------------------------------- *)
(** ** What the endpoints use of [sqlite3] *)
(* ------------------------------------------------------------------------- *)

(** What a call that reaches the storage layer can raise: the errors of
    the driver and of the row factory, beside the exceptions [exn] of the
    code above it. *)
Inductive raised : Type :=
| OperationalError
| UnicodeEncodeError
| IndexError
| Python (e : exn).

Inductive outcome (A : Type) : Type :=
| Returns (a : A)
| Raises (e : raised).

Arguments Returns {A} a.
Arguments Raises {A} e.

Definition and_then {A B : Type} (r : outcome A) (k : A -> outcome B) : outcome B :=
  match r with
  | Returns a => k a
  | Raises e => Raises e
  end.

Notation "x <-- r ;; k" := (and_then r (fun x => k))
  (at level 61, r at next level, right associativity).

(** How the parameters of a statement are bound, what a column gives
    back of what was written to it, and how a table with an
    AUTOINCREMENT key numbers its rows.  The limits of the engine (a
    text of more than 10^9 bytes, an id past 2^63 - 1) are left out. *)
Module Sqlite.

Definition is_surrogate (c : char) : bool := ((0xD800 <=? c) && (c <=? 0xDFFF))%N.

(** A [str] parameter goes to the engine as UTF-8, which has no
    encoding for a surrogate code point. *)
Definition encodable (s : pystr) : bool := forallb (fun c => negb (is_surrogate c)) s.

Definition bind_text (s : pystr) : outcome pystr :=
  if encodable s then Returns s else Raises UnicodeEncodeError.

(** An [int] parameter has to fit a signed 64-bit integer: binding any
    other raises [OverflowError]. *)
Definition fits_int64 (z : Z) : bool := ((- 2 ^ 63 <=? z) && (z <? 2 ^ 63))%Z.

Definition bind_integer (z : Z) : outcome Z :=
  if fits_int64 z then Returns z else Raises (Python OverflowError).

(** A [float] written to a REAL column, as a later SELECT reads it: the
    engine stores a NaN as NULL, and a zero without its sign. *)
Definition real_column (f : float) : option float :=
  match f with
  | S754_nan => None
  | S754_zero _ => Some (S754_zero false)
  | _ => Some f
  end.

(** A table with an [INTEGER PRIMARY KEY AUTOINCREMENT]: its rows in the
    order a SELECT without ORDER BY yields them, and the largest id ever
    given (the table's entry in [sqlite_sequence], 0 before the first
    insert). *)
Record table (R : Type) : Type := {
  rows : list R;
  sequence : Z
}.

Arguments rows {R} t.
Arguments sequence {R} t.

(** [CREATE TABLE IF NOT EXISTS] *)
Definition create_table_if_not_exists {R : Type} (t : option (table R))
  : option (table R) :=
  match t with
  | Some _ => t
  | None => Some {| rows := []; sequence := 0 |}
  end.

Section Insert.

Context {R : Type}.
Variable rowid : R -> Z.

Definition largest_rowid (l : list R) : Z :=
  fold_right (fun r m => Z.max (rowid r) m) 0%Z l.

(** The id AUTOINCREMENT gives: one more than the largest the table
    holds or ever held. *)
Definition next_rowid (t : table R) : Z :=
  (Z.max (sequence t) (largest_rowid (rows t)) + 1)%Z.

(** [INSERT INTO ... VALUES (...)] with no id given, then [lastrowid]. *)
Definition insert (t : table R) (make : Z -> R) : table R * Z :=
  let id := next_rowid t in
  ({| rows := rows t ++ [make id]; sequence := id |}, id).

End Insert.

End Sqlite.

(* ------------------------------------------------------------------------- *)
(** ** [backend/main.py] *)
(* ------------------------------------------------------------------------- *)

(** *** Database utilities: the list codec *)

(** [serialize_list(items)] *)
Definition serialize_list (items : option (list pystr)) : pystr :=
  match items with
  | Some l => Json.dumps l
  | None => Json.dumps []
  end.

(** [deserialize_list(data)] *)
Definition deserialize_list (data : pyval) : pyval :=
  match data with
  | PNone => PList []
  | PList _ => data
  | PStr s =>
      let data := strip s in
      if negb (Str.truthy data) then PList []
      else
        match Json.loads data with
        | Some v => v
        | None => PList []
        end
  | _ => PList []
  end.

(** *** Records *)

(** A campaign as the matching logic is specified on: a row of the
    [campaigns] table that has a budget.  The dict of any row, whose
    budget may be [None], is scored in [Stored] below. *)
Record Campaign : Type := {
  campaign_id : Z;
  budget : float;
  ambiance : option pystr;
  platform_pref : option pystr;
  interactivity : option Z;
  style : option pystr;
  timeline : option pystr;
  submitted_at : pystr
}.

(** A designer as [calculate_match_score] receives it: a row of the
    [designers] table, or an in-memory record whose list attributes are
    native lists.  [None] in an optional field is a NULL (or a missing
    key read with [get]); the id and the name are always there. *)
Record Designer : Type := {
  designer_id : Z;
  name : pystr;
  rate_tier : option float;
  scene_tags : pyval;
  export_formats : pyval;
  game_logic_experience : option Z;
  visual_metadata : pyval;
  availability : option pystr;
  performance_score : option float
}.

(** *** Matching logic *)

(** [campaign.get(k) and campaign[k] in tags] *)
Definition wanted_in (wanted : option pystr) (tags : pyval) : result bool :=
  match wanted with
  | Some w => if Str.truthy w then py_in w tags else Ok false
  | None => Ok false
  end.

(** [if cond: score += weight] *)
Definition add_if (cond : bool) (weight : float) (score : float) : float :=
  if cond then Float64.add score weight else score.

(** [designer["rate_tier"] is not None and
    campaign["budget"] >= designer["rate_tier"]] *)
Definition budget_ok (campaign : Campaign) (designer : Designer) : bool :=
  match rate_tier designer with
  | Some r => Float64.geb (budget campaign) r
  | None => false
  end.

(** Both levels are present and
    [designer["game_logic_experience"] >= campaign["interactivity"]]. *)
Definition interactivity_ok (campaign : Campaign) (designer : Designer) : bool :=
  match game_logic_experience designer, interactivity campaign with
  | Some g, Some i => (g >=? i)%Z
  | _, _ => false
  end.

(** Both strings are non-empty and
    [designer["availability"] <= campaign["timeline"]], compared as strings. *)
Definition timeline_ok (campaign : Campaign) (designer : Designer) : bool :=
  match availability designer, timeline campaign with
  | Some a, Some t => Str.truthy a && Str.truthy t && Str.leb a t
  | _, _ => false
  end.

(** [if designer.get("performance_score"):] *)
Definition has_performance (designer : Designer) : bool :=
  match performance_score designer with
  | Some p => Float64.truthy p
  | None => false
  end.

(** [if designer.get("performance_score"):
        score += float(designer["performance_score"]) * 5.0] *)
Definition add_performance (designer : Designer) (score : float) : float :=
  match performance_score designer with
  | Some p => if Float64.truthy p then Float64.add score (Float64.mul p (of_Z 5)) else score
  | None => score
  end.

(** [calculate_match_score(campaign, designer)] *)
Definition calculate_match_score (campaign : Campaign) (designer : Designer) : result float :=
  let score := of_Z 0 in
  (* Budget compatibility (20 %) *)
  let score := add_if (budget_ok campaign designer) (of_Z 20) score in
  (* Ambiance match (20 %) *)
  let scene_tags := deserialize_list (scene_tags designer) in
  b <- wanted_in (ambiance campaign) scene_tags ;;
  let score := add_if b (of_Z 20) score in
  (* Platform preference (15 %) *)
  let export_formats := deserialize_list (export_formats designer) in
  b <- wanted_in (platform_pref campaign) export_formats ;;
  let score := add_if b (of_Z 15) score in
  (* Interactivity level (15 %) *)
  let score := add_if (interactivity_ok campaign designer) (of_Z 15) score in
  (* Style aesthetic (15 %) *)
  let visual_metadata := deserialize_list (visual_metadata designer) in
  b <- wanted_in (style campaign) visual_metadata ;;
  let score := add_if b (of_Z 15) score in
  (* Timeline alignment (10 %) *)
  let score := add_if (timeline_ok campaign designer) (of_Z 10) score in
  (* Past performance (5 %) *)
  let score := add_performance designer score in
  Ok score.

(** *** Pydantic schemas *)

(** The arguments [match_designers] passes to [DesignerOut(...)], as they
    are in the row. *)
Record DesignerOut : Type := {
  out_id : Z;
  out_name : pystr;
  out_rate_tier : option float;
  out_scene_tags : pyval;
  out_export_formats : pyval;
  out_game_logic_experience : option Z;
  out_visual_metadata : pyval;
  out_availability : option pystr;
  out_performance_score : float
}.

Definition is_str (v : pyval) : bool :=
  match v with
  | PStr _ => true
  | _ => false
  end.

(** A value of type [List[str]]. *)
Definition is_str_list (v : pyval) : bool :=
  match v with
  | PList items => forallb is_str items
  | _ => false
  end.

Definition is_some {A : Type} (o : option A) : bool :=
  match o with
  | Some _ => true
  | None => false
  end.

(** The field types [DesignerOut] declares: [rate_tier: float],
    [game_logic_experience: int], [availability: str] and three fields
    [List[str]].  Constructing the model from a value of another type is
    a validation error. *)
Definition validates (d : DesignerOut) : bool :=
  is_some (out_rate_tier d)
  && is_str_list (out_scene_tags d)
  && is_str_list (out_export_formats d)
  && is_some (out_game_logic_experience d)
  && is_str_list (out_visual_metadata d)
  && is_some (out_availability d).

Record ScoredDesigner : Type := {
  designer : DesignerOut;
  score : float
}.

Record MatchRequest : Type := {
  request_campaign_id : Z;
  threshold : float
}.

(** [threshold: float = 60.0] *)
Definition default_threshold : float := of_Z 60.

(** *** The [/match] endpoint *)

(** The two tables of the database. *)
Record Database : Type := {
  campaigns : list Campaign;
  designers : list Designer
}.

(** [cur.execute("SELECT * FROM campaigns WHERE id = ?", (id,))], then
    [fetchone()]: the id is bound as a 64-bit integer, which raises
    [OverflowError] for any other; the row with that id, or [None]. *)
Definition fetch_campaign (db : Database) (id : Z) : result (option Campaign) :=
  if Sqlite.fits_int64 id
  then Ok (find (fun c => (campaign_id c =? id)%Z) (campaigns db))
  else Raise OverflowError.

(** The three assignments that open the loop body: the list attributes
    of the row are replaced by their deserialized values. *)
Definition normalize_row (d : Designer) : Designer :=
  {| designer_id := designer_id d;
     name := name d;
     rate_tier := rate_tier d;
     scene_tags := deserialize_list (scene_tags d);
     export_formats := deserialize_list (export_formats d);
     game_logic_experience := game_logic_experience d;
     visual_metadata := deserialize_list (visual_metadata d);
     availability := availability d;
     performance_score := performance_score d |}.

(** The keyword arguments of [DesignerOut(...)];
    [d.get("performance_score") or 0.0] for the last. *)
Definition designer_out (d : Designer) : DesignerOut :=
  {| out_id := designer_id d;
     out_name := name d;
     out_rate_tier := rate_tier d;
     out_scene_tags := scene_tags d;
     out_export_formats := export_formats d;
     out_game_logic_experience := game_logic_experience d;
     out_visual_metadata := visual_metadata d;
     out_availability := availability d;
     out_performance_score :=
       match performance_score d with
       | Some p => if Float64.truthy p then p else of_Z 0
       | None => of_Z 0
       end |}.

(** The loop over the rows: [scored_designers] grows by one entry for
    every designer whose score reaches the threshold. *)
Fixpoint score_designers (campaign : Campaign) (threshold : float)
    (rows : list Designer) (scored_designers : list ScoredDesigner)
  : result (list ScoredDesigner) :=
  match rows with
  | [] => Ok scored_designers
  | d :: rows' =>
      let d := normalize_row d in
      score <- calculate_match_score campaign d ;;
      if Float64.geb score threshold then
        let out := designer_out d in
        if validates out then
          score_designers campaign threshold rows'
            (scored_designers ++ [{| designer := out; score := score |}])
        else Raise ValidationError
      else score_designers campaign threshold rows' scored_designers
  end.

(** [match_designers(match_request)] on a given state of the database. *)
Definition match_designers (db : Database) (match_request : MatchRequest)
  : result (list ScoredDesigner) :=
  campaign <- fetch_campaign db (request_campaign_id match_request) ;;
  match campaign with
  | None => Raise (HTTPException 404)
  | Some campaign =>
      scored_designers <-
        score_designers campaign (threshold match_request) (designers db) [] ;;
      Ok (PySort.sort_reverse score scored_designers)
  end.

(* ------------------------------------------------------------------------- *)
(** ** The scenario of the specification *)
(* ------------------------------------------------------------------------- *)

Module Scenario.

Definition campaign : Campaign :=
  {| campaign_id := 1;
     budget := of_Z 500;
     ambiance := Some (lit "calm");
     platform_pref := Some (lit "Quest");
     interactivity := Some 3%Z;
     style := Some (lit "minimalist");
     timeline := Some (lit "2024-06-01");
     submitted_at := lit "2024-01-01T00:00:00" |}.

Definition designer_with_rate (rate : Z) : Designer :=
  {| designer_id := 1;
     name := lit "Ada";
     rate_tier := Some (of_Z rate);
     scene_tags := str_list [lit "calm"; lit "vibrant"];
     export_formats := str_list [lit "Quest"; lit "WebXR"];
     game_logic_experience := Some 5%Z;
     visual_metadata := str_list [lit "minimalist"];
     availability := Some (lit "2024-05-01");
     performance_score := Some (of_decimal false 8 (-1)) |}.

(** The designer as the [designers] table stores it. *)
Definition row (id rate : Z) : Designer :=
  {| designer_id := id;
     name := lit "Ada";
     rate_tier := Some (of_Z rate);
     scene_tags := PStr (serialize_list (Some [lit "calm"; lit "vibrant"]));
     export_formats := PStr (serialize_list (Some [lit "Quest"; lit "WebXR"]));
     game_logic_experience := Some 5%Z;
     visual_metadata := PStr (serialize_list (Some [lit "minimalist"]));
     availability := Some (lit "2024-05-01");
     performance_score := Some (of_decimal false 8 (-1)) |}.

(** A row no criterion accepts: NULL lists, a late availability. *)
Definition idle_row (id : Z) : Designer :=
  {| designer_id := id;
     name := lit "Bob";
     rate_tier := Some (of_Z 900);
     scene_tags := PNone;
     export_formats := PStr (lit "[]");
     game_logic_experience := Some 1%Z;
     visual_metadata := PStr (lit "  ");
     availability := Some (lit "2024-07-01");
     performance_score := None |}.

(** One campaign; designers scoring 79.0, 0.0 and 99.0, in this order. *)
Definition database : Database :=
  {| campaigns := [campaign];
     designers := [row 1 600; idle_row 2; row 3 400] |}.

Definition request (id : Z) (t : float) : MatchRequest :=
  {| request_campaign_id := id; threshold := t |}.

End Scenario.

(* ------------------------------------------------------------------------- *)
(** ** Vocabulary of the statements *)
(* ------------------------------------------------------------------------- *)

(** A float that compares [>= 0.0]: a zero, a positive number or the
    positive infinity. *)
Definition nonneg (f : float) : bool := Float64.geb f (of_Z 0).

Definition is_nonneg (f : float) : Prop :=
  match f with
  | S754_zero _ => True
  | S754_infinity s | S754_finite s _ _ => s = false
  | S754_nan => False
  end.

Definition is_nonpos (f : spec_float) : Prop :=
  match f with
  | S754_zero _ => True
  | S754_infinity s | S754_finite s _ _ => s = true
  | S754_nan => False
  end.

Definition is_list (v : pyval) : bool :=
  match v with
  | PList _ => true
  | _ => false
  end.

(** The three list attributes normalize to lists of strings: native
    lists of strings, or their serialized form. *)
Definition well_typed (d : Designer) : bool :=
  is_str_list (deserialize_list (scene_tags d))
  && is_str_list (deserialize_list (export_formats d))
  && is_str_list (deserialize_list (visual_metadata d)).

(** The performance score is absent, zero or positive. *)
Definition nonneg_performance (d : Designer) : bool :=
  match performance_score d with
  | Some p => nonneg p
  | None => true
  end.

(** The score once the six weighted criteria have been added, before
    the performance term. *)
Definition criteria_score (campaign : Campaign) (designer : Designer) : result float :=
  let score := of_Z 0 in
  let score := add_if (budget_ok campaign designer) (of_Z 20) score in
  let scene_tags := deserialize_list (scene_tags designer) in
  b <- wanted_in (ambiance campaign) scene_tags ;;
  let score := add_if b (of_Z 20) score in
  let export_formats := deserialize_list (export_formats designer) in
  b <- wanted_in (platform_pref campaign) export_formats ;;
  let score := add_if b (of_Z 15) score in
  let score := add_if (interactivity_ok campaign designer) (of_Z 15) score in
  let visual_metadata := deserialize_list (visual_metadata designer) in
  b <- wanted_in (style campaign) visual_metadata ;;
  let score := add_if b (of_Z 15) score in
  let score := add_if (timeline_ok campaign designer) (of_Z 10) score in
  Ok score.

(** The performance score, when present, is a float of the format. *)
Definition performance_valid (d : Designer) : bool :=
  match performance_score d with
  | Some p => Float64.valid p
  | None => true
  end.

(** The points of the six weighted criteria. *)
Definition weights_total (b_budget b_ambiance b_platform b_interactivity b_style
                          b_timeline : bool) : Z :=
  (if b_budget then 20 else 0) + (if b_ambiance then 20 else 0)
  + (if b_platform then 15 else 0) + (if b_interactivity then 15 else 0)
  + (if b_style then 15 else 0) + (if b_timeline then 10 else 0).

Definition with_performance (d : Designer) (p : option float) : Designer :=
  {| designer_id := designer_id d;
     name := name d;
     rate_tier := rate_tier d;
     scene_tags := scene_tags d;
     export_formats := export_formats d;
     game_logic_experience := game_logic_experience d;
     visual_metadata := visual_metadata d;
     availability := availability d;
     performance_score := p |}.

Definition with_rate_tier (d : Designer) (r : option float) : Designer :=
  {| designer_id := designer_id d;
     name := name d;
     rate_tier := r;
     scene_tags := scene_tags d;
     export_formats := export_formats d;
     game_logic_experience := game_logic_experience d;
     visual_metadata := visual_metadata d;
     availability := availability d;
     performance_score := performance_score d |}.

Definition with_list_attributes (d : Designer) (tags formats metadata : pyval)
  : Designer :=
  {| designer_id := designer_id d;
     name := name d;
     rate_tier := rate_tier d;
     scene_tags := tags;
     export_formats := formats;
     game_logic_experience := game_logic_experience d;
     visual_metadata := metadata;
     availability := availability d;
     performance_score := performance_score d |}.

(** The designer with native lists for its three list attributes. *)
Definition native (d : Designer) (tags formats metadata : list pystr) : Designer :=
  with_list_attributes d (str_list tags) (str_list formats) (str_list metadata).

(** The same designer as stored: each list replaced by the text
    [serialize_list] makes of it. *)
Definition stored (d : Designer) (tags formats metadata : list pystr) : Designer :=
  with_list_attributes d
    (PStr (serialize_list (Some tags)))
    (PStr (serialize_list (Some formats)))
    (PStr (serialize_list (Some metadata))).

(** A designer no criterion of the scenario's campaign accepts. *)
Definition unmatched_designer (p : option float) : Designer :=
  {| designer_id := 2;
     name := lit "Bob";
     rate_tier := Some (of_Z 600);
     scene_tags := str_list [];
     export_formats := str_list [];
     game_logic_experience := Some 1%Z;
     visual_metadata := str_list [];
     availability := Some (lit "2024-07-01");
     performance_score := p |}.

(** The two code points of a surrogate pair, as two characters. *)
Definition split_pair : pystr := [0xD83D; 0xDE00]%N.

Definition pair_campaign : Campaign :=
  {| campaign_id := 2;
     budget := of_Z 500;
     ambiance := Some split_pair;
     platform_pref := Some (lit "Quest");
     interactivity := Some 3%Z;
     style := Some (lit "minimalist");
     timeline := Some (lit "2024-06-01");
     submitted_at := lit "2024-01-01T00:00:00" |}.

(** The entry [match_designers] makes for a row and its score. *)
Definition entry (d : Designer) (s : float) : ScoredDesigner :=
  {| designer := designer_out (normalize_row d); score := s |}.

(** The entries of the rows that reach the threshold, in the order of
    the rows. *)
Fixpoint selected (campaign : Campaign) (threshold : float) (rows : list Designer)
  : list ScoredDesigner :=
  match rows with
  | [] => []
  | d :: rows' =>
      match calculate_match_score campaign (normalize_row d) with
      | Ok s =>
          if Float64.geb s threshold
          then entry d s :: selected campaign threshold rows'
          else selected campaign threshold rows'
      | Raise _ => selected campaign threshold rows'
      end
  end.

(** A row [DesignerOut] accepts once its lists are normalized. *)
Definition valid_row (d : Designer) : bool :=
  validates (designer_out (normalize_row d)).

(** Whether a campaign with the given id is stored. *)
Definition campaign_exists (db : Database) (id : Z) : Prop :=
  exists c, In c (campaigns db) /\ campaign_id c = id.

(** Each entry's score is [>=] that of every later entry. *)
Definition score_descending (a b : ScoredDesigner) : Prop :=
  Float64.geb (score a) (score b) = true.

(** A string [json.loads] gives back as [json.dumps] received it: every
    code point is one Python admits, and no high surrogate stands
    immediately before a low one (the decoder would join the two). *)
Fixpoint no_joined_surrogates (s : pystr) : bool :=
  match s with
  | [] => true
  | c :: s' =>
      match s' with
      | c' :: _ => negb (Json.is_high_surrogate c && Json.is_low_surrogate c')
      | [] => true
      end && no_joined_surrogates s'
  end.

Definition json_safe (s : pystr) : bool :=
  well_formed s && no_joined_surrogates s.

Section SortOrder.

Context {A : Type}.
Variable key : A -> float.

(** No element is smaller than the one before it. *)
Definition ascending (a b : A) : Prop := Float64.ltb (key b) (key a) = false.

(** No element is greater than the one before it. *)
Definition descending (a b : A) : Prop := Float64.ltb (key a) (key b) = false.

(** The elements whose key compares equal to [k], in order. *)
Definition with_key (k : float) (l : list A) : list A :=
  filter (fun x => Float64.eqb (key x) k) l.

End SortOrder.

Section CodecVocabulary.

Local Open Scope N_scope.

(** What follows a [\uXXXX] escape does not open with the escape of a
    low surrogate. *)
Definition lookahead_clear (rest : pystr) : bool :=
  match rest with
  | b :: r1 =>
      if b =? 92 then
        match r1 with
        | u :: r2 =>
            if u =? 117 then
              match r2 with
              | g1 :: g2 :: g3 :: g4 :: _ =>
                  match Json.decode_uXXXX g1 g2 g3 g4 with
                  | Some uni2 => negb (Json.is_low_surrogate uni2)
                  | None => false
                  end
              | _ => false
              end
            else true
        | [] => true
        end
      else true
  | [] => true
  end.

(** The four shapes of an escaped character. *)
Inductive escape_shape (c : char) : pystr -> Prop :=
| shape_short (e : char) :
    Json.backslash e = Some c -> e <> 117 -> escape_shape c [92; e]
| shape_plain :
    32 <= c -> c <> 34 -> c <> 92 -> escape_shape c [c]
| shape_u (h1 h2 h3 h4 : char) :
    Json.decode_uXXXX h1 h2 h3 h4 = Some c ->
    escape_shape c [92; 117; h1; h2; h3; h4]
| shape_pair (s1 s2 h1 h2 h3 h4 g1 g2 g3 g4 : char) :
    Json.decode_uXXXX h1 h2 h3 h4 = Some s1 ->
    Json.decode_uXXXX g1 g2 g3 g4 = Some s2 ->
    Json.is_high_surrogate s1 = true ->
    Json.is_low_surrogate s2 = true ->
    Json.join_surrogates s1 s2 = c ->
    escape_shape c [92; 117; h1; h2; h3; h4; 92; 117; g1; g2; g3; g4].

End CodecVocabulary.

Section RoundingVocabulary.

Local Open Scope Z_scope.

(** Where [r], the part of a mantissa shifted out by [j] positions,
    lies with respect to the half of [2^j]. *)
Definition loc_of_rem (r j : Z) : location :=
  if r =? 0 then loc_Exact else loc_Inexact (2 * r ?= 2 ^ j).

(** After [j] shifts of [m]: the quotient by [2^j], and the position of
    the remainder. *)
Definition shifted (m j : Z) (mrs : shr_record) : Prop :=
  shr_m mrs = m / 2 ^ j /\ loc_of_shr_record mrs = loc_of_rem (m mod 2 ^ j) j.

(** [m / 2^k] rounded to the nearest integer, ties to even. *)
Definition rne (m k : Z) : Z :=
  let f := m / 2 ^ k in
  match 2 * (m mod 2 ^ k) ?= 2 ^ k with
  | Lt => f
  | Eq => if Z.even f then f else f + 1
  | Gt => f + 1
  end.

Definition finish (s : bool) (q e : Z) : spec_float :=
  match q with
  | Z0 => S754_zero s
  | Zpos m => if e <=? emax - prec then S754_finite s m e else S754_infinity s
  | Zneg _ => S754_nan
  end.

(** [m * 2^e] rounded to binary64, for [e] not above the exponent of
    the result: shift right to that exponent, round to nearest even,
    and shift once more if the rounding carried into a 54th digit. *)
Definition round_at (s : bool) (m e : Z) : spec_float :=
  let fe := fexp prec emax (Zdigits2 m + e) in
  let q := rne m (fe - e) in
  if Zdigits2 q <=? prec then finish s q fe else finish s (q / 2) (fe + 1).

(** The order of two results by exponent first, mantissa second. *)
Definition lex_le (q1 e1 q2 e2 : Z) : Prop :=
  0 <= q1 /\ 0 <= q2
  /\ (q1 = 0 \/ 0 < q2 /\ (e1 < e2 \/ e1 = e2 /\ q1 <= q2)).

(** The value of a finite float of the format, in units of [2^-1074],
    the smallest positive float. *)
Definition units (f : spec_float) : Z :=
  match f with
  | S754_finite s m e => cond_Zopp s (Zpos m * 2 ^ (e + 1074))
  | _ => 0
  end.

(** The float nearest to [z] units. *)
Definition round_units (z : Z) : spec_float :=
  match z with
  | Z0 => S754_zero false
  | Zpos u => round_at false (Zpos u) (-1074)
  | Zneg u => round_at true (Zpos u) (-1074)
  end.

Definition finite_or_zero (f : spec_float) : bool :=
  match f with
  | S754_finite _ _ _ | S754_zero _ => true
  | _ => false
  end.

Definition is_zero (f : spec_float) : bool :=
  match f with
  | S754_zero _ => true
  | _ => false
  end.

(** Equal, or two zeros that differ in sign. *)
Definition same_value (f g : spec_float) : Prop :=
  f = g \/ is_zero f = true /\ is_zero g = true.

End RoundingVocabulary.

(* ------------------------------------------------------------------------- *)
(** ** The database file and the endpoints that read and write it *)
(* ------------------------------------------------------------------------- *)

(** *** [dict_factory] *)

Section RowFactory.

Context {V : Type}.

(** [d[k] = v] on a dict held as its items in insertion order: the value
    of a key already present is replaced where it stands. *)
Fixpoint setitem (d : list (pystr * V)) (k : pystr) (v : V) : list (pystr * V) :=
  match d with
  | [] => [(k, v)]
  | (k', v') :: d' =>
      if Str.eqb k k' then (k', v) :: d' else (k', v') :: setitem d' k v
  end.

(** [d.get(k)] *)
Fixpoint get (d : list (pystr * V)) (k : pystr) : option V :=
  match d with
  | [] => None
  | (k', v) :: d' => if Str.eqb k k' then Some v else get d' k
  end.

(** The loop [for idx, col in enumerate(cursor.description):
    d[col[0]] = row[idx]].  [description] holds the column names [col[0]]
    that are left, [idx] is the index of the first of them. *)
Fixpoint dict_factory_loop (description : list pystr) (idx : nat) (row : list V)
    (d : list (pystr * V)) : outcome (list (pystr * V)) :=
  match description with
  | [] => Returns d
  | col :: description' =>
      match nth_error row idx with
      | Some v => dict_factory_loop description' (S idx) row (setitem d col v)
      | None => Raises IndexError
      end
  end.

(** [dict_factory(cursor, row)] *)
Definition dict_factory (description : list pystr) (row : list V)
  : outcome (list (pystr * V)) :=
  dict_factory_loop description 0 row [].

End RowFactory.

(** *** Pydantic schemas of the other endpoints *)

Module CampaignCreate.

Record t : Type := {
  budget : float;
  ambiance : pystr;
  platform_pref : pystr;
  interactivity : Z;
  style : pystr;
  timeline : pystr
}.

End CampaignCreate.

Module CampaignOut.

(** [class CampaignOut(CampaignCreate)]: the fields it inherits, [id]
    and [submitted_at]. *)
Record t : Type := {
  fields : CampaignCreate.t;
  id : Z;
  submitted_at : pystr
}.

End CampaignOut.

Module DesignerCreate.

Record t : Type := {
  name : pystr;
  rate_tier : float;
  scene_tags : list pystr;
  export_formats : list pystr;
  game_logic_experience : Z;
  visual_metadata : list pystr;
  availability : pystr;
  performance_score : float
}.

End DesignerCreate.

(** *** The two tables *)

Module CampaignRow.

(** A row of [campaigns]: every column but the key may hold NULL. *)
Record t : Type := {
  id : Z;
  budget : option float;
  ambiance : option pystr;
  platform_pref : option pystr;
  interactivity : option Z;
  style : option pystr;
  timeline : option pystr;
  submitted_at : option pystr
}.

End CampaignRow.

(** The file [orbitivexr.db]: each of the two tables, once created.  A
    table column holds values of its declared type, or NULL. *)
Record DatabaseFile : Type := {
  campaigns_table : option (Sqlite.table CampaignRow.t);
  designers_table : option (Sqlite.table Designer)
}.

(** The file [sqlite3.connect] creates when there is none. *)
Definition new_file : DatabaseFile :=
  {| campaigns_table := None; designers_table := None |}.

(** [init_db()] *)
Definition init_db (db : DatabaseFile) : DatabaseFile :=
  {| campaigns_table := Sqlite.create_table_if_not_exists (campaigns_table db);
     designers_table := Sqlite.create_table_if_not_exists (designers_table db) |}.

(** [startup_event()] *)
Definition startup_event (db : DatabaseFile) : DatabaseFile := init_db db.

(** *** The [/campaigns] endpoints *)

(** [create_campaign(campaign)], with [submitted_at] the text of the
    current time.  The statement is prepared, its seven parameters are
    bound in order, the row is inserted and the model is built from
    [lastrowid]. *)
Definition create_campaign (db : DatabaseFile) (campaign : CampaignCreate.t)
    (submitted_at : pystr) : outcome (DatabaseFile * CampaignOut.t) :=
  match campaigns_table db with
  | None => Raises OperationalError
  | Some t =>
      let budget := Sqlite.real_column (CampaignCreate.budget campaign) in
      ambiance <-- Sqlite.bind_text (CampaignCreate.ambiance campaign) ;;
      platform_pref <-- Sqlite.bind_text (CampaignCreate.platform_pref campaign) ;;
      interactivity <-- Sqlite.bind_integer (CampaignCreate.interactivity campaign) ;;
      style <-- Sqlite.bind_text (CampaignCreate.style campaign) ;;
      timeline <-- Sqlite.bind_text (CampaignCreate.timeline campaign) ;;
      stamp <-- Sqlite.bind_text submitted_at ;;
      let '(t, campaign_id) :=
        Sqlite.insert CampaignRow.id t (fun id =>
          {| CampaignRow.id := id;
             CampaignRow.budget := budget;
             CampaignRow.ambiance := Some ambiance;
             CampaignRow.platform_pref := Some platform_pref;
             CampaignRow.interactivity := Some interactivity;
             CampaignRow.style := Some style;
             CampaignRow.timeline := Some timeline;
             CampaignRow.submitted_at := Some stamp |}) in
      Returns ({| campaigns_table := Some t; designers_table := designers_table db |},
               {| CampaignOut.fields := campaign;
                  CampaignOut.id := campaign_id;
                  CampaignOut.submitted_at := submitted_at |})
  end.

(** [CampaignOut(id=row["id"], budget=row["budget"], ...)]: every field
    is required, a NULL is a validation error. *)
Definition campaign_out (row : CampaignRow.t) : outcome CampaignOut.t :=
  match CampaignRow.budget row, CampaignRow.ambiance row,
        CampaignRow.platform_pref row, CampaignRow.interactivity row,
        CampaignRow.style row, CampaignRow.timeline row,
        CampaignRow.submitted_at row with
  | Some budget, Some ambiance, Some platform_pref, Some interactivity,
    Some style, Some timeline, Some submitted_at =>
      Returns {| CampaignOut.fields :=
                   {| CampaignCreate.budget := budget;
                      CampaignCreate.ambiance := ambiance;
                      CampaignCreate.platform_pref := platform_pref;
                      CampaignCreate.interactivity := interactivity;
                      CampaignCreate.style := style;
                      CampaignCreate.timeline := timeline |};
                 CampaignOut.id := CampaignRow.id row;
                 CampaignOut.submitted_at := submitted_at |}
  | _, _, _, _, _, _, _ => Raises (Python ValidationError)
  end.

(** The list comprehension [[CampaignOut(...) for row in campaigns]]. *)
Fixpoint campaigns_out (campaigns : list CampaignRow.t) : outcome (list CampaignOut.t) :=
  match campaigns with
  | [] => Returns []
  | row :: campaigns' =>
      out <-- campaign_out row ;;
      outs <-- campaigns_out campaigns' ;;
      Returns (out :: outs)
  end.

(** [list_campaigns()] *)
Definition list_campaigns (db : DatabaseFile) : outcome (list CampaignOut.t) :=
  match campaigns_table db with
  | None => Raises OperationalError
  | Some t => campaigns_out (Sqlite.rows t)
  end.

(** *** The [/designers] endpoints *)

(** [create_designer(designer)]: the three lists are serialized, the
    statement is prepared, its eight parameters are bound in order, the
    row is inserted and the model is built from [lastrowid]. *)
Definition create_designer (db : DatabaseFile) (designer : DesignerCreate.t)
  : outcome (DatabaseFile * DesignerOut) :=
  let tags := serialize_list (Some (DesignerCreate.scene_tags designer)) in
  let formats := serialize_list (Some (DesignerCreate.export_formats designer)) in
  let metadata := serialize_list (Some (DesignerCreate.visual_metadata designer)) in
  match designers_table db with
  | None => Raises OperationalError
  | Some t =>
      name <-- Sqlite.bind_text (DesignerCreate.name designer) ;;
      let rate_tier := Sqlite.real_column (DesignerCreate.rate_tier designer) in
      scene_tags <-- Sqlite.bind_text tags ;;
      export_formats <-- Sqlite.bind_text formats ;;
      game_logic_experience <--
        Sqlite.bind_integer (DesignerCreate.game_logic_experience designer) ;;
      visual_metadata <-- Sqlite.bind_text metadata ;;
      availability <-- Sqlite.bind_text (DesignerCreate.availability designer) ;;
      let performance_score :=
        Sqlite.real_column (DesignerCreate.performance_score designer) in
      let '(t, designer_id) :=
        Sqlite.insert designer_id t (fun id =>
          {| designer_id := id;
             name := name;
             rate_tier := rate_tier;
             scene_tags := PStr scene_tags;
             export_formats := PStr export_formats;
             game_logic_experience := Some game_logic_experience;
             visual_metadata := PStr visual_metadata;
             availability := Some availability;
             performance_score := performance_score |}) in
      Returns ({| campaigns_table := campaigns_table db; designers_table := Some t |},
               {| out_id := designer_id;
                  out_name := DesignerCreate.name designer;
                  out_rate_tier := Some (DesignerCreate.rate_tier designer);
                  out_scene_tags := str_list (DesignerCreate.scene_tags designer);
                  out_export_formats := str_list (DesignerCreate.export_formats designer);
                  out_game_logic_experience :=
                    Some (DesignerCreate.game_logic_experience designer);
                  out_visual_metadata := str_list (DesignerCreate.visual_metadata designer);
                  out_availability := Some (DesignerCreate.availability designer);
                  out_performance_score := DesignerCreate.performance_score designer |})
  end.

(** The loop of [list_designers]: [result] grows by one [DesignerOut]
    for every row, built from the deserialized lists and
    [d.get("performance_score") or 0.0]. *)
Fixpoint designers_out (designers : list Designer) (result : list DesignerOut)
  : outcome (list DesignerOut) :=
  match designers with
  | [] => Returns result
  | d :: designers' =>
      let out := designer_out (normalize_row d) in
      if validates out then designers_out designers' (result ++ [out])
      else Raises (Python ValidationError)
  end.

(** [list_designers()] *)
Definition list_designers (db : DatabaseFile) : outcome (list DesignerOut) :=
  match designers_table db with
  | None => Raises OperationalError
  | Some t => designers_out (Sqlite.rows t) []
  end.

(** *** The [/match] endpoint on the file *)

(** An exception of the matching logic, as it leaves an endpoint. *)
Definition of_result {A : Type} (r : result A) : outcome A :=
  match r with
  | Ok a => Returns a
  | Raise e => Raises (Python e)
  end.

(** [match_designers] and the functions it calls, on the rows of the
    file.  The campaign is the dict of the fetched row, in which every
    column but the key may be [None]; a designer row is the [Designer]
    above. *)
Module Stored.

(** [designer["rate_tier"] is not None and
    campaign["budget"] >= designer["rate_tier"]]: the comparison is
    reached for a designer with a rate, and [None >= x] is a
    [TypeError]. *)
Definition budget_ok (campaign : CampaignRow.t) (designer : Designer) : result bool :=
  match rate_tier designer with
  | None => Ok false
  | Some r =>
      match CampaignRow.budget campaign with
      | Some b => Ok (Float64.geb b r)
      | None => Raise TypeError
      end
  end.

(** Both levels are present and
    [designer["game_logic_experience"] >= campaign["interactivity"]]. *)
Definition interactivity_ok (campaign : CampaignRow.t) (designer : Designer) : bool :=
  match game_logic_experience designer, CampaignRow.interactivity campaign with
  | Some g, Some i => (g >=? i)%Z
  | _, _ => false
  end.

(** Both strings are non-empty and
    [designer["availability"] <= campaign["timeline"]], compared as strings. *)
Definition timeline_ok (campaign : CampaignRow.t) (designer : Designer) : bool :=
  match availability designer, CampaignRow.timeline campaign with
  | Some a, Some t => Str.truthy a && Str.truthy t && Str.leb a t
  | _, _ => false
  end.

(** [calculate_match_score(campaign, designer)] *)
Definition calculate_match_score (campaign : CampaignRow.t) (designer : Designer)
  : result float :=
  let score := of_Z 0 in
  (* Budget compatibility (20 %) *)
  b <- budget_ok campaign designer ;;
  let score := add_if b (of_Z 20) score in
  (* Ambiance match (20 %) *)
  let scene_tags := deserialize_list (scene_tags designer) in
  b <- wanted_in (CampaignRow.ambiance campaign) scene_tags ;;
  let score := add_if b (of_Z 20) score in
  (* Platform preference (15 %) *)
  let export_formats := deserialize_list (export_formats designer) in
  b <- wanted_in (CampaignRow.platform_pref campaign) export_formats ;;
  let score := add_if b (of_Z 15) score in
  (* Interactivity level (15 %) *)
  let score := add_if (interactivity_ok campaign designer) (of_Z 15) score in
  (* Style aesthetic (15 %) *)
  let visual_metadata := deserialize_list (visual_metadata designer) in
  b <- wanted_in (CampaignRow.style campaign) visual_metadata ;;
  let score := add_if b (of_Z 15) score in
  (* Timeline alignment (10 %) *)
  let score := add_if (timeline_ok campaign designer) (of_Z 10) score in
  (* Past performance (5 %) *)
  let score := add_performance designer score in
  Ok score.

(** The loop over the rows of [designers]. *)
Fixpoint score_designers (campaign : CampaignRow.t) (threshold : float)
    (rows : list Designer) (scored_designers : list ScoredDesigner)
  : result (list ScoredDesigner) :=
  match rows with
  | [] => Ok scored_designers
  | d :: rows' =>
      let d := normalize_row d in
      score <- calculate_match_score campaign d ;;
      if Float64.geb score threshold then
        let out := designer_out d in
        if validates out then
          score_designers campaign threshold rows'
            (scored_designers ++ [{| designer := out; score := score |}])
        else Raise ValidationError
      else score_designers campaign threshold rows' scored_designers
  end.

(** [cur.execute("SELECT * FROM campaigns WHERE id = ?", (id,))] on the
    table, then [fetchone()]. *)
Definition fetch_campaign (campaigns : Sqlite.table CampaignRow.t) (id : Z)
  : outcome (option CampaignRow.t) :=
  id <-- Sqlite.bind_integer id ;;
  Returns (find (fun row => (CampaignRow.id row =? id)%Z) (Sqlite.rows campaigns)).

(** [match_designers(match_request)].  The first statement is prepared
    (which needs the table) before its parameter is bound; the second
    SELECT is executed once a campaign is found. *)
Definition match_designers (db : DatabaseFile) (match_request : MatchRequest)
  : outcome (list ScoredDesigner) :=
  match campaigns_table db with
  | None => Raises OperationalError
  | Some campaigns =>
      campaign <-- fetch_campaign campaigns (request_campaign_id match_request) ;;
      match campaign with
      | None => Raises (Python (HTTPException 404))
      | Some campaign =>
          match designers_table db with
          | None => Raises OperationalError
          | Some designers =>
              of_result
                (scored_designers <-
                   score_designers campaign (threshold match_request)
                     (Sqlite.rows designers) [] ;;
                 Ok (PySort.sort_reverse score scored_designers))
          end
      end
  end.

End Stored.

(* ------------------------------------------------------------------------- *)
(** ** Vocabulary of the statements about the endpoints *)
(* ------------------------------------------------------------------------- *)

(** The campaign a row describes, given its budget: the typed record
    [calculate_match_score] is stated on.  The time of submission plays
    no part in the matching. *)
Definition typed_campaign (row : CampaignRow.t) (b : float) : Campaign :=
  {| campaign_id := CampaignRow.id row;
     budget := b;
     ambiance := CampaignRow.ambiance row;
     platform_pref := CampaignRow.platform_pref row;
     interactivity := CampaignRow.interactivity row;
     style := CampaignRow.style row;
     timeline := CampaignRow.timeline row;
     submitted_at :=
       match CampaignRow.submitted_at row with
       | Some stamp => stamp
       | None => []
       end |}.

(** The rows of [campaigns] that have a budget, as typed campaigns. *)
Fixpoint typed_campaigns (rows : list CampaignRow.t) : list Campaign :=
  match rows with
  | [] => []
  | row :: rows' =>
      match CampaignRow.budget row with
      | Some b => typed_campaign row b :: typed_campaigns rows'
      | None => typed_campaigns rows'
      end
  end.

(** The campaign a created record describes. *)
Definition campaign_of_out (out : CampaignOut.t) : Campaign :=
  let f := CampaignOut.fields out in
  {| campaign_id := CampaignOut.id out;
     budget := CampaignCreate.budget f;
     ambiance := Some (CampaignCreate.ambiance f);
     platform_pref := Some (CampaignCreate.platform_pref f);
     interactivity := Some (CampaignCreate.interactivity f);
     style := Some (CampaignCreate.style f);
     timeline := Some (CampaignCreate.timeline f);
     submitted_at := CampaignOut.submitted_at out |}.

(** The designer in memory, before it is stored: the fields of the
    model with its native lists, and an id. *)
Definition in_memory (designer : DesignerCreate.t) (id : Z) : Designer :=
  {| designer_id := id;
     name := DesignerCreate.name designer;
     rate_tier := Some (DesignerCreate.rate_tier designer);
     scene_tags := str_list (DesignerCreate.scene_tags designer);
     export_formats := str_list (DesignerCreate.export_formats designer);
     game_logic_experience := Some (DesignerCreate.game_logic_experience designer);
     visual_metadata := str_list (DesignerCreate.visual_metadata designer);
     availability := Some (DesignerCreate.availability designer);
     performance_score := Some (DesignerCreate.performance_score designer) |}.

(** The row [create_designer] writes for a designer and an id. *)
Definition designer_row (designer : DesignerCreate.t) (id : Z) : Designer :=
  {| designer_id := id;
     name := DesignerCreate.name designer;
     rate_tier := Sqlite.real_column (DesignerCreate.rate_tier designer);
     scene_tags := PStr (serialize_list (Some (DesignerCreate.scene_tags designer)));
     export_formats :=
       PStr (serialize_list (Some (DesignerCreate.export_formats designer)));
     game_logic_experience := Some (DesignerCreate.game_logic_experience designer);
     visual_metadata :=
       PStr (serialize_list (Some (DesignerCreate.visual_metadata designer)));
     availability := Some (DesignerCreate.availability designer);
     performance_score :=
       Sqlite.real_column (DesignerCreate.performance_score designer) |}.

(** The record [create_designer] returns for a designer and an id. *)
Definition created_out (designer : DesignerCreate.t) (id : Z) : DesignerOut :=
  {| out_id := id;
     out_name := DesignerCreate.name designer;
     out_rate_tier := Some (DesignerCreate.rate_tier designer);
     out_scene_tags := str_list (DesignerCreate.scene_tags designer);
     out_export_formats := str_list (DesignerCreate.export_formats designer);
     out_game_logic_experience := Some (DesignerCreate.game_logic_experience designer);
     out_visual_metadata := str_list (DesignerCreate.visual_metadata designer);
     out_availability := Some (DesignerCreate.availability designer);
     out_performance_score := DesignerCreate.performance_score designer |}.

(** A float a REAL column gives back as it was written. *)
Definition stored_as_written (f : float) : bool :=
  match f with
  | S754_nan => false
  | S754_zero s => negb s
  | _ => true
  end.

(** The parameters of [create_campaign] that [sqlite3] accepts. *)
Definition campaign_binds (campaign : CampaignCreate.t) (submitted_at : pystr) : bool :=
  Sqlite.encodable (CampaignCreate.ambiance campaign)
  && Sqlite.encodable (CampaignCreate.platform_pref campaign)
  && Sqlite.fits_int64 (CampaignCreate.interactivity campaign)
  && Sqlite.encodable (CampaignCreate.style campaign)
  && Sqlite.encodable (CampaignCreate.timeline campaign)
  && Sqlite.encodable submitted_at.

(** The parameters of [create_designer] that [sqlite3] accepts. *)
Definition designer_binds (designer : DesignerCreate.t) : bool :=
  Sqlite.encodable (DesignerCreate.name designer)
  && Sqlite.fits_int64 (DesignerCreate.game_logic_experience designer)
  && Sqlite.encodable (DesignerCreate.availability designer).

(** The three lists of a designer survive the JSON codec. *)
Definition lists_json_safe (designer : DesignerCreate.t) : bool :=
  forallb json_safe (DesignerCreate.scene_tags designer)
  && forallb json_safe (DesignerCreate.export_formats designer)
  && forallb json_safe (DesignerCreate.visual_metadata designer).

(** Printable ASCII. *)
Definition printable (c : char) : bool := ((32 <=? c) && (c <=? 126))%N.

(** The ids of a table are 1, 2, 3, ... in the order of its rows, and
    its counter stands at the last of them. *)
Definition numbered {R : Type} (rowid : R -> Z) (t : Sqlite.table R) : Prop :=
  map rowid (Sqlite.rows t) = map Z.of_nat (seq 1 (List.length (Sqlite.rows t)))
  /\ Sqlite.sequence t = Z.of_nat (List.length (Sqlite.rows t)).

(** Both tables exist and are numbered from 1. *)
Definition numbered_file (db : DatabaseFile) : Prop :=
  match campaigns_table db, designers_table db with
  | Some ct, Some dt => numbered CampaignRow.id ct /\ numbered designer_id dt
  | _, _ => False
  end.

(** The three-way comparison of two strings, by code point. *)
Fixpoint lex_compare (a b : pystr) : comparison :=
  match a, b with
  | [], [] => Eq
  | [], _ :: _ => Lt
  | _ :: _, [] => Gt
  | x :: a', y :: b' =>
      match (x ?= y)%N with
      | Eq => lex_compare a' b'
      | c => c
      end
  end.

(** A number written with a fixed count of decimal digits, zeros in
    front. *)
Fixpoint decimal (width : nat) (n : N) : pystr :=
  match width with
  | O => []
  | S w => decimal w (n / 10) ++ [(48 + n mod 10)%N]
  end.

(** A date as [YYYY-MM-DD]. *)
Definition iso_date (y m d : N) : pystr :=
  decimal 4 y ++ [45%N] ++ decimal 2 m ++ [45%N] ++ decimal 2 d.

Module Registry.

(** The campaign and the designer of the scenario, as the two creating
    endpoints receive them. *)
Definition campaign : CampaignCreate.t :=
  {| CampaignCreate.budget := of_Z 500;
     CampaignCreate.ambiance := lit "calm";
     CampaignCreate.platform_pref := lit "Quest";
     CampaignCreate.interactivity := 3;
     CampaignCreate.style := lit "minimalist";
     CampaignCreate.timeline := lit "2024-06-01" |}.

Definition designer : DesignerCreate.t :=
  {| DesignerCreate.name := lit "Ada";
     DesignerCreate.rate_tier := of_Z 400;
     DesignerCreate.scene_tags := [lit "calm"; lit "vibrant"];
     DesignerCreate.export_formats := [lit "Quest"; lit "WebXR"];
     DesignerCreate.game_logic_experience := 5;
     DesignerCreate.visual_metadata := [lit "minimalist"];
     DesignerCreate.availability := lit "2024-05-01";
     DesignerCreate.performance_score := of_decimal false 8 (-1) |}.

Definition stamp : pystr := lit "2024-01-01T00:00:00".

(** The file after start-up, one campaign and one designer. *)
Definition file : DatabaseFile :=
  {| campaigns_table :=
       Some {| Sqlite.rows :=
                 [{| CampaignRow.id := 1;
                     CampaignRow.budget := Some (of_Z 500);
                     CampaignRow.ambiance := Some (lit "calm");
                     CampaignRow.platform_pref := Some (lit "Quest");
                     CampaignRow.interactivity := Some 3%Z;
                     CampaignRow.style := Some (lit "minimalist");
                     CampaignRow.timeline := Some (lit "2024-06-01");
                     CampaignRow.submitted_at := Some stamp |}];
               Sqlite.sequence := 1 |};
     designers_table :=
       Some {| Sqlite.rows := [Scenario.row 1 600]; Sqlite.sequence := 1 |} |}.

End Registry.

(* ------------------------------------------------------------------------- *)
(** ** Float literals *)
(* ------------------------------------------------------------------------- *)

Example of_decimal_0_8 :
  of_decimal false 8 (-1) = S754_finite false 7205759403792794 (-53).
Proof. vm_compute. reflexivity. Qed.

Example of_Z_99 : of_Z 99 = S754_finite false 6966505673588736 (-46).
Proof. vm_compute. reflexivity. Qed.

(* ------------------------------------------------------------------------- *)
(** ** The decoder at work *)
(* ------------------------------------------------------------------------- *)

Example loads_array :
  Json.loads (lit " [1, -2.5e1, null, true, [], {}] ")
  = Some (PList [PInt 1; PFloat (of_Z (-25)); PNone; PBool true; PList []; PDict []]).
Proof. vm_compute. reflexivity. Qed.

Example loads_strings :
  Json.loads (Json.dumps [lit "calm"; lit "a\b"; [10; 233; 0x1F600]%N])
  = Some (str_list [lit "calm"; lit "a\b"; [10; 233; 0x1F600]%N]).
Proof. vm_compute. reflexivity. Qed.

Example loads_scalar : Json.loads (lit "5") = Some (PInt 5).
Proof. reflexivity. Qed.

Example loads_trailing_comma : Json.loads (lit "[1,]") = None.
Proof. reflexivity. Qed.

Example loads_extra_data : Json.loads (lit "[] []") = None.
Proof. reflexivity. Qed.

Example loads_leading_zero : Json.loads (lit "01") = None.
Proof. reflexivity. Qed.

(* ------------------------------------------------------------------------- *)
(** ** Signs of rounded results *)
(* ------------------------------------------------------------------------- *)

Section FloatSigns.

Lemma nonneg_spec (f : float) : nonneg f = true <-> is_nonneg f.
Proof.
  destruct f as [s | s | | s m e]; try destruct s; cbn; intuition congruence.
Qed.

Lemma iter_pos_invariant (A : Type) (P : A -> Prop) (f : A -> A) :
  (forall x, P x -> P (f x)) ->
  forall (p : positive) (x : A), P x -> P (iter_pos f p x).
Proof.
  intros Hf. induction p as [p IH | p IH | ]; intros x Hx; cbn; auto.
Qed.

Lemma shr_1_nonneg (mrs : shr_record) :
  (0 <= shr_m mrs)%Z -> (0 <= shr_m (shr_1 mrs))%Z.
Proof.
  destruct mrs as [m r s]. cbn.
  destruct m as [ | [p | p | ] | p]; cbn; lia.
Qed.

Lemma shr_nonneg (mrs : shr_record) (e n : Z) :
  (0 <= shr_m mrs)%Z -> (0 <= shr_m (fst (shr mrs e n)))%Z.
Proof.
  intros H. destruct n as [ | p | p]; cbn; auto.
  apply iter_pos_invariant with (P := fun x => (0 <= shr_m x)%Z); auto.
  apply shr_1_nonneg.
Qed.

Lemma shr_m_record_of_loc (m : Z) (l : location) :
  shr_m (shr_record_of_loc m l) = m.
Proof. destruct l as [ | [ | | ]]; reflexivity. Qed.

Lemma shr_fexp_nonneg (m e : Z) (l : location) :
  (0 <= m)%Z -> (0 <= shr_m (fst (shr_fexp prec emax m e l)))%Z.
Proof.
  intros H. unfold shr_fexp. apply shr_nonneg.
  rewrite shr_m_record_of_loc. exact H.
Qed.

Lemma round_nearest_even_nonneg (m : Z) (l : location) :
  (0 <= m)%Z -> (0 <= round_nearest_even m l)%Z.
Proof.
  intros H. destruct l as [ | [ | | ]]; cbn; try lia.
  destruct (Z.even m); lia.
Qed.

(** Rounding a non-negative mantissa with a positive sign never yields
    a NaN or a negative float. *)
Lemma binary_round_aux_nonneg (m e : Z) (l : location) :
  (0 <= m)%Z -> is_nonneg (binary_round_aux prec emax false m e l).
Proof.
  intros H. unfold binary_round_aux.
  pose proof (shr_fexp_nonneg m e l H) as H1.
  destruct (shr_fexp prec emax m e l) as [mrs' e']. cbn [fst] in H1.
  pose proof (round_nearest_even_nonneg _ (loc_of_shr_record mrs') H1) as H2.
  pose proof (shr_fexp_nonneg _ e' loc_Exact H2) as H3.
  destruct (shr_fexp prec emax _ e' loc_Exact) as [mrs'' e'']. cbn [fst] in H3.
  destruct (shr_m mrs'') as [ | p | p]; cbn; auto; try lia.
  destruct (e'' <=? _)%Z; cbn; reflexivity.
Qed.

Lemma binary_round_nonneg (m : positive) (e : Z) :
  is_nonneg (binary_round prec emax false m e).
Proof.
  unfold binary_round.
  destruct (shl_align m e _) as [mz ez].
  apply binary_round_aux_nonneg. lia.
Qed.

Lemma add_nonneg (a b : float) :
  is_nonneg a -> is_nonneg b -> is_nonneg (Float64.add a b).
Proof.
  destruct a as [sa | sa | | sa ma ea], b as [sb | sb | | sb mb eb];
    intros Ha Hb; cbn in Ha, Hb; subst; try contradiction;
    try exact I; try reflexivity.
  - destruct sa, sb; exact I.
  - unfold Float64.add, SFadd, cond_Zopp, binary_normalize.
    destruct (shl_align ma ea _) as [ma' ea'], (shl_align mb eb _) as [mb' eb'].
    cbn [fst]. cbn [Z.add]. apply binary_round_nonneg.
Qed.

Lemma mul_finite_nonneg (a : float) (m : positive) (e : Z) :
  is_nonneg a -> is_nonneg (Float64.mul a (S754_finite false m e)).
Proof.
  destruct a as [sa | sa | | sa ma ea]; intros Ha; cbn in Ha; subst;
    try contradiction; try exact I; try reflexivity.
  unfold Float64.mul, SFmul. cbn [xorb].
  apply binary_round_aux_nonneg. lia.
Qed.

End FloatSigns.

(* ------------------------------------------------------------------------- *)
(** ** The order on floats *)
(* ------------------------------------------------------------------------- *)

Section FloatOrder.

Lemma compare_cont_Eq (m1 m2 : positive) :
  Pos.compare_cont Eq m1 m2 = (m1 ?= m2)%positive.
Proof. reflexivity. Qed.

Ltac fold_compare :=
  repeat match goal with
    | |- context [Pos.compare_cont Eq ?x ?y] =>
        change (Pos.compare_cont Eq x y) with (Pos.compare x y)
    | H : context [Pos.compare_cont Eq ?x ?y] |- _ =>
        change (Pos.compare_cont Eq x y) with (Pos.compare x y) in H
    end.

Ltac compare_cases :=
  fold_compare;
  repeat match goal with
    | |- context [Z.compare ?x ?y] =>
        destruct (Z.compare_spec x y); subst; try lia
    | H : context [Z.compare ?x ?y] |- _ =>
        destruct (Z.compare_spec x y); subst; try lia
    | |- context [Pos.compare ?x ?y] =>
        destruct (Pos.compare_spec x y); subst; try lia
    | H : context [Pos.compare ?x ?y] |- _ =>
        destruct (Pos.compare_spec x y); subst; try lia
    end.

Lemma SFcompare_antisym (a b : float) :
  SFcompare b a = option_map CompOpp (SFcompare a b).
Proof.
  destruct a as [sa | sa | | sa ma ea], b as [sb | sb | | sb mb eb];
    try destruct sa; try destruct sb; cbn; try reflexivity;
    compare_cases; reflexivity.
Qed.

Lemma ltb_asym (a b : float) :
  Float64.ltb a b = true -> Float64.ltb b a = false.
Proof.
  unfold Float64.ltb, SFltb. rewrite (SFcompare_antisym a b).
  destruct (SFcompare a b) as [[ | | ] | ]; cbn; congruence.
Qed.

Lemma geb_not_nan (a b : float) :
  Float64.geb a b = true -> is_nan a = false /\ is_nan b = false.
Proof.
  unfold Float64.geb, SFleb.
  destruct a as [sa | sa | | sa ma ea], b as [sb | sb | | sb mb eb];
    cbn; auto; discriminate.
Qed.

Lemma not_ltb_geb (a b : float) :
  is_nan a = false -> is_nan b = false ->
  Float64.ltb a b = false -> Float64.geb a b = true.
Proof.
  unfold Float64.ltb, Float64.geb, SFltb, SFleb.
  rewrite (SFcompare_antisym a b).
  destruct a as [sa | sa | | sa ma ea], b as [sb | sb | | sb mb eb];
    cbn [is_nan]; try discriminate; intros _ _;
    destruct (SFcompare _ _) as [[ | | ] | ] eqn:E; cbn; try congruence;
    cbn in E; discriminate.
Qed.

Lemma eqb_geb (a b : float) :
  Float64.eqb a b = true -> Float64.geb a b = true.
Proof.
  unfold Float64.eqb, Float64.geb, SFeqb, SFleb.
  rewrite (SFcompare_antisym a b).
  destruct (SFcompare a b) as [[ | | ] | ]; cbn; congruence.
Qed.

(** Floats that compare equal compare alike with every third float. *)
Lemma eqb_compare_compat (x k y : float) :
  Float64.eqb x k = true -> SFcompare y x = SFcompare y k.
Proof.
  unfold Float64.eqb, SFeqb.
  destruct x as [sx | sx | | sx mx ex], k as [sk | sk | | sk mk ek];
    try destruct sx; try destruct sk; cbn; try discriminate;
    try (destruct y as [sy | sy | | sy my ey]; reflexivity);
    fold_compare;
    destruct (Z.compare_spec ex ek); try discriminate;
    destruct (Pos.compare_spec mx mk); try discriminate;
    intros _; subst; reflexivity.
Qed.

Lemma leb_trans (a b c : float) :
  Float64.leb a b = true -> Float64.leb b c = true -> Float64.leb a c = true.
Proof.
  unfold Float64.leb, SFleb.
  destruct a as [sa | sa | | sa ma ea], b as [sb | sb | | sb mb eb],
    c as [sc | sc | | sc mc ec];
    try destruct sa; try destruct sb; try destruct sc;
    cbn; try congruence;
    intros H1 H2; compare_cases; cbn in *; congruence.
Qed.

Lemma geb_trans (a b c : float) :
  Float64.geb a b = true -> Float64.geb b c = true -> Float64.geb a c = true.
Proof. unfold Float64.geb. intros H1 H2. exact (leb_trans c b a H2 H1). Qed.

End FloatOrder.

(* ------------------------------------------------------------------------- *)
(** ** Rounding to nearest even: closed form, validity, monotonicity *)
(* ------------------------------------------------------------------------- *)

Local Open Scope Z_scope.

Section Digits.

Lemma digits2_pos_bounds (p : positive) :
  2 ^ (Zpos (digits2_pos p) - 1) <= Zpos p < 2 ^ Zpos (digits2_pos p).
Proof.
  induction p as [p IH | p IH | ]; cbn [digits2_pos].
  - rewrite Pos2Z.inj_succ.
    replace (Z.succ (Z.pos (digits2_pos p)) - 1) with (Z.succ (Z.pos (digits2_pos p) - 1)) by lia.
    rewrite !Z.pow_succ_r by lia. lia.
  - rewrite Pos2Z.inj_succ.
    replace (Z.succ (Z.pos (digits2_pos p)) - 1) with (Z.succ (Z.pos (digits2_pos p) - 1)) by lia.
    rewrite !Z.pow_succ_r by lia. lia.
  - cbn. lia.
Qed.

(** The number of binary digits is determined by the two bounds. *)
Lemma digits_unique (u d : Z) :
  0 < d -> 2 ^ (d - 1) <= u < 2 ^ d -> Zdigits2 u = d.
Proof.
  intros Hd [Hlo Hhi].
  assert (Hu : 0 < u) by (pose proof (Z.pow_pos_nonneg 2 (d - 1)); lia).
  destruct u as [ | p | p]; try lia. cbn [Zdigits2].
  pose proof (digits2_pos_bounds p) as [Plo Phi].
  set (d' := Z.pos (digits2_pos p)) in *.
  destruct (Z.lt_trichotomy d' d) as [H | [H | H]]; auto.
  - assert (2 ^ d' <= 2 ^ (d - 1)) by (apply Z.pow_le_mono_r; lia). lia.
  - assert (2 ^ d <= 2 ^ (d' - 1)) by (apply Z.pow_le_mono_r; lia). lia.
Qed.

Lemma Zdigits2_bounds (u : Z) :
  0 < u -> 2 ^ (Zdigits2 u - 1) <= u < 2 ^ Zdigits2 u.
Proof. destruct u; try lia. intros _. apply digits2_pos_bounds. Qed.

Lemma Zdigits2_pos (u : Z) : 0 < u -> 0 < Zdigits2 u.
Proof. destruct u; cbn; lia. Qed.

Lemma Zdigits2_shift (u j : Z) :
  0 < u -> 0 <= j -> Zdigits2 (u * 2 ^ j) = Zdigits2 u + j.
Proof.
  intros Hu Hj. apply digits_unique.
  - pose proof (Zdigits2_pos u Hu). lia.
  - pose proof (Zdigits2_bounds u Hu) as [Hlo Hhi].
    replace (Zdigits2 u + j - 1) with (Zdigits2 u - 1 + j) by lia.
    pose proof (Zdigits2_pos u Hu).
    rewrite !Z.pow_add_r by lia.
    pose proof (Z.pow_pos_nonneg 2 j). nia.
Qed.

Lemma Zdigits2_mono (u v : Z) : 0 < u -> u <= v -> Zdigits2 u <= Zdigits2 v.
Proof.
  intros Hu Huv.
  pose proof (Zdigits2_bounds u Hu) as [Hlo _].
  pose proof (Zdigits2_bounds v ltac:(lia)) as [_ Hhi].
  destruct (Z.le_gt_cases (Zdigits2 u) (Zdigits2 v)) as [H | H]; auto.
  assert (2 ^ Zdigits2 v <= 2 ^ (Zdigits2 u - 1)) by (apply Z.pow_le_mono_r; lia).
  lia.
Qed.

End Digits.

Section ShiftRight.

Lemma shr_1_nonneg_eq (m : Z) (r s : bool) :
  0 <= m ->
  shr_1 (Build_shr_record m r s) = Build_shr_record (m / 2) (Z.odd m) (r || s).
Proof.
  intros Hm. destruct m as [ | [p | p | ] | p]; try lia; cbn [shr_1].
  - reflexivity.
  - f_equal. rewrite Pos2Z.inj_xI.
    apply Z.div_unique with (r := 1); lia.
  - f_equal. rewrite Pos2Z.inj_xO.
    apply Z.div_unique with (r := 0); lia.
  - reflexivity.
Qed.

Lemma shifted_0 (m : Z) : shifted m 0 (Build_shr_record m false false).
Proof.
  unfold shifted, loc_of_rem. cbn [shr_m loc_of_shr_record].
  rewrite Z.pow_0_r, Z.div_1_r, Z.mod_1_r. auto.
Qed.

Lemma shifted_step (m j : Z) (mrs : shr_record) :
  0 <= m -> 0 <= j -> shifted m j mrs -> shifted m (j + 1) (shr_1 mrs).
Proof.
  intros Hm Hj [Hq Hl]. destruct mrs as [mj r s]. cbn [shr_m] in Hq.
  assert (Hp : 0 < 2 ^ j) by (apply Z.pow_pos_nonneg; lia).
  assert (Hmj : 0 <= mj) by (subst mj; apply Z.div_pos; lia).
  rewrite shr_1_nonneg_eq by exact Hmj.
  assert (Hpow : 2 ^ (j + 1) = 2 ^ j * 2) by (rewrite Z.pow_add_r by lia; reflexivity).
  assert (Hrem : m mod 2 ^ (j + 1) = m mod 2 ^ j + 2 ^ j * (mj mod 2)).
  { rewrite Hpow, Z.rem_mul_r by lia. subst mj. reflexivity. }
  assert (Hs : (r || s)%bool = negb (m mod 2 ^ j =? 0)).
  { unfold loc_of_rem in Hl. cbn [loc_of_shr_record] in Hl.
    destruct (m mod 2 ^ j =? 0), r, s; cbn; auto; try discriminate;
      destruct (_ ?= _) in Hl; discriminate. }
  pose proof (Z.mod_pos_bound m (2 ^ j) Hp) as Hb.
  split; cbn [shr_m loc_of_shr_record].
  - rewrite Hpow, <- Z.div_div by lia. subst mj. reflexivity.
  - unfold loc_of_rem. rewrite Hs, Hrem, Hpow.
    rewrite Zodd_mod.
    pose proof (Z.mod_pos_bound mj 2 ltac:(lia)) as Hb2.
    destruct (Z.eqb_spec (mj mod 2) 1) as [E1 | E1];
      destruct (Z.eqb_spec (m mod 2 ^ j) 0) as [E0 | E0]; cbn [negb].
    + rewrite E0, E1.
      replace (0 + 2 ^ j * 1 =? 0) with false by (symmetry; apply Z.eqb_neq; lia).
      replace (2 * (0 + 2 ^ j * 1) ?= 2 ^ j * 2) with Eq; [reflexivity | ].
      symmetry. apply Z.compare_eq_iff. lia.
    + rewrite E1.
      replace (m mod 2 ^ j + 2 ^ j * 1 =? 0) with false by (symmetry; apply Z.eqb_neq; lia).
      replace (2 * (m mod 2 ^ j + 2 ^ j * 1) ?= 2 ^ j * 2) with Gt; [reflexivity | ].
      symmetry. apply Z.compare_gt_iff. lia.
    + assert (mj mod 2 = 0) as -> by lia. rewrite E0.
      replace (0 + 2 ^ j * 0) with 0 by lia. reflexivity.
    + assert (mj mod 2 = 0) as -> by lia.
      replace (m mod 2 ^ j + 2 ^ j * 0 =? 0) with false by (symmetry; apply Z.eqb_neq; lia).
      replace (2 * (m mod 2 ^ j + 2 ^ j * 0) ?= 2 ^ j * 2) with Lt; [reflexivity | ].
      symmetry. apply Z.compare_lt_iff. lia.
Qed.

Lemma shifted_iter (m : Z) (p : positive) :
  0 <= m ->
  forall (j : Z) (mrs : shr_record),
    0 <= j -> shifted m j mrs -> shifted m (j + Zpos p) (iter_pos shr_1 p mrs).
Proof.
  intros Hm. induction p as [p IH | p IH | ]; intros j mrs Hj H; cbn [iter_pos].
  - replace (j + Z.pos p~1) with (j + 1 + Z.pos p + Z.pos p) by lia.
    apply IH; [lia | ]. apply IH; [lia | ]. apply shifted_step; auto.
  - replace (j + Z.pos p~0) with (j + Z.pos p + Z.pos p) by lia.
    apply IH; [lia | ]. apply IH; auto.
  - apply shifted_step; auto.
Qed.

Lemma round_nearest_even_loc (m k : Z) :
  0 <= k ->
  round_nearest_even (m / 2 ^ k) (loc_of_rem (m mod 2 ^ k) k) = rne m k.
Proof.
  intros Hk. unfold loc_of_rem, rne.
  assert (Hp : 0 < 2 ^ k) by (apply Z.pow_pos_nonneg; lia).
  destruct (Z.eqb_spec (m mod 2 ^ k) 0) as [E | E].
  - rewrite E. cbn [round_nearest_even].
    assert (H : (2 * 0 ?= 2 ^ k) = Lt) by (apply Z.compare_lt_iff; lia).
    rewrite H. reflexivity.
  - cbn [round_nearest_even]. destruct (_ ?= _); reflexivity.
Qed.

(** The first half of [binary_round_aux]: shifting by [n >= 0] and
    rounding. *)
Lemma shr_round (m e n : Z) :
  0 <= m -> 0 <= n ->
  let '(mrs, e') := shr (Build_shr_record m false false) e n in
  round_nearest_even (shr_m mrs) (loc_of_shr_record mrs) = rne m n /\ e' = e + n.
Proof.
  intros Hm Hn. destruct n as [ | p | p]; try lia; cbn [shr].
  - split; [ | lia]. cbn. unfold rne.
    rewrite Z.pow_0_r, Z.div_1_r, Z.mod_1_r. reflexivity.
  - pose proof (shifted_iter m p Hm 0 _ ltac:(lia) (shifted_0 m)) as [Hq Hl].
    rewrite Z.add_0_l in Hq, Hl. rewrite Hq, Hl.
    split; [ | reflexivity]. apply round_nearest_even_loc. lia.
Qed.

End ShiftRight.

Section RoundAt.

Lemma fexp_eq (x : Z) : fexp prec emax x = Z.max (x - 53) (-1074).
Proof. reflexivity. Qed.

Lemma rne_bounds (m k : Z) :
  0 <= m -> 0 <= k -> m / 2 ^ k <= rne m k <= m / 2 ^ k + 1.
Proof.
  intros Hm Hk. unfold rne.
  destruct (_ ?= _); try destruct (Z.even _); lia.
Qed.

Lemma rne_below (m k b : Z) :
  0 < m -> 0 <= k -> 0 <= b -> Zdigits2 m <= k + b -> 0 <= rne m k <= 2 ^ b.
Proof.
  intros Hm Hk Hb Hd.
  pose proof (rne_bounds m k ltac:(lia) Hk) as [Hlo Hhi].
  assert (Hp : 0 < 2 ^ k) by (apply Z.pow_pos_nonneg; lia).
  assert (0 <= m / 2 ^ k) by (apply Z.div_pos; lia).
  assert (m / 2 ^ k < 2 ^ b); [ | lia].
  apply Z.div_lt_upper_bound; [exact Hp | ].
  rewrite <- Z.pow_add_r by lia.
  pose proof (Zdigits2_bounds m Hm) as [_ Hmd].
  assert (2 ^ Zdigits2 m <= 2 ^ (k + b)) by (apply Z.pow_le_mono_r; lia).
  lia.
Qed.

Lemma Zdigits2_le (q b : Z) : 0 <= b -> 0 <= q -> q < 2 ^ b -> Zdigits2 q <= b.
Proof.
  intros Hb Hq Hlt. destruct (Z.eq_dec q 0) as [-> | Hne]; [cbn; lia | ].
  pose proof (Zdigits2_bounds q ltac:(lia)) as [Hlo _].
  destruct (Z.le_gt_cases (Zdigits2 q) b) as [H | H]; auto.
  assert (2 ^ b <= 2 ^ (Zdigits2 q - 1)) by (apply Z.pow_le_mono_r; lia). lia.
Qed.

Lemma Zdigits2_nonneg (q : Z) : 0 <= Zdigits2 q.
Proof. destruct q; cbn; lia. Qed.

Lemma shr_m_finish (s : bool) (mrs : shr_record) (e : Z) :
  match shr_m mrs with
  | Z0 => S754_zero s
  | Zpos m => if e <=? emax - prec then S754_finite s m e else S754_infinity s
  | Zneg _ => S754_nan
  end = finish s (shr_m mrs) e.
Proof. reflexivity. Qed.

(** [binary_round_aux] on an exact mantissa that needs no shift to the
    left. *)
Lemma binary_round_aux_round_at (s : bool) (m e : Z) :
  0 < m -> e <= fexp prec emax (Zdigits2 m + e) ->
  binary_round_aux prec emax s m e loc_Exact = round_at s m e.
Proof.
  intros Hm He. unfold binary_round_aux, round_at, shr_fexp.
  cbn [shr_record_of_loc].
  set (fe := fexp prec emax (Zdigits2 m + e)) in *.
  pose proof (shr_round m e (fe - e) ltac:(lia) ltac:(lia)) as H1.
  destruct (shr _ e (fe - e)) as [mrs' e']. destruct H1 as [Hq ->].
  rewrite Hq. replace (e + (fe - e)) with fe by lia.
  set (q := rne m (fe - e)).
  assert (Hfe : -1074 <= fe /\ Zdigits2 m + e - 53 <= fe)
    by (unfold fe; rewrite fexp_eq; lia).
  assert (Hqb : 0 <= q <= 2 ^ 53)
    by (apply rne_below; lia).
  assert (Hdq : Zdigits2 q <= 54).
  { apply Zdigits2_le; lia. }
  pose proof (Zdigits2_nonneg q) as Hdq0.
  rewrite fexp_eq. change prec with 53.
  destruct (Z.leb_spec (Zdigits2 q) 53) as [Hle | Hgt].
  - replace (Z.max (Zdigits2 q + fe - 53) (-1074) - fe) with (- (fe - Z.max (Zdigits2 q + fe - 53) (-1074))) by lia.
    destruct (fe - Z.max (Zdigits2 q + fe - 53) (-1074)) as [ | p | p] eqn:E; try lia;
      cbn [Z.opp shr]; apply shr_m_finish.
  - replace (Z.max (Zdigits2 q + fe - 53) (-1074) - fe) with 1 by lia.
    cbn [shr iter_pos]. rewrite shr_1_nonneg_eq by lia.
    rewrite shr_m_finish. reflexivity.
Qed.

End RoundAt.

Section Units.

Lemma rne_shift (m k j : Z) :
  0 <= k -> 0 <= j -> rne (m * 2 ^ j) (k + j) = rne m k.
Proof.
  intros Hk Hj. unfold rne.
  assert (Hpk : 0 < 2 ^ k) by (apply Z.pow_pos_nonneg; lia).
  assert (Hpj : 0 < 2 ^ j) by (apply Z.pow_pos_nonneg; lia).
  rewrite Z.pow_add_r by lia.
  rewrite Z.div_mul_cancel_r by lia.
  rewrite Z.mul_mod_distr_r by lia.
  replace (2 * (m mod 2 ^ k * 2 ^ j)) with (2 * (m mod 2 ^ k) * 2 ^ j) by ring.
  rewrite <- Zmult_compare_compat_r by lia. reflexivity.
Qed.

(** The rounded result depends on the value only. *)
Lemma round_at_shift (s : bool) (m e j : Z) :
  0 < m -> 0 <= j -> e <= fexp prec emax (Zdigits2 m + e) ->
  round_at s (m * 2 ^ j) (e - j) = round_at s m e.
Proof.
  intros Hm Hj He. unfold round_at.
  rewrite Zdigits2_shift by lia.
  replace (Zdigits2 m + j + (e - j)) with (Zdigits2 m + e) by lia.
  set (fe := fexp prec emax (Zdigits2 m + e)) in *.
  replace (fe - (e - j)) with (fe - e + j) by lia.
  rewrite rne_shift by lia. reflexivity.
Qed.

Lemma iter_xO (d m : positive) :
  Zpos (Pos.iter xO m d) = Zpos m * 2 ^ Zpos d.
Proof.
  induction d as [ | d IH] using Pos.peano_ind.
  - cbn [Pos.iter]. rewrite Pos2Z.inj_xO. lia.
  - rewrite Pos.iter_succ, Pos2Z.inj_xO, IH, Pos2Z.inj_succ, Z.pow_succ_r by lia.
    ring.
Qed.

(** [binary_round] first aligns the mantissa, then rounds. *)
Lemma binary_round_round_at (s : bool) (m : positive) (e e0 : Z) :
  e0 <= e -> e0 <= fexp prec emax (Zdigits2 (Zpos m) + e) ->
  binary_round prec emax s m e = round_at s (Zpos m * 2 ^ (e - e0)) e0.
Proof.
  intros He0 Hfe0. unfold binary_round, shl_align.
  change (Z.pos (digits2_pos m)) with (Zdigits2 (Zpos m)).
  set (fe := fexp prec emax (Zdigits2 (Zpos m) + e)) in *.
  destruct (fe - e) as [ | d | d] eqn:E.
  - rewrite binary_round_aux_round_at by (fold fe; lia).
    rewrite <- (round_at_shift s (Zpos m) e (e - e0)) by (fold fe; lia).
    f_equal. lia.
  - rewrite binary_round_aux_round_at by (fold fe; lia).
    rewrite <- (round_at_shift s (Zpos m) e (e - e0)) by (fold fe; lia).
    f_equal. lia.
  - rewrite iter_xO.
    assert (Hd : Zdigits2 (Zpos m * 2 ^ Zpos d) + fe = Zdigits2 (Zpos m) + e)
      by (rewrite Zdigits2_shift by lia; lia).
    assert (Hp : 0 < Zpos m * 2 ^ Zpos d).
    { pose proof (Z.pow_pos_nonneg 2 (Zpos d)). lia. }
    rewrite binary_round_aux_round_at by (try rewrite Hd; fold fe; lia).
    rewrite <- (round_at_shift s (Zpos m * 2 ^ Zpos d) fe (fe - e0))
      by (try rewrite Hd; fold fe; lia).
    f_equal; [ | lia].
    rewrite <- Z.mul_assoc, <- Z.pow_add_r by lia. f_equal. f_equal. lia.
Qed.

End Units.

Section RoundAtFacts.

Lemma Zdigits2_ge (q b : Z) : 0 <= b -> 2 ^ b <= q -> b < Zdigits2 q.
Proof.
  intros Hb Hq.
  assert (0 < 2 ^ b) by (apply Z.pow_pos_nonneg; lia).
  pose proof (Zdigits2_bounds q ltac:(lia)) as [_ Hhi].
  destruct (Z.lt_ge_cases b (Zdigits2 q)) as [H' | H']; auto.
  assert (2 ^ Zdigits2 q <= 2 ^ b)
    by (apply Z.pow_le_mono_r; [lia | exact H']).
  lia.
Qed.

(** The mantissa and the exponent [round_at] arrives at. *)
Lemma round_at_spec (s : bool) (m e : Z) :
  0 < m -> e <= fexp prec emax (Zdigits2 m + e) ->
  let fe := fexp prec emax (Zdigits2 m + e) in
  let q := rne m (fe - e) in
  0 <= q <= 2 ^ 53
  /\ (-1074 < fe -> 2 ^ 52 <= q)
  /\ (q < 2 ^ 53 /\ round_at s m e = finish s q fe
      \/ q = 2 ^ 53 /\ round_at s m e = finish s (2 ^ 52) (fe + 1)).
Proof.
  intros Hm He fe q.
  assert (Hfe : -1074 <= fe /\ Zdigits2 m + e - 53 <= fe
                /\ (-1074 < fe -> fe = Zdigits2 m + e - 53))
    by (unfold fe; rewrite fexp_eq; lia).
  assert (Hq : 0 <= q <= 2 ^ 53) by (apply rne_below; lia).
  split; [exact Hq | ]. split.
  - intros Hn. destruct Hfe as (_ & _ & Hfe). specialize (Hfe Hn).
    pose proof (rne_bounds m (fe - e) ltac:(lia) ltac:(lia)) as [Hlo _].
    fold q in Hlo.
    assert (2 ^ 52 <= m / 2 ^ (fe - e)); [ | lia].
    assert (Hp : 0 < 2 ^ (fe - e)) by (apply Z.pow_pos_nonneg; lia).
    apply Z.div_le_lower_bound; [exact Hp | ].
    rewrite <- Z.pow_add_r by lia.
    pose proof (Zdigits2_bounds m Hm) as [Hmd _].
    replace (fe - e + 52) with (Zdigits2 m - 1) by lia. exact Hmd.
  - unfold round_at. fold fe. fold q. change prec with 53.
    destruct (Z.leb_spec (Zdigits2 q) 53) as [Hle | Hgt].
    + left. split; [ | reflexivity].
      destruct (Z.eq_dec q 0) as [E | E]; [rewrite E; reflexivity | ].
      pose proof (Zdigits2_bounds q ltac:(lia)) as [_ Hhi].
      assert (2 ^ Zdigits2 q <= 2 ^ 53) by (apply Z.pow_le_mono_r; lia).
      lia.
    + right.
      assert (q = 2 ^ 53).
      { destruct (Z.eq_dec q (2 ^ 53)) as [E | E]; auto.
        assert (Zdigits2 q <= 53) by (apply Zdigits2_le; lia). lia. }
      split; [assumption | ]. f_equal. subst q. rewrite H. reflexivity.
Qed.

Lemma finish_valid (s : bool) (q e : Z) :
  0 <= q -> (q = 0 \/ fexp prec emax (Zdigits2 q + e) = e) ->
  valid_binary prec emax (finish s q e) = true.
Proof.
  intros Hq Hc. destruct q as [ | p | p]; try lia; cbn [finish]; auto.
  destruct Hc as [Hc | Hc]; [discriminate | ].
  destruct (Z.leb_spec e (emax - prec)) as [Hle | Hgt]; auto.
  cbn [valid_binary]. unfold bounded, canonical_mantissa.
  change (Z.pos (digits2_pos p)) with (Zdigits2 (Zpos p)).
  apply andb_true_intro. split; [apply Z.eqb_eq; exact Hc | apply Z.leb_le; exact Hle].
Qed.

(** The result of rounding is a float of the format. *)
Lemma round_at_valid (s : bool) (m e : Z) :
  0 < m -> e <= fexp prec emax (Zdigits2 m + e) ->
  valid_binary prec emax (round_at s m e) = true.
Proof.
  intros Hm He.
  destruct (round_at_spec s m e Hm He) as (Hq & Hn & [[Hlt ->] | [Heq ->]]).
  - set (fe := fexp prec emax (Zdigits2 m + e)) in *.
    set (q := rne m (fe - e)) in *.
    assert (Hfe : -1074 <= fe) by (unfold fe; rewrite fexp_eq; lia).
    apply finish_valid; [lia | ].
    destruct (Z.eq_dec q 0) as [E | E]; [left; exact E | right].
    assert (Hd : Zdigits2 q <= 53) by (apply Zdigits2_le; lia).
    rewrite fexp_eq.
    destruct (Z.eq_dec fe (-1074)) as [E' | E']; [lia | ].
    assert (52 < Zdigits2 q) by (apply Zdigits2_ge; lia). lia.
  - set (fe := fexp prec emax (Zdigits2 m + e)) in *.
    assert (Hfe : -1074 <= fe) by (unfold fe; rewrite fexp_eq; lia).
    apply finish_valid; [lia | right].
    rewrite fexp_eq. change (Zdigits2 (2 ^ 52)) with 53. lia.
Qed.

(** A float of the format rounds to itself. *)
Lemma round_at_valid_float (s : bool) (m : positive) (e : Z) :
  valid_binary prec emax (S754_finite s m e) = true ->
  round_at s (Zpos m) e = S754_finite s m e
  /\ e = fexp prec emax (Zdigits2 (Zpos m) + e).
Proof.
  cbn [valid_binary]. unfold bounded, canonical_mantissa. intros H.
  apply andb_prop in H. destruct H as [Hc Hb].
  apply Z.eqb_eq in Hc. apply Z.leb_le in Hb.
  change (Z.pos (digits2_pos m)) with (Zdigits2 (Zpos m)) in Hc.
  split; [ | congruence].
  unfold round_at. rewrite Hc, Z.sub_diag.
  assert (Hr : rne (Zpos m) 0 = Zpos m).
  { unfold rne. rewrite Z.pow_0_r, Z.div_1_r, Z.mod_1_r. reflexivity. }
  rewrite Hr.
  assert (Hd : Zdigits2 (Zpos m) <= 53) by (rewrite fexp_eq in Hc; lia).
  change prec with 53. apply Z.leb_le in Hd. rewrite Hd.
  cbn [finish]. apply Z.leb_le in Hb. rewrite Hb. reflexivity.
Qed.

End RoundAtFacts.

Section Monotone.

Lemma rne_mono (m1 m2 k : Z) :
  0 <= m1 <= m2 -> 0 <= k -> rne m1 k <= rne m2 k.
Proof.
  intros Hm Hk. unfold rne.
  assert (Hp : 0 < 2 ^ k) by (apply Z.pow_pos_nonneg; lia).
  pose proof (Z.div_mod m1 (2 ^ k) ltac:(lia)) as D1.
  pose proof (Z.div_mod m2 (2 ^ k) ltac:(lia)) as D2.
  pose proof (Z.mod_pos_bound m1 (2 ^ k) Hp) as B1.
  pose proof (Z.mod_pos_bound m2 (2 ^ k) Hp) as B2.
  assert (Hf : m1 / 2 ^ k <= m2 / 2 ^ k) by (apply Z.div_le_mono; lia).
  set (f1 := m1 / 2 ^ k) in *. set (f2 := m2 / 2 ^ k) in *.
  set (r1 := m1 mod 2 ^ k) in *. set (r2 := m2 mod 2 ^ k) in *.
  set (P := 2 ^ k) in *.
  destruct (Z.eq_dec f1 f2) as [E | E].
  - rewrite E in *.
    destruct (Z.compare_spec (2 * r1) P), (Z.compare_spec (2 * r2) P);
      destruct (Z.even f2); lia.
  - destruct (Z.compare_spec (2 * r1) P), (Z.compare_spec (2 * r2) P);
      destruct (Z.even f1), (Z.even f2); lia.
Qed.

Lemma finish_lex (q1 e1 q2 e2 : Z) :
  lex_le q1 e1 q2 e2 ->
  SFleb (finish false q1 e1) (finish false q2 e2) = true
  /\ SFleb (finish true q2 e2) (finish true q1 e1) = true.
Proof.
  intros (H1 & H2 & H).
  destruct q1 as [ | p1 | p1], q2 as [ | p2 | p2]; try lia; cbn [finish];
    destruct (Z.leb_spec e1 (emax - prec)), (Z.leb_spec e2 (emax - prec));
    unfold SFleb, SFcompare; auto; try (exfalso; lia);
    change (Pos.compare_cont Eq p1 p2) with (Pos.compare p1 p2);
    change (Pos.compare_cont Eq p2 p1) with (Pos.compare p2 p1);
    destruct (Z.compare_spec e1 e2), (Z.compare_spec e2 e1); try lia;
    destruct (Pos.compare_spec p1 p2), (Pos.compare_spec p2 p1);
    cbn; auto; lia.
Qed.

Lemma fexp_mono (x y : Z) : x <= y -> fexp prec emax x <= fexp prec emax y.
Proof. rewrite !fexp_eq. lia. Qed.

(** Rounding is monotone: upwards for positive results, downwards for
    their negatives. *)
Lemma round_at_mono (m1 m2 e : Z) :
  0 < m1 -> m1 <= m2 -> e <= fexp prec emax (Zdigits2 m1 + e) ->
  SFleb (round_at false m1 e) (round_at false m2 e) = true
  /\ SFleb (round_at true m2 e) (round_at true m1 e) = true.
Proof.
  intros Hm1 Hm He1.
  pose proof (Zdigits2_mono m1 m2 Hm1 Hm) as Hd.
  pose proof (fexp_mono (Zdigits2 m1 + e) (Zdigits2 m2 + e) ltac:(lia)) as Hfe.
  assert (He2 : e <= fexp prec emax (Zdigits2 m2 + e)) by lia.
  pose proof (round_at_spec false m1 e Hm1 He1) as (Hq1 & Hn1 & C1).
  pose proof (round_at_spec false m2 e ltac:(lia) He2) as (Hq2 & Hn2 & C2).
  pose proof (round_at_spec true m1 e Hm1 He1) as (_ & _ & C1').
  pose proof (round_at_spec true m2 e ltac:(lia) He2) as (_ & _ & C2').
  set (fe1 := fexp prec emax (Zdigits2 m1 + e)) in *.
  set (fe2 := fexp prec emax (Zdigits2 m2 + e)) in *.
  assert (Hfe1 : -1074 <= fe1) by (unfold fe1; rewrite fexp_eq; lia).
  assert (Hmono : fe1 = fe2 -> rne m1 (fe1 - e) <= rne m2 (fe2 - e)).
  { intros <-. apply rne_mono; lia. }
  set (q1 := rne m1 (fe1 - e)) in *. set (q2 := rne m2 (fe2 - e)) in *.
  assert (P52 : 0 < 2 ^ 52) by reflexivity.
  assert (P53 : 2 ^ 52 < 2 ^ 53) by reflexivity.
  assert (L : exists a ea b eb,
             round_at false m1 e = finish false a ea
             /\ round_at true m1 e = finish true a ea
             /\ round_at false m2 e = finish false b eb
             /\ round_at true m2 e = finish true b eb
             /\ lex_le a ea b eb).
  { destruct C1 as [[Hl1 R1] | [Hl1 R1]], C1' as [[Hl1' R1'] | [Hl1' R1']];
      try lia;
      destruct C2 as [[Hl2 R2] | [Hl2 R2]], C2' as [[Hl2' R2'] | [Hl2' R2']];
      try lia;
      do 4 eexists; (split; [exact R1 | ]); (split; [exact R1' | ]);
      (split; [exact R2 | ]); (split; [exact R2' | ]);
      unfold lex_le; destruct (Z.eq_dec fe1 fe2) as [E | E];
      try specialize (Hmono E); lia. }
  destruct L as (a & ea & b & eb & -> & -> & -> & -> & HL).
  apply finish_lex. exact HL.
Qed.

End Monotone.

Section AddUnits.

Lemma same_value_leb (f f' g g' : spec_float) :
  same_value f f' -> same_value g g' -> SFleb f g = SFleb f' g'.
Proof.
  intros Hf Hg. unfold SFleb.
  replace (SFcompare f g) with (SFcompare f' g'); [reflexivity | ].
  destruct Hf as [-> | [Hf Hf']], Hg as [-> | [Hg Hg']].
  - reflexivity.
  - destruct g, g'; try discriminate. destruct f'; reflexivity.
  - destruct f, f'; try discriminate. destruct g'; reflexivity.
  - destruct f, f', g, g'; try discriminate; reflexivity.
Qed.

Lemma valid_exponent (s : bool) (m : positive) (e : Z) :
  valid_binary prec emax (S754_finite s m e) = true -> -1074 <= e.
Proof.
  intros H. apply round_at_valid_float in H. destruct H as [_ H].
  rewrite fexp_eq in H. lia.
Qed.

Lemma fexp_min (x : Z) : -1074 <= fexp prec emax x.
Proof. rewrite fexp_eq. lia. Qed.

Lemma round_units_scaled (s : bool) (m : positive) (e : Z) :
  -1074 <= e ->
  round_units (cond_Zopp s (Zpos m * 2 ^ (e + 1074))) = binary_round prec emax s m e.
Proof.
  intros He.
  rewrite (binary_round_round_at s m e (-1074) He (fexp_min _)).
  replace (e - -1074) with (e + 1074) by lia.
  assert (Hp : 0 < Zpos m * 2 ^ (e + 1074)).
  { pose proof (Z.pow_pos_nonneg 2 (e + 1074)). lia. }
  destruct (Zpos m * 2 ^ (e + 1074)) as [ | u | u]; try lia.
  destruct s; reflexivity.
Qed.

(** A float of the format is the nearest float to its own value. *)
Lemma round_units_valid (f : spec_float) :
  valid_binary prec emax f = true -> finite_or_zero f = true ->
  same_value f (round_units (units f)).
Proof.
  intros Hv Hf. destruct f as [s | s | | s m e]; try discriminate.
  - right. auto.
  - left. cbn [units].
    pose proof (valid_exponent s m e Hv) as He.
    rewrite (round_units_scaled s m e He).
    rewrite (binary_round_round_at s m e e ltac:(lia)).
    + rewrite Z.sub_diag, Z.pow_0_r, Z.mul_1_r.
      symmetry. apply round_at_valid_float. exact Hv.
    + apply round_at_valid_float in Hv. destruct Hv as [_ <-]. lia.
Qed.

Lemma shl_align_fst (m : positive) (e ez : Z) :
  ez <= e -> Zpos (fst (shl_align m e ez)) = Zpos m * 2 ^ (e - ez).
Proof.
  intros H. unfold shl_align.
  destruct (ez - e) as [ | d | d] eqn:E; try lia; cbn [fst].
  - replace (e - ez) with 0 by lia. lia.
  - rewrite iter_xO. f_equal. f_equal. lia.
Qed.

Lemma cond_Zopp_mul (s : bool) (x c : Z) : cond_Zopp s x * c = cond_Zopp s (x * c).
Proof. destruct s; cbn; lia. Qed.

Lemma binary_normalize_units (m e : Z) :
  -1074 <= e ->
  binary_normalize prec emax m e false = round_units (m * 2 ^ (e + 1074)).
Proof.
  intros He. destruct m as [ | p | p]; cbn [binary_normalize].
  - reflexivity.
  - rewrite <- (round_units_scaled false p e He). reflexivity.
  - rewrite <- (round_units_scaled true p e He). cbn [cond_Zopp]. f_equal. lia.
Qed.

(** The sum of two floats is the float nearest to the sum of their
    values. *)
Lemma add_units (a b : spec_float) :
  valid_binary prec emax a = true -> valid_binary prec emax b = true ->
  finite_or_zero a = true -> finite_or_zero b = true ->
  same_value (SFadd prec emax a b) (round_units (units a + units b)).
Proof.
  intros Va Vb Fa Fb.
  destruct a as [sa | sa | | sa ma ea]; try discriminate;
    destruct b as [sb | sb | | sb mb eb]; try discriminate.
  - right. destruct sa, sb; auto.
  - cbn [SFadd]. change (units (S754_zero sa)) with 0. rewrite Z.add_0_l.
    apply round_units_valid; auto.
  - cbn [SFadd]. change (units (S754_zero sb)) with 0. rewrite Z.add_0_r.
    apply round_units_valid; auto.
  - left. cbn [SFadd units].
    pose proof (valid_exponent sa ma ea Va) as Ha.
    pose proof (valid_exponent sb mb eb Vb) as Hb.
    set (ez := Z.min ea eb).
    rewrite binary_normalize_units by (unfold ez; lia).
    f_equal.
    rewrite !shl_align_fst by (unfold ez; lia).
    rewrite Z.mul_add_distr_r, !cond_Zopp_mul.
    rewrite <- !Z.mul_assoc, <- !Z.pow_add_r by (unfold ez; lia).
    f_equal; f_equal; f_equal; f_equal; lia.
Qed.

Lemma finish_sign (s : bool) (q e : Z) :
  0 <= q -> if s then is_nonpos (finish s q e) else is_nonneg (finish s q e).
Proof.
  intros Hq. destruct q as [ | p | p]; try lia; destruct s; cbn; auto;
    destruct (e <=? _); reflexivity.
Qed.

Lemma round_at_sign (s : bool) (u : positive) :
  if s then is_nonpos (round_at s (Zpos u) (-1074))
  else is_nonneg (round_at s (Zpos u) (-1074)).
Proof.
  destruct (round_at_spec s (Zpos u) (-1074) ltac:(lia) (fexp_min _))
    as (Hq & _ & [[_ ->] | [_ ->]]); apply finish_sign; lia.
Qed.

Lemma nonpos_le_nonneg (f g : spec_float) :
  is_nonpos f -> is_nonneg g -> SFleb f g = true.
Proof.
  destruct f as [sf | sf | | sf mf ef], g as [sg | sg | | sg mg eg]; cbn;
    intros Hf Hg; subst; auto; contradiction.
Qed.

Lemma round_units_mono (z1 z2 : Z) :
  z1 <= z2 -> SFleb (round_units z1) (round_units z2) = true.
Proof.
  intros H. destruct z1 as [ | u1 | u1], z2 as [ | u2 | u2]; try lia;
    cbn [round_units].
  - reflexivity.
  - apply nonpos_le_nonneg; [exact I | apply (round_at_sign false)].
  - apply round_at_mono; [lia | lia | apply fexp_min].
  - apply nonpos_le_nonneg; [apply (round_at_sign true) | exact I].
  - apply nonpos_le_nonneg; [apply (round_at_sign true) | apply (round_at_sign false)].
  - apply round_at_mono; [lia | lia | apply fexp_min].
Qed.

Lemma leb_not_ltb (f g : spec_float) : SFleb f g = true -> SFltb g f = false.
Proof.
  unfold SFleb, SFltb.
  destruct f as [sf | sf | | sf mf ef], g as [sg | sg | | sg mg eg];
    try destruct sf; try destruct sg; cbn; try congruence;
    change (Pos.compare_cont Eq mf mg) with (Pos.compare mf mg);
    change (Pos.compare_cont Eq mg mf) with (Pos.compare mg mf);
    destruct (Z.compare_spec ef eg), (Z.compare_spec eg ef); try lia; try congruence;
    destruct (Pos.compare_spec mf mg), (Pos.compare_spec mg mf);
    cbn; try congruence; lia.
Qed.

(** Adding the same float to a smaller and to a larger one cannot
    reverse their order. *)
Lemma add_monotone (a b x : spec_float) :
  valid_binary prec emax a = true -> valid_binary prec emax b = true ->
  valid_binary prec emax x = true ->
  finite_or_zero a = true -> finite_or_zero b = true ->
  units a <= units b ->
  SFltb (SFadd prec emax b x) (SFadd prec emax a x) = false.
Proof.
  intros Va Vb Vx Fa Fb Hab.
  destruct (finite_or_zero x) eqn:Fx.
  - apply leb_not_ltb.
    rewrite (same_value_leb _ _ _ _ (add_units a x Va Vx Fa Fx) (add_units b x Vb Vx Fb Fx)).
    apply round_units_mono. lia.
  - destruct x as [sx | sx | | sx mx ex]; try discriminate;
      destruct a as [sa | sa | | sa ma ea]; try discriminate;
      destruct b as [sb | sb | | sb mb eb]; try discriminate;
      try reflexivity; destruct sx; reflexivity.
Qed.

Lemma Zdigits2_mul (m1 m2 : positive) :
  Zdigits2 (Zpos m1) + Zdigits2 (Zpos m2) - 1 <= Zdigits2 (Zpos m1 * Zpos m2).
Proof.
  pose proof (Zdigits2_bounds (Zpos m1) ltac:(lia)) as [H1 _].
  pose proof (Zdigits2_bounds (Zpos m2) ltac:(lia)) as [H2 _].
  pose proof (Zdigits2_pos (Zpos m1) ltac:(lia)).
  pose proof (Zdigits2_pos (Zpos m2) ltac:(lia)).
  assert (Zdigits2 (Zpos m1) + Zdigits2 (Zpos m2) - 2 < Zdigits2 (Zpos m1 * Zpos m2));
    [ | lia].
  apply Zdigits2_ge; [lia | ].
  replace (Zdigits2 (Zpos m1) + Zdigits2 (Zpos m2) - 2)
    with ((Zdigits2 (Zpos m1) - 1) + (Zdigits2 (Zpos m2) - 1)) by lia.
  rewrite Z.pow_add_r by lia.
  apply Z.mul_le_mono_nonneg; try lia;
    apply Z.pow_nonneg; lia.
Qed.

(** The product of two floats of the format is one. *)
Lemma mul_valid (p q : spec_float) :
  valid_binary prec emax p = true -> valid_binary prec emax q = true ->
  valid_binary prec emax (SFmul prec emax p q) = true.
Proof.
  intros Vp Vq.
  destruct p as [sp | sp | | sp mp ep], q as [sq | sq | | sq mq eq];
    try reflexivity.
  cbn [SFmul].
  pose proof (round_at_valid_float sp mp ep Vp) as [_ Hp].
  pose proof (round_at_valid_float sq mq eq Vq) as [_ Hq].
  pose proof (Zdigits2_mul mp mq) as Hd.
  pose proof (Zdigits2_pos (Zpos mp) ltac:(lia)).
  pose proof (Zdigits2_pos (Zpos mq) ltac:(lia)).
  rewrite fexp_eq in Hp, Hq.
  assert (He : ep + eq <= fexp prec emax (Zdigits2 (Zpos (mp * mq)) + (ep + eq))).
  { rewrite fexp_eq, Pos2Z.inj_mul. lia. }
  rewrite binary_round_aux_round_at by (lia || exact He).
  apply round_at_valid; [lia | exact He].
Qed.

End AddUnits.

Local Close Scope Z_scope.

(* ------------------------------------------------------------------------- *)
(** ** The scanner never runs short of fuel *)
(* ------------------------------------------------------------------------- *)

Section ScannerFuel.

Ltac break_match H :=
  repeat match type of H with
    | context [match ?x with _ => _ end] => destruct x eqn:?; try discriminate H
    end.

Lemma skip_ws_length (s : pystr) :
  (List.length (Json.skip_ws s) <= List.length s)%nat.
Proof.
  induction s as [ | c s IH]; cbn; [lia | ].
  destruct (Json.is_ws c); cbn; lia.
Qed.

Lemma strip_prefix_length (p s r : pystr) :
  strip_prefix p s = Some r -> List.length s = (List.length p + List.length r)%nat.
Proof.
  revert s. induction p as [ | x p IH]; intros s H; cbn in H.
  - injection H as ->. reflexivity.
  - destruct s as [ | y s]; [discriminate | ].
    destruct (x =? y)%N; [ | discriminate].
    apply IH in H. cbn. lia.
Qed.

Lemma span_length (p : char -> bool) (s a b : pystr) :
  span p s = (a, b) -> List.length s = (List.length a + List.length b)%nat.
Proof.
  revert a b. induction s as [ | c s IH]; intros a b H; cbn in H.
  - injection H as <- <-. reflexivity.
  - destruct (p c).
    + destruct (span p s) as [a' b'] eqn:E. injection H as <- <-.
      specialize (IH _ _ eq_refl). cbn. lia.
    + injection H as <- <-. reflexivity.
Qed.

(** A string is scanned up to and including its closing quote. *)
Lemma scanstring_length (n : nat) :
  forall (s chunks str r : pystr),
    (List.length s <= n)%nat ->
    Json.scanstring s chunks = Some (str, r) ->
    (List.length r < List.length s)%nat.
Proof.
  induction n as [ | n IH]; intros s chunks str r Hn H.
  - destruct s; [discriminate | cbn in Hn; lia].
  - destruct s as [ | c rest]; [discriminate | ].
    cbn [Json.scanstring] in H. cbn [List.length] in Hn.
    break_match H;
      try (injection H as <- <-; cbn; lia);
      apply IH in H; cbn [List.length] in *; lia.
Qed.

Lemma match_integer_length (s : pystr) (neg : bool) (ds r : pystr) :
  Json.match_integer s = Some (neg, ds, r) -> (List.length r < List.length s)%nat.
Proof.
  unfold Json.match_integer. intros H.
  destruct s as [ | c s']; [discriminate | ].
  destruct (c =? ch "-")%N.
  - destruct s' as [ | d r']; [discriminate | ].
    destruct (d =? ch "0")%N; [injection H as <- <- <-; cbn; lia | ].
    destruct (Json.is_digit d); [ | discriminate].
    destruct (span Json.is_digit r') as [a b] eqn:E. injection H as <- <- <-.
    apply span_length in E. cbn. lia.
  - destruct (c =? ch "0")%N; [injection H as <- <- <-; cbn; lia | ].
    destruct (Json.is_digit c); [ | discriminate].
    destruct (span Json.is_digit s') as [a b] eqn:E. injection H as <- <- <-.
    apply span_length in E. cbn. lia.
Qed.

Lemma match_frac_length (s : pystr) :
  (List.length (snd (Json.match_frac s)) <= List.length s)%nat.
Proof.
  unfold Json.match_frac. destruct s as [ | c r]; [cbn; lia | ].
  destruct (c =? ch ".")%N; [ | cbn; lia].
  destruct (span Json.is_digit r) as [a b] eqn:E. apply span_length in E.
  destruct a; cbn in *; lia.
Qed.

Lemma match_exp_length (s : pystr) :
  (List.length (snd (Json.match_exp s)) <= List.length s)%nat.
Proof.
  unfold Json.match_exp. destruct s as [ | c r]; [cbn; lia | ].
  destruct ((c =? ch "e") || (c =? ch "E"))%N; [ | cbn; lia].
  destruct r as [ | sg r'].
  - cbn. lia.
  - destruct (sg =? ch "-")%N; [ | destruct (sg =? ch "+")%N];
      match goal with
      | |- context [span Json.is_digit ?x] =>
          destruct (span Json.is_digit x) as [a b] eqn:E; apply span_length in E
      end; destruct a; cbn in *; lia.
Qed.

Lemma match_number_length (s : pystr) (v : pyval) (r : pystr) :
  Json.match_number s = Some (v, r) -> (List.length r < List.length s)%nat.
Proof.
  unfold Json.match_number. intros H.
  destruct (Json.match_integer s) as [[[neg ds] s1] | ] eqn:E; [ | discriminate].
  apply match_integer_length in E.
  pose proof (match_frac_length s1) as Hf.
  destruct (Json.match_frac s1) as [frac s2]. cbn [snd] in Hf.
  pose proof (match_exp_length s2) as He.
  destruct (Json.match_exp s2) as [exp s3]. cbn [snd] in He.
  destruct frac, exp; injection H as <- <-; lia.
Qed.

Lemma scan_constant_length (s : pystr) (v : pyval) (r : pystr) :
  Json.scan_constant s = Some (v, r) -> (List.length r < List.length s)%nat.
Proof.
  unfold Json.scan_constant. intros H.
  break_match H; injection H as <- <-;
    match goal with
    | E : strip_prefix _ _ = Some _ |- _ => apply strip_prefix_length in E; cbn in E; lia
    end.
Qed.


Section Loops.

Variable scan : pystr -> option (pyval * pystr).

Hypothesis scan_length :
  forall s v r, scan s = Some (v, r) -> (List.length r < List.length s)%nat.

Lemma JSONArray_loop_length (n : nat) :
  forall (s : pystr) (values : list pyval) (v : pyval) (r : pystr),
    Json.JSONArray_loop scan n s values = Some (v, r) ->
    (List.length r < List.length s)%nat.
Proof.
  induction n as [ | n IH]; intros s values v r H; [discriminate | ].
  cbn [Json.JSONArray_loop] in H.
  destruct (scan s) as [[value s1] | ] eqn:E; [ | discriminate].
  apply scan_length in E.
  pose proof (skip_ws_length s1) as Hw.
  destruct (Json.skip_ws s1) as [ | c s2]; [discriminate | ]. cbn [List.length] in Hw.
  destruct (c =? ch "]")%N; [injection H as <- <-; lia | ].
  destruct (c =? ch ",")%N; [ | discriminate].
  apply IH in H. pose proof (skip_ws_length s2). lia.
Qed.

Lemma JSONArray_length (n : nat) (s : pystr) (v : pyval) (r : pystr) :
  Json.JSONArray scan n s = Some (v, r) -> (List.length r < S (List.length s))%nat.
Proof.
  unfold Json.JSONArray. intros H.
  pose proof (skip_ws_length s) as Hw.
  destruct (Json.skip_ws s) as [ | c s1] eqn:E; [discriminate | ].
  cbn [List.length] in Hw.
  destruct (c =? ch "]")%N; [injection H as <- <-; lia | ].
  apply JSONArray_loop_length in H. cbn [List.length] in H. lia.
Qed.

Lemma JSONObject_loop_length (n : nat) :
  forall (s : pystr) (pairs : list (pystr * pyval)) (v : pyval) (r : pystr),
    Json.JSONObject_loop scan n s pairs = Some (v, r) ->
    (List.length r < List.length s)%nat.
Proof.
  induction n as [ | n IH]; intros s pairs v r H; [discriminate | ].
  cbn [Json.JSONObject_loop] in H.
  destruct (Json.scanstring s []) as [[key s1] | ] eqn:E; [ | discriminate].
  apply (scanstring_length _ _ _ _ _ (Nat.le_refl _)) in E.
  pose proof (skip_ws_length s1) as Hw1.
  destruct (Json.skip_ws s1) as [ | c s2]; [discriminate | ]. cbn [List.length] in Hw1.
  destruct (c =? ch ":")%N; [ | discriminate].
  pose proof (skip_ws_length s2) as Hw2.
  destruct (scan (Json.skip_ws s2)) as [[value s3] | ] eqn:E3; [ | discriminate].
  apply scan_length in E3.
  pose proof (skip_ws_length s3) as Hw3.
  destruct (Json.skip_ws s3) as [ | d s4]; [discriminate | ]. cbn [List.length] in Hw3.
  destruct (d =? ch "}")%N; [injection H as <- <-; lia | ].
  destruct (d =? ch ",")%N; [ | discriminate].
  pose proof (skip_ws_length s4) as Hw4.
  destruct (Json.skip_ws s4) as [ | q s5]; [discriminate | ]. cbn [List.length] in Hw4.
  destruct (q =? dquote)%N; [ | discriminate].
  apply IH in H. lia.
Qed.

Lemma JSONObject_length (n : nat) (s : pystr) (v : pyval) (r : pystr) :
  Json.JSONObject scan n s = Some (v, r) -> (List.length r < S (List.length s))%nat.
Proof.
  unfold Json.JSONObject. intros H.
  pose proof (skip_ws_length s) as Hw.
  destruct (Json.skip_ws s) as [ | c s1] eqn:E; [discriminate | ].
  cbn [List.length] in Hw.
  destruct (c =? ch "}")%N; [injection H as <- <-; lia | ].
  destruct (c =? dquote)%N; [ | discriminate].
  apply JSONObject_loop_length in H. lia.
Qed.

(** Two scanners that agree on the texts of length at most [bound]
    drive the loops alike, whatever the loop counters above the length of
    the text. *)
Variable scan' : pystr -> option (pyval * pystr).
Variable bound : nat.

Hypothesis scan_eq :
  forall t, (List.length t <= bound)%nat -> scan t = scan' t.

Lemma JSONArray_loop_stable (n : nat) :
  forall (n' : nat) (s : pystr) (values : list pyval),
    (List.length s <= bound)%nat ->
    (List.length s < n)%nat -> (List.length s < n')%nat ->
    Json.JSONArray_loop scan n s values = Json.JSONArray_loop scan' n' s values.
Proof.
  induction n as [ | n IH]; intros n' s values Hb Hn Hn'; [lia | ].
  destruct n' as [ | n']; [lia | ].
  cbn [Json.JSONArray_loop]. rewrite <- (scan_eq s Hb).
  destruct (scan s) as [[value s1] | ] eqn:E; [ | reflexivity].
  apply scan_length in E.
  pose proof (skip_ws_length s1) as Hw.
  destruct (Json.skip_ws s1) as [ | c s2]; [reflexivity | ]. cbn [List.length] in Hw.
  destruct (c =? ch "]")%N; [reflexivity | ].
  destruct (c =? ch ",")%N; [ | reflexivity].
  pose proof (skip_ws_length s2).
  apply IH; lia.
Qed.

Lemma JSONArray_stable (n n' : nat) (s : pystr) :
  (List.length s <= bound)%nat ->
  (List.length s < n)%nat -> (List.length s < n')%nat ->
  Json.JSONArray scan n s = Json.JSONArray scan' n' s.
Proof.
  intros Hb Hn Hn'. unfold Json.JSONArray.
  pose proof (skip_ws_length s) as Hw.
  destruct (Json.skip_ws s) as [ | c s1] eqn:E; [reflexivity | ].
  destruct (c =? ch "]")%N; [reflexivity | ].
  apply JSONArray_loop_stable; lia.
Qed.

Lemma JSONObject_loop_stable (n : nat) :
  forall (n' : nat) (s : pystr) (pairs : list (pystr * pyval)),
    (List.length s <= bound)%nat ->
    (List.length s < n)%nat -> (List.length s < n')%nat ->
    Json.JSONObject_loop scan n s pairs = Json.JSONObject_loop scan' n' s pairs.
Proof.
  induction n as [ | n IH]; intros n' s pairs Hb Hn Hn'; [lia | ].
  destruct n' as [ | n']; [lia | ].
  cbn [Json.JSONObject_loop].
  destruct (Json.scanstring s []) as [[key s1] | ] eqn:E; [ | reflexivity].
  apply (scanstring_length _ _ _ _ _ (Nat.le_refl _)) in E.
  pose proof (skip_ws_length s1) as Hw1.
  destruct (Json.skip_ws s1) as [ | c s2]; [reflexivity | ]. cbn [List.length] in Hw1.
  destruct (c =? ch ":")%N; [ | reflexivity].
  pose proof (skip_ws_length s2) as Hw2.
  rewrite <- (scan_eq (Json.skip_ws s2)) by lia.
  destruct (scan (Json.skip_ws s2)) as [[value s3] | ] eqn:E3; [ | reflexivity].
  apply scan_length in E3.
  pose proof (skip_ws_length s3) as Hw3.
  destruct (Json.skip_ws s3) as [ | d s4]; [reflexivity | ]. cbn [List.length] in Hw3.
  destruct (d =? ch "}")%N; [reflexivity | ].
  destruct (d =? ch ",")%N; [ | reflexivity].
  pose proof (skip_ws_length s4) as Hw4.
  destruct (Json.skip_ws s4) as [ | q s5]; [reflexivity | ]. cbn [List.length] in Hw4.
  destruct (q =? dquote)%N; [ | reflexivity].
  apply IH; lia.
Qed.

Lemma JSONObject_stable (n n' : nat) (s : pystr) :
  (List.length s <= bound)%nat ->
  (List.length s < n)%nat -> (List.length s < n')%nat ->
  Json.JSONObject scan n s = Json.JSONObject scan' n' s.
Proof.
  intros Hb Hn Hn'. unfold Json.JSONObject.
  pose proof (skip_ws_length s) as Hw.
  destruct (Json.skip_ws s) as [ | c s1] eqn:E; [reflexivity | ].
  cbn [List.length] in Hw.
  destruct (c =? ch "}")%N; [reflexivity | ].
  destruct (c =? dquote)%N; [ | reflexivity].
  apply JSONObject_loop_stable; lia.
Qed.

End Loops.

(** Every value the scanner returns has used up part of the text. *)
Lemma scan_once_length (fuel : nat) :
  forall (s : pystr) (v : pyval) (r : pystr),
    Json.scan_once fuel s = Some (v, r) -> (List.length r < List.length s)%nat.
Proof.
  induction fuel as [ | fuel IH]; intros s v r H; [discriminate | ].
  cbn [Json.scan_once] in H.
  destruct s as [ | c rest]; [discriminate | ].
  destruct (c =? dquote)%N.
  { destruct (Json.scanstring rest []) as [[str r'] | ] eqn:E; [ | discriminate].
    injection H as <- <-.
    apply (scanstring_length _ _ _ _ _ (Nat.le_refl _)) in E. cbn. lia. }
  destruct (c =? ch "{")%N.
  { apply (JSONObject_length _ IH) in H. cbn. lia. }
  destruct (c =? ch "[")%N.
  { apply (JSONArray_length _ IH) in H. cbn. lia. }
  destruct (strip_prefix (lit "null") (c :: rest)) eqn:E1.
  { injection H as <- <-. apply strip_prefix_length in E1. cbn in E1 |- *. lia. }
  destruct (strip_prefix (lit "true") (c :: rest)) eqn:E2.
  { injection H as <- <-. apply strip_prefix_length in E2. cbn in E2 |- *. lia. }
  destruct (strip_prefix (lit "false") (c :: rest)) eqn:E3.
  { injection H as <- <-. apply strip_prefix_length in E3. cbn in E3 |- *. lia. }
  destruct (Json.match_number (c :: rest)) as [[v' r'] | ] eqn:E4.
  { injection H as <- <-. apply match_number_length in E4. exact E4. }
  apply scan_constant_length in H. exact H.
Qed.

(** Above the length of the text the amount of fuel does not matter:
    the scanner never fails for want of it. *)
Lemma scan_once_stable (bound : nat) :
  forall (s : pystr) (fuel fuel' : nat),
    (List.length s <= bound)%nat ->
    (List.length s < fuel)%nat -> (List.length s < fuel')%nat ->
    Json.scan_once fuel s = Json.scan_once fuel' s.
Proof.
  induction bound as [ | bound IH]; intros s fuel fuel' Hb Hf Hf'.
  - destruct s; [ | cbn in Hb; lia].
    destruct fuel, fuel'; try lia. reflexivity.
  - destruct fuel as [ | fuel]; [lia | ]. destruct fuel' as [ | fuel']; [lia | ].
    cbn [Json.scan_once].
    destruct s as [ | c rest]; [reflexivity | ]. cbn [List.length] in *.
    assert (Heq : forall t, (List.length t <= List.length rest)%nat ->
                            Json.scan_once fuel t = Json.scan_once fuel' t)
      by (intros t Ht; apply IH; lia).
    destruct (c =? dquote)%N; [reflexivity | ].
    destruct (c =? ch "{")%N.
    { apply (JSONObject_stable _ (scan_once_length fuel) _ (List.length rest) Heq); lia. }
    destruct (c =? ch "[")%N.
    { apply (JSONArray_stable _ (scan_once_length fuel) _ (List.length rest) Heq); lia. }
    reflexivity.
Qed.

(** [json.loads] gives its scanner more fuel than the text is long:
    giving it still more would change nothing. *)
Lemma loads_enough_fuel (s : pystr) (fuel : nat) :
  (List.length s < fuel)%nat ->
  Json.scan_once fuel (Json.skip_ws s)
  = Json.scan_once (S (List.length s)) (Json.skip_ws s).
Proof.
  intros H. pose proof (skip_ws_length s).
  apply (scan_once_stable (List.length s)); lia.
Qed.

End ScannerFuel.

(* ------------------------------------------------------------------------- *)
(** ** The JSON codec on lists of strings *)
(* ------------------------------------------------------------------------- *)

Section HexDigits.

Local Open Scope N_scope.

Lemma hex_value_hex_digit (d : N) :
  d < 16 -> Json.hex_value (Json.hex_digit d) = Some d.
Proof.
  intros Hd. unfold Json.hex_digit, Json.hex_value.
  destruct (N.ltb_spec d 10).
  - replace ((48 <=? 48 + d) && (48 + d <=? 57))%bool with true.
    + f_equal. lia.
    + symmetry. apply andb_true_intro. split; apply N.leb_le; lia.
  - replace ((48 <=? 87 + d) && (87 + d <=? 57))%bool with false.
    replace ((65 <=? 87 + d) && (87 + d <=? 70))%bool with false.
    replace ((97 <=? 87 + d) && (87 + d <=? 102))%bool with true.
    + f_equal. lia.
    + symmetry. apply andb_true_intro. split; apply N.leb_le; lia.
    + symmetry. apply andb_false_intro2. apply N.leb_gt. lia.
    + symmetry. apply andb_false_intro2. apply N.leb_gt. lia.
Qed.

Lemma land_15 (n : N) : N.land n 15 = n mod 16.
Proof. change 15 with (N.ones 4). rewrite N.land_ones. reflexivity. Qed.

Lemma land_0x3ff (n : N) : N.land n 0x3ff = n mod 1024.
Proof. change 0x3ff with (N.ones 10). rewrite N.land_ones. reflexivity. Qed.

(** Below [2^k] the bits of [y] do not meet those of [x << k]. *)
Lemma lor_shiftl_small (x y k : N) :
  y < 2 ^ k -> N.lor (N.shiftl x k) y = x * 2 ^ k + y.
Proof.
  intros Hy. rewrite <- N.shiftl_mul_pow2.
  assert (H0 : N.land (N.shiftl x k) y = 0).
  { apply N.bits_inj_0. intros i. rewrite N.land_spec.
    destruct (N.lt_ge_cases i k) as [Hi | Hi].
    - rewrite N.shiftl_spec_low by exact Hi. reflexivity.
    - replace (N.testbit y i) with false; [apply andb_false_r | ].
      symmetry. rewrite <- (N.mod_small y (2 ^ k)) by exact Hy.
      apply N.mod_pow2_bits_high. exact Hi. }
  rewrite <- N.lxor_lor by exact H0.
  rewrite N.add_nocarry_lxor by exact H0. reflexivity.
Qed.

Lemma decode_u_escape (n : N) (rest : pystr) :
  n < 0x10000 ->
  exists h1 h2 h3 h4,
    Json.u_escape n ++ rest = ch "\" :: ch "u" :: h1 :: h2 :: h3 :: h4 :: rest
    /\ Json.decode_uXXXX h1 h2 h3 h4 = Some n.
Proof.
  intros Hn. unfold Json.u_escape. do 4 eexists. split; [reflexivity | ].
  unfold Json.decode_uXXXX. rewrite !land_15, !N.shiftr_div_pow2.
  rewrite !hex_value_hex_digit by (apply N.mod_upper_bound; discriminate).
  f_equal.
  change (2 ^ 12) with 4096. change (2 ^ 8) with 256. change (2 ^ 4) with 16.
  pose proof (N.div_mod n 16). pose proof (N.mod_upper_bound n 16).
  pose proof (N.div_mod (n / 16) 16). pose proof (N.mod_upper_bound (n / 16) 16).
  pose proof (N.div_mod (n / 256) 16). pose proof (N.mod_upper_bound (n / 256) 16).
  pose proof (N.div_mod (n / 4096) 16). pose proof (N.mod_upper_bound (n / 4096) 16).
  replace (n / 256) with (n / 16 / 16) in * by (rewrite N.Div0.div_div; reflexivity).
  replace (n / 4096) with (n / 16 / 16 / 16) in * by (rewrite !N.Div0.div_div; reflexivity).
  assert (n / 16 / 16 / 16 / 16 = 0).
  { rewrite !N.Div0.div_div. apply N.div_small. exact Hn. }
  lia.
Qed.


(** The surrogate pair of a code point past the basic plane. *)
Lemma surrogate_pair (c : N) :
  0x10000 <= c -> c <= 0x10FFFF ->
  let n := c - 0x10000 in
  let s1 := N.lor 0xd800 (N.land (N.shiftr n 10) 0x3ff) in
  let s2 := N.lor 0xdc00 (N.land n 0x3ff) in
  Json.is_high_surrogate s1 = true
  /\ Json.is_low_surrogate s2 = true
  /\ Json.join_surrogates s1 s2 = c.
Proof.
  intros Hlo Hhi n s1 s2.
  assert (Hn : n < 1024 * 1024) by (unfold n; lia).
  assert (H1 : s1 = 0xd800 + n / 1024).
  { unfold s1. rewrite land_0x3ff, N.shiftr_div_pow2.
    change 0xd800 with (N.shiftl 54 10).
    rewrite lor_shiftl_small by (apply N.mod_upper_bound; discriminate).
    change (2 ^ 10) with 1024. rewrite N.mod_small; [reflexivity | ].
    apply N.Div0.div_lt_upper_bound. exact Hn. }
  assert (H2 : s2 = 0xdc00 + n mod 1024).
  { unfold s2. rewrite land_0x3ff.
    change 0xdc00 with (N.shiftl 55 10).
    rewrite lor_shiftl_small by (apply N.mod_upper_bound; discriminate).
    reflexivity. }
  pose proof (N.mod_upper_bound n 1024 ltac:(discriminate)) as Hm.
  assert (Hd : n / 1024 < 1024) by (apply N.Div0.div_lt_upper_bound; exact Hn).
  pose proof (N.div_mod n 1024 ltac:(discriminate)) as Hdm.
  assert (Hc : c = n + 0x10000) by (unfold n; lia).
  clearbody n s1 s2.
  remember (n / 1024) as q eqn:Eq. remember (n mod 1024) as r eqn:Er.
  clear Eq Er.
  split; [ | split].
  - unfold Json.is_high_surrogate. apply andb_true_intro.
    split; apply N.leb_le; lia.
  - unfold Json.is_low_surrogate. apply andb_true_intro.
    split; apply N.leb_le; lia.
  - unfold Json.join_surrogates.
    replace (s1 - 0xd800) with q by lia.
    replace (s2 - 0xdc00) with r by lia.
    rewrite lor_shiftl_small by exact Hm.
    change (2 ^ 10) with 1024. lia.
Qed.

End HexDigits.

Section ScanString.

Local Open Scope N_scope.

Lemma scanstring_quote (rest chunks : pystr) :
  Json.scanstring (dquote :: rest) chunks = Some (rev chunks, rest).
Proof. reflexivity. Qed.

Lemma scanstring_plain (c : char) (rest chunks : pystr) :
  32 <= c -> c <> 34 -> c <> 92 ->
  Json.scanstring (c :: rest) chunks = Json.scanstring rest (c :: chunks).
Proof.
  intros H32 H34 H92. cbn [Json.scanstring].
  change dquote with 34. change (ch "\") with 92.
  apply N.eqb_neq in H34, H92. rewrite H34, H92.
  replace (c <? 32) with false; [reflexivity | ].
  symmetry. apply N.ltb_ge. exact H32.
Qed.

Lemma scanstring_short (e c : char) (rest chunks : pystr) :
  Json.backslash e = Some c -> e <> 117 ->
  Json.scanstring (92 :: e :: rest) chunks = Json.scanstring rest (c :: chunks).
Proof.
  intros Hb He. cbn [Json.scanstring].
  change (92 =? dquote) with false. change (92 =? ch "\") with true. cbv iota.
  change (ch "u") with 117. apply N.eqb_neq in He. rewrite He, Hb. reflexivity.
Qed.

Lemma scanstring_u (uni h1 h2 h3 h4 : char) (rest chunks : pystr) :
  Json.decode_uXXXX h1 h2 h3 h4 = Some uni ->
  Json.is_high_surrogate uni = false \/ lookahead_clear rest = true ->
  Json.scanstring (92 :: 117 :: h1 :: h2 :: h3 :: h4 :: rest) chunks
  = Json.scanstring rest (uni :: chunks).
Proof.
  intros Hd H. cbn [Json.scanstring].
  change (92 =? dquote) with false. change (92 =? ch "\") with true.
  change (117 =? ch "u") with true. cbv iota. rewrite Hd.
  destruct (Json.is_high_surrogate uni); [ | reflexivity].
  destruct H as [H | H]; [discriminate | ].
  unfold lookahead_clear in H. change (ch "\") with 92. change (ch "u") with 117.
  destruct rest as [ | b [ | u r2]]; try reflexivity.
  destruct (b =? 92); [ | reflexivity].
  destruct (u =? 117); [ | reflexivity]. cbn [andb].
  destruct r2 as [ | g1 [ | g2 [ | g3 [ | g4 r3]]]]; try discriminate.
  destruct (Json.decode_uXXXX g1 g2 g3 g4) as [uni2 | ]; [ | discriminate].
  destruct (Json.is_low_surrogate uni2); [discriminate | reflexivity].
Qed.

Lemma scanstring_pair (s1 s2 h1 h2 h3 h4 g1 g2 g3 g4 : char) (rest chunks : pystr) :
  Json.decode_uXXXX h1 h2 h3 h4 = Some s1 ->
  Json.decode_uXXXX g1 g2 g3 g4 = Some s2 ->
  Json.is_high_surrogate s1 = true ->
  Json.is_low_surrogate s2 = true ->
  Json.scanstring
    (92 :: 117 :: h1 :: h2 :: h3 :: h4 :: 92 :: 117 :: g1 :: g2 :: g3 :: g4 :: rest)
    chunks
  = Json.scanstring rest (Json.join_surrogates s1 s2 :: chunks).
Proof.
  intros Hd1 Hd2 Hh Hl. cbn [Json.scanstring].
  change (92 =? dquote) with false. change (92 =? ch "\") with true.
  change (117 =? ch "u") with true. cbv iota. rewrite Hd1, Hh.
  cbn [andb]. cbv iota. rewrite Hd2, Hl. reflexivity.
Qed.

End ScanString.

Section RoundTrip.

Local Open Scope N_scope.

Lemma escape_char_shape (c : char) :
  c <= max_code_point -> escape_shape c (Json.escape_char c).
Proof.
  intros Hc. unfold Json.escape_char.
  change dquote with 34. change (ch "\") with 92.
  destruct (N.eqb_spec c 34) as [-> | H34].
  { apply shape_short; [reflexivity | discriminate]. }
  destruct (N.eqb_spec c 92) as [-> | H92].
  { apply shape_short; [reflexivity | discriminate]. }
  destruct (N.eqb_spec c 10) as [-> | H10].
  { apply shape_short; [reflexivity | discriminate]. }
  destruct (N.eqb_spec c 13) as [-> | H13].
  { apply shape_short; [reflexivity | discriminate]. }
  destruct (N.eqb_spec c 9) as [-> | H9].
  { apply shape_short; [reflexivity | discriminate]. }
  destruct (N.eqb_spec c 8) as [-> | H8].
  { apply shape_short; [reflexivity | discriminate]. }
  destruct (N.eqb_spec c 12) as [-> | H12].
  { apply shape_short; [reflexivity | discriminate]. }
  destruct (N.leb_spec 32 c) as [H32 | H32]; cbn [andb].
  - destruct (N.leb_spec c 126) as [H126 | H126].
    { apply shape_plain; assumption. }
    destruct (N.ltb_spec c 0x10000) as [Hb | Hb].
    + destruct (decode_u_escape c [] Hb) as (h1 & h2 & h3 & h4 & E & D).
      rewrite app_nil_r in E. rewrite E. apply shape_u. exact D.
    + destruct (surrogate_pair c Hb Hc) as (Hh & Hl & Hj).
      set (s1 := N.lor 0xd800 _) in *. set (s2 := N.lor 0xdc00 _) in *.
      assert (B1 : s1 < 0x10000).
      { unfold Json.is_high_surrogate in Hh. apply andb_prop in Hh.
        destruct Hh as [_ Hh]. apply N.leb_le in Hh. lia. }
      assert (B2 : s2 < 0x10000).
      { unfold Json.is_low_surrogate in Hl. apply andb_prop in Hl.
        destruct Hl as [_ Hl]. apply N.leb_le in Hl. lia. }
      destruct (decode_u_escape s1 [] B1) as (h1 & h2 & h3 & h4 & E1 & D1).
      destruct (decode_u_escape s2 [] B2) as (g1 & g2 & g3 & g4 & E2 & D2).
      rewrite app_nil_r in E1, E2. rewrite E1, E2.
      apply (shape_pair c s1 s2); assumption.
  - assert (Hb : c < 0x10000) by lia.
    apply N.ltb_lt in Hb. rewrite Hb. apply N.ltb_lt in Hb.
    destruct (decode_u_escape c [] Hb) as (h1 & h2 & h3 & h4 & E & D).
    rewrite app_nil_r in E. rewrite E. apply shape_u. exact D.
Qed.

Lemma lookahead_clear_shape (c : char) (e rest : pystr) :
  escape_shape c e -> Json.is_low_surrogate c = false ->
  lookahead_clear (e ++ rest) = true.
Proof.
  intros He Hl. destruct He as [e He Hne | H32 H34 H92 | h1 h2 h3 h4 D
                                | s1 s2 h1 h2 h3 h4 g1 g2 g3 g4 D1 D2 Hh1 Hl2 Hj];
    cbn [app lookahead_clear].
  - apply N.eqb_neq in Hne. rewrite Hne. reflexivity.
  - apply N.eqb_neq in H92. rewrite H92. reflexivity.
  - cbn. rewrite D, Hl. reflexivity.
  - cbn. rewrite D1.
    unfold Json.is_high_surrogate in Hh1. unfold Json.is_low_surrogate.
    apply andb_prop in Hh1. destruct Hh1 as [_ Hh1]. apply N.leb_le in Hh1.
    replace (0xdc00 <=? s1) with false; [reflexivity | ].
    symmetry. apply N.leb_gt. lia.
Qed.

Lemma scanstring_shape (c : char) (e rest chunks : pystr) :
  escape_shape c e ->
  Json.is_high_surrogate c = false \/ lookahead_clear rest = true ->
  Json.scanstring (e ++ rest) chunks = Json.scanstring rest (c :: chunks).
Proof.
  intros He Hl. destruct He as [e He Hne | H32 H34 H92 | h1 h2 h3 h4 D
                                | s1 s2 h1 h2 h3 h4 g1 g2 g3 g4 D1 D2 Hh1 Hl2 Hj];
    cbn [app].
  - apply scanstring_short; assumption.
  - apply scanstring_plain; assumption.
  - apply scanstring_u; assumption.
  - rewrite <- Hj. apply scanstring_pair; assumption.
Qed.

(** Scanning the escaped form of a string gives the string back. *)
Lemma scanstring_escape (s : pystr) :
  json_safe s = true ->
  forall rest chunks,
    Json.scanstring (Json.escape s ++ dquote :: rest) chunks
    = Some (rev chunks ++ s, rest).
Proof.
  unfold json_safe. intros H. apply andb_prop in H. destruct H as [Hwf Hns].
  induction s as [ | c s IH]; intros rest chunks.
  - cbn [Json.escape app]. rewrite scanstring_quote, app_nil_r. reflexivity.
  - cbn [well_formed forallb] in Hwf. apply andb_prop in Hwf.
    destruct Hwf as [Hc Hwf]. apply N.leb_le in Hc.
    cbn [no_joined_surrogates] in Hns. apply andb_prop in Hns.
    destruct Hns as [Hpair Hns].
    cbn [Json.escape]. rewrite <- app_assoc.
    rewrite (scanstring_shape c _ _ chunks (escape_char_shape c Hc)).
    + rewrite (IH Hwf Hns). cbn [rev]. rewrite <- app_assoc. reflexivity.
    + destruct (Json.is_high_surrogate c); [right | left; reflexivity].
      destruct s as [ | c' s']; [reflexivity | ].
      cbn [andb negb] in Hpair. apply negb_true_iff in Hpair.
      cbn [well_formed forallb] in Hwf. apply andb_prop in Hwf.
      destruct Hwf as [Hc' _]. apply N.leb_le in Hc'.
      cbn [Json.escape]. rewrite <- app_assoc.
      apply lookahead_clear_shape with (c := c'); auto.
      apply escape_char_shape. exact Hc'.
Qed.

End RoundTrip.

Section RoundTripList.

Local Open Scope N_scope.

Lemma skip_ws_stop (c : char) (s : pystr) :
  Json.is_ws c = false -> Json.skip_ws (c :: s) = c :: s.
Proof. intros H. cbn. rewrite H. reflexivity. Qed.

(** One string, wherever the scanner has fuel left. *)
Lemma scan_once_string (fuel : nat) (s rest : pystr) :
  json_safe s = true ->
  Json.scan_once (S fuel) (Json.encode_string s ++ rest) = Some (PStr s, rest).
Proof.
  intros Hs. unfold Json.encode_string. cbn [app Json.scan_once].
  change (dquote =? dquote) with true. cbv iota.
  rewrite <- app_assoc. cbn [app].
  rewrite (scanstring_escape s Hs). reflexivity.
Qed.

Lemma encode_items_cons (s : pystr) (items : list pystr) :
  Json.encode_items (s :: items)
  = Json.encode_string s
      ++ match items with
         | [] => []
         | _ :: _ => ch "," :: ch " " :: Json.encode_items items
         end.
Proof. destruct items; cbn [Json.encode_items]; [rewrite app_nil_r | ]; reflexivity. Qed.

Lemma encode_items_starts_with_quote (s : pystr) (items : list pystr) (rest : pystr) :
  exists r, Json.encode_items (s :: items) ++ rest = dquote :: r.
Proof. rewrite encode_items_cons. unfold Json.encode_string. cbn. eauto. Qed.

(** The loop of the array decoder on the items as [dumps] writes them. *)
Lemma JSONArray_loop_items (fuel : nat) (items : list pystr) :
  Forall (fun s => json_safe s = true) items ->
  forall (n : nat) (s : pystr) (rest : pystr) (values : list pyval),
    json_safe s = true ->
    (List.length items < n)%nat ->
    Json.JSONArray_loop (Json.scan_once (S fuel)) n
      (Json.encode_items (s :: items) ++ ch "]" :: rest) values
    = Some (PList (rev values ++ map PStr (s :: items)), rest).
Proof.
  induction 1 as [ | s' items Hs' HF IH]; intros n s rest values Hs Hn.
  - destruct n as [ | n]; [cbn in Hn; lia | ].
    cbn [Json.JSONArray_loop Json.encode_items].
    rewrite scan_once_string by exact Hs.
    rewrite skip_ws_stop by reflexivity.
    change (ch "]" =? ch "]") with true. cbv iota. reflexivity.
  - destruct n as [ | n]; [cbn in Hn; lia | ].
    rewrite encode_items_cons. rewrite <- app_assoc.
    cbn [Json.JSONArray_loop].
    rewrite scan_once_string by exact Hs.
    cbn [app]. rewrite skip_ws_stop by reflexivity.
    change (ch "," =? ch "]") with false. change (ch "," =? ch ",") with true.
    cbv iota.
    destruct (encode_items_starts_with_quote s' items (ch "]" :: rest)) as [r Er].
    assert (Ews : Json.skip_ws (ch " " :: Json.encode_items (s' :: items) ++ ch "]" :: rest)
                  = Json.encode_items (s' :: items) ++ ch "]" :: rest).
    { cbn [Json.skip_ws]. change (Json.is_ws (ch " ")) with true. cbv iota.
      rewrite Er. apply skip_ws_stop. reflexivity. }
    rewrite Ews. rewrite IH by (auto; cbn in Hn; lia).
    cbn [rev map]. rewrite <- app_assoc. reflexivity.
Qed.

Lemma encode_items_length (items : list pystr) :
  (List.length items <= List.length (Json.encode_items items))%nat.
Proof.
  induction items as [ | s items IH]; [cbn; lia | ].
  rewrite encode_items_cons. unfold Json.encode_string.
  destruct items as [ | s' items'].
  - cbn. lia.
  - rewrite length_app. cbn [List.length] in *. lia.
Qed.

Lemma scan_once_array (fuel : nat) (rest : pystr) :
  Json.scan_once (S fuel) (ch "[" :: rest)
  = Json.JSONArray (Json.scan_once fuel) fuel rest.
Proof. reflexivity. Qed.

Lemma JSONArray_items (fuel n : nat) (items : list pystr) :
  Forall (fun s => json_safe s = true) items ->
  (List.length items <= n)%nat ->
  Json.JSONArray (Json.scan_once (S fuel)) n (Json.encode_items items ++ [ch "]"])
  = Some (str_list items, []).
Proof.
  intros HF Hn. unfold Json.JSONArray.
  destruct HF as [ | s items Hs HF].
  - reflexivity.
  - destruct (encode_items_starts_with_quote s items [ch "]"]) as [r Er].
    rewrite Er. rewrite skip_ws_stop by reflexivity.
    change (dquote =? ch "]") with false. cbv iota.
    rewrite <- Er.
    rewrite JSONArray_loop_items; [reflexivity | assumption | assumption | ].
    cbn [List.length] in Hn. lia.
Qed.

(** [json.loads(json.dumps(items)) == items] *)
Lemma loads_dumps (items : list pystr) :
  Forall (fun s => json_safe s = true) items ->
  Json.loads (Json.dumps items) = Some (str_list items).
Proof.
  intros HF. unfold Json.loads, Json.dumps.
  rewrite skip_ws_stop by reflexivity.
  cbn [List.length]. rewrite length_app. cbn [List.length].
  rewrite Nat.add_1_r, scan_once_array.
  rewrite JSONArray_items; [reflexivity | assumption | ].
  pose proof (encode_items_length items). lia.
Qed.

Lemma strip_dumps (items : list pystr) :
  strip (Json.dumps items) = Json.dumps items.
Proof.
  unfold strip, rstrip.
  change (lstrip (Json.dumps items)) with (Json.dumps items).
  unfold Json.dumps. rewrite app_comm_cons.
  set (body := ch "[" :: Json.encode_items items).
  rewrite rev_app_distr.
  change (lstrip (rev [ch "]"] ++ rev body)) with (ch "]" :: rev body).
  change (rev (ch "]" :: rev body)) with (rev (rev body) ++ [ch "]"]).
  rewrite rev_involutive. reflexivity.
Qed.

(** Decoding what [serialize_list] wrote gives the list back. *)
Lemma deserialize_serialize (items : list pystr) :
  Forall (fun s => json_safe s = true) items ->
  deserialize_list (PStr (serialize_list (Some items))) = str_list items.
Proof.
  intros HF. unfold deserialize_list, serialize_list.
  rewrite strip_dumps, (loads_dumps items HF). reflexivity.
Qed.

End RoundTripList.

(* ------------------------------------------------------------------------- *)
(** ** The scorer *)
(* ------------------------------------------------------------------------- *)

(** C1.  On the campaign and the designer of the specification's
    scenario the scorer returns 99.0 when the designer's rate is 400 and
    79.0 when it is 600. *)
Theorem scenario_scores :
  calculate_match_score Scenario.campaign (Scenario.designer_with_rate 400)
    = Ok (of_Z 99)
  /\ calculate_match_score Scenario.campaign (Scenario.designer_with_rate 600)
    = Ok (of_Z 79).
Proof. split; vm_compute; reflexivity. Qed.

(** The six additions are exact. *)
Lemma add_if_chain (b1 b2 b3 b4 b5 b6 : bool) :
  add_if b6 (of_Z 10) (add_if b5 (of_Z 15) (add_if b4 (of_Z 15)
    (add_if b3 (of_Z 15) (add_if b2 (of_Z 20) (add_if b1 (of_Z 20) (of_Z 0))))))
  = of_Z (weights_total b1 b2 b3 b4 b5 b6).
Proof. destruct b1, b2, b3, b4, b5, b6; vm_compute; reflexivity. Qed.

Lemma weights_total_nonneg (b1 b2 b3 b4 b5 b6 : bool) :
  is_nonneg (of_Z (weights_total b1 b2 b3 b4 b5 b6)).
Proof. destruct b1, b2, b3, b4, b5, b6; vm_compute; auto. Qed.

Lemma py_in_str_list (x : pystr) (v : pyval) :
  is_str_list v = true -> exists b, py_in x v = Ok b.
Proof. destruct v; cbn; intros H; try discriminate; eauto. Qed.

Lemma wanted_in_str_list (w : option pystr) (v : pyval) :
  is_str_list v = true -> exists b, wanted_in w v = Ok b.
Proof.
  intros H. destruct w as [w | ]; cbn; eauto.
  destruct (Str.truthy w); eauto using py_in_str_list.
Qed.

(** The score is the score of the six criteria with the performance
    term added. *)
Lemma calculate_match_score_eq (c : Campaign) (d : Designer) :
  calculate_match_score c d
  = (score <- criteria_score c d ;; Ok (add_performance d score)).
Proof.
  unfold calculate_match_score, criteria_score.
  destruct (wanted_in (ambiance c) _); [ | reflexivity]. cbn [bind].
  destruct (wanted_in (platform_pref c) _); [ | reflexivity]. cbn [bind].
  destruct (wanted_in (style c) _); reflexivity.
Qed.

(** On a well-typed designer the criteria never raise, and their score
    is the sum of the weights of those that pass. *)
Lemma criteria_score_well_typed (c : Campaign) (d : Designer) :
  well_typed d = true ->
  exists b2 b3 b5,
    wanted_in (ambiance c) (deserialize_list (scene_tags d)) = Ok b2
    /\ wanted_in (platform_pref c) (deserialize_list (export_formats d)) = Ok b3
    /\ wanted_in (style c) (deserialize_list (visual_metadata d)) = Ok b5
    /\ criteria_score c d
       = Ok (of_Z (weights_total (budget_ok c d) b2 b3 (interactivity_ok c d) b5
                     (timeline_ok c d))).
Proof.
  unfold well_typed. intros H.
  apply andb_prop in H. destruct H as [H H3].
  apply andb_prop in H. destruct H as [H1 H2].
  destruct (wanted_in_str_list (ambiance c) _ H1) as [b2 E2].
  destruct (wanted_in_str_list (platform_pref c) _ H2) as [b3 E3].
  destruct (wanted_in_str_list (style c) _ H3) as [b5 E5].
  exists b2, b3, b5. repeat split; auto.
  unfold criteria_score. rewrite E2. cbn [bind]. rewrite E3. cbn [bind].
  rewrite E5. cbn [bind]. rewrite add_if_chain. reflexivity.
Qed.

Lemma add_performance_nonneg (d : Designer) (s : float) :
  nonneg_performance d = true -> is_nonneg s -> is_nonneg (add_performance d s).
Proof.
  unfold nonneg_performance, add_performance. intros Hp Hs.
  destruct (performance_score d) as [p | ]; auto.
  destruct (Float64.truthy p); auto.
  apply add_nonneg; auto.
  apply nonneg_spec in Hp.
  change (of_Z 5) with (S754_finite false 5629499534213120 (-50)).
  apply mul_finite_nonneg. exact Hp.
Qed.

(** C2, as stated, fails: a negative performance score is a float like
    any other, and with no criterion met the score is five times it. *)
Lemma negative_performance_negative_score :
  well_typed (unmatched_designer (Some (of_Z (-1)))) = true
  /\ calculate_match_score Scenario.campaign (unmatched_designer (Some (of_Z (-1))))
     = Ok (of_Z (-5))
  /\ Float64.geb (of_Z (-5)) (of_Z 0) = false.
Proof. repeat split; vm_compute; reflexivity. Qed.

(** C2, amended.  For every campaign and every designer whose list
    attributes are lists of strings and whose performance score is
    absent, zero or positive, the scorer returns a score, and the score
    is [>= 0]. *)
Theorem score_nonneg (c : Campaign) (d : Designer) :
  well_typed d = true ->
  nonneg_performance d = true ->
  exists s, calculate_match_score c d = Ok s /\ Float64.geb s (of_Z 0) = true.
Proof.
  intros Hd Hp.
  destruct (criteria_score_well_typed c d Hd) as (b2 & b3 & b5 & _ & _ & _ & E).
  rewrite calculate_match_score_eq, E. cbn [bind].
  eexists. split; [reflexivity | ].
  apply nonneg_spec. apply add_performance_nonneg; auto.
  apply weights_total_nonneg.
Qed.

Lemma score_nonneg_witness :
  exists s,
    calculate_match_score Scenario.campaign (Scenario.designer_with_rate 400) = Ok s
    /\ Float64.geb s (of_Z 0) = true.
Proof.
  apply (score_nonneg Scenario.campaign (Scenario.designer_with_rate 400));
    vm_compute; reflexivity.
Defined.

(** C10.  A designer whose performance score is 0.0 and the same
    designer with no performance score receive the same score from every
    campaign, namely the score of the six criteria: the performance term
    is added only for a truthy (nonzero) performance score. *)
Theorem zero_performance_scores_as_absent (c : Campaign) (d : Designer) (sgn : bool) :
  calculate_match_score c (with_performance d (Some (S754_zero sgn)))
    = calculate_match_score c (with_performance d None)
  /\ calculate_match_score c (with_performance d None) = criteria_score c d
  /\ (forall p s,
        add_performance (with_performance d (Some p)) s
        = if Float64.truthy p then Float64.add s (Float64.mul p (of_Z 5)) else s)
  /\ (forall s, add_performance (with_performance d None) s = s).
Proof.
  split; [ | split; [ | split]].
  - reflexivity.
  - rewrite calculate_match_score_eq.
    change (criteria_score c (with_performance d None)) with (criteria_score c d).
    destruct (criteria_score c d); reflexivity.
  - reflexivity.
  - reflexivity.
Qed.

(* ------------------------------------------------------------------------- *)
(** ** Raising the rate above the budget *)
(* ------------------------------------------------------------------------- *)

(** C9, as stated, fails: the scores are floats, and a performance term
    of [5 * 2^60] absorbs the 95 points of the affordable designer as it
    absorbs the 75 points of the unaffordable one.  The rate goes from
    400, within the budget of 500, to 600, above it, and the total stays
    where it was. *)
Lemma large_performance_absorbs_budget :
  Float64.geb (budget Scenario.campaign) (of_Z 400) = true
  /\ Float64.ltb (budget Scenario.campaign) (of_Z 600) = true
  /\ calculate_match_score Scenario.campaign
       (with_performance (Scenario.designer_with_rate 400) (Some (of_Z (2 ^ 60))))
     = Ok (of_Z (5 * 2 ^ 60))
  /\ calculate_match_score Scenario.campaign
       (with_performance (Scenario.designer_with_rate 600) (Some (of_Z (2 ^ 60))))
     = Ok (of_Z (5 * 2 ^ 60)).
Proof. repeat split; vm_compute; reflexivity. Qed.

Lemma ltb_not_geb (a b : float) :
  Float64.ltb a b = true -> Float64.geb a b = false.
Proof.
  unfold Float64.ltb, Float64.geb, SFltb, SFleb.
  rewrite (SFcompare_antisym a b).
  destruct (SFcompare a b) as [[ | | ] | ]; cbn; congruence.
Qed.

(** The sums of weights with and without the budget criterion, as
    floats. *)
Lemma budget_weight (b2 b3 b4 b5 b6 : bool) :
  let k := weights_total false b2 b3 b4 b5 b6 in
  weights_total true b2 b3 b4 b5 b6 = (k + 20)%Z
  /\ Float64.valid (of_Z k) = true
  /\ Float64.valid (of_Z (k + 20)) = true
  /\ finite_or_zero (of_Z k) = true
  /\ finite_or_zero (of_Z (k + 20)) = true
  /\ (units (of_Z k) <= units (of_Z (k + 20)))%Z
  /\ Float64.ltb (of_Z (k + 20)) (of_Z k) = false.
Proof.
  destruct b2, b3, b4, b5, b6; cbv zeta;
    repeat (split; [vm_compute; reflexivity | ]);
    (split; [apply Z.leb_le; vm_compute; reflexivity | vm_compute; reflexivity]).
Qed.

(** C9, amended.  For every campaign and every designer with list
    attributes that are lists of strings, changing only the rate from a
    value [<=] the budget to a value [>] the budget lowers the budget
    criterion's contribution from exactly 20 to 0, lowers the score of
    the six criteria by exactly 20, and cannot increase the total; the
    total is lower by exactly 20 when no performance term is added. *)
Theorem raising_rate_tier (c : Campaign) (d : Designer) (r1 r2 : float) :
  well_typed d = true ->
  performance_valid d = true ->
  Float64.geb (budget c) r1 = true ->
  Float64.ltb (budget c) r2 = true ->
  let d1 := with_rate_tier d (Some r1) in
  let d2 := with_rate_tier d (Some r2) in
  add_if (budget_ok c d1) (of_Z 20) (of_Z 0) = of_Z 20
  /\ add_if (budget_ok c d2) (of_Z 20) (of_Z 0) = of_Z 0
  /\ exists k t1 t2,
       criteria_score c d1 = Ok (of_Z (k + 20))
       /\ criteria_score c d2 = Ok (of_Z k)
       /\ calculate_match_score c d1 = Ok t1
       /\ calculate_match_score c d2 = Ok t2
       /\ Float64.ltb t1 t2 = false
       /\ (has_performance d = false -> t1 = of_Z (k + 20) /\ t2 = of_Z k).
Proof.
  intros Hd Hp H1 H2 d1 d2.
  assert (B1 : budget_ok c d1 = true) by exact H1.
  assert (B2 : budget_ok c d2 = false) by exact (ltb_not_geb _ _ H2).
  rewrite B1, B2. split; [reflexivity | ]. split; [reflexivity | ].
  destruct (criteria_score_well_typed c d1 Hd) as (b2 & b3 & b5 & W2 & W3 & W5 & E1).
  destruct (criteria_score_well_typed c d2 Hd) as (b2' & b3' & b5' & W2' & W3' & W5' & E2).
  change (scene_tags d2) with (scene_tags d1) in W2'.
  change (export_formats d2) with (export_formats d1) in W3'.
  change (visual_metadata d2) with (visual_metadata d1) in W5'.
  rewrite W2 in W2'. rewrite W3 in W3'. rewrite W5 in W5'.
  injection W2' as <-. injection W3' as <-. injection W5' as <-.
  rewrite B1 in E1. rewrite B2 in E2.
  change (interactivity_ok c d2) with (interactivity_ok c d1) in E2.
  change (timeline_ok c d2) with (timeline_ok c d1) in E2.
  destruct (budget_weight b2 b3 (interactivity_ok c d1) b5 (timeline_ok c d1))
    as (Hk & Va & Vb & Fa & Fb & Hu & Hlt).
  set (k := weights_total false b2 b3 (interactivity_ok c d1) b5 (timeline_ok c d1)) in *.
  rewrite Hk in E1.
  exists k, (add_performance d (of_Z (k + 20))), (add_performance d (of_Z k)).
  split; [exact E1 | ]. split; [exact E2 | ].
  rewrite !calculate_match_score_eq, E1, E2. cbn [bind].
  split; [reflexivity | ]. split; [reflexivity | ].
  unfold has_performance, add_performance, performance_valid in *.
  destruct (performance_score d) as [p | ]; [ | auto].
  destruct (Float64.truthy p); [ | auto].
  split; [ | discriminate].
  apply add_monotone; auto.
  apply mul_valid; [exact Hp | reflexivity].
Qed.

Lemma raising_rate_tier_witness :
  add_if (budget_ok Scenario.campaign
            (with_rate_tier (Scenario.designer_with_rate 400) (Some (of_Z 400))))
    (of_Z 20) (of_Z 0) = of_Z 20
  /\ add_if (budget_ok Scenario.campaign
               (with_rate_tier (Scenario.designer_with_rate 400) (Some (of_Z 600))))
       (of_Z 20) (of_Z 0) = of_Z 0.
Proof.
  pose proof (raising_rate_tier Scenario.campaign (Scenario.designer_with_rate 400)
                (of_Z 400) (of_Z 600)) as H.
  cbv zeta in H.
  destruct H as (Ha & Hb & _); try (vm_compute; reflexivity).
  split; assumption.
Defined.

(* ------------------------------------------------------------------------- *)
(** ** The list codec *)
(* ------------------------------------------------------------------------- *)

(** [deserialize_list] is a function: it returns on every input.  What
    it returns on each shape of input: *)

Lemma deserialize_list_list (items : list pyval) :
  deserialize_list (PList items) = PList items.
Proof. reflexivity. Qed.

Lemma deserialize_list_none : deserialize_list PNone = PList [].
Proof. reflexivity. Qed.

Lemma deserialize_list_blank (s : pystr) :
  strip s = [] -> deserialize_list (PStr s) = PList [].
Proof. intros H. cbn. rewrite H. reflexivity. Qed.

Lemma deserialize_list_undecodable (s : pystr) :
  Json.loads (strip s) = None -> deserialize_list (PStr s) = PList [].
Proof. intros H. cbn. rewrite H. destruct (Str.truthy (strip s)); reflexivity. Qed.

Lemma deserialize_list_decoded (s : pystr) (v : pyval) :
  Json.loads (strip s) = Some v -> strip s <> [] -> deserialize_list (PStr s) = v.
Proof.
  intros H Hne. cbn. rewrite H.
  destruct (strip s); [congruence | reflexivity].
Qed.

Lemma deserialize_list_other (v : pyval) :
  is_list v = false -> (forall s, v <> PStr s) -> deserialize_list v = PList [].
Proof.
  destruct v; cbn; intros Hl Hs; try congruence.
  exfalso. eapply Hs. reflexivity.
Qed.

(** Whenever the result is a list, a second pass leaves it as it is. *)
Lemma deserialize_list_idempotent_on_lists (v : pyval) :
  is_list (deserialize_list v) = true ->
  deserialize_list (deserialize_list v) = deserialize_list v.
Proof. destruct (deserialize_list v); cbn; intros H; congruence. Qed.

(** The result is a list unless the input is a text that decodes to a
    JSON value other than an array. *)
Lemma deserialize_list_is_list (v : pyval) :
  is_list (deserialize_list v) = true
  \/ exists s w, v = PStr s /\ Json.loads (strip s) = Some w
                 /\ is_list w = false /\ deserialize_list v = w.
Proof.
  destruct v as [ | b | z | f | s | items | pairs]; cbn; auto.
  destruct (Str.truthy (strip s)); cbn; auto.
  destruct (Json.loads (strip s)) as [w | ] eqn:E; cbn; auto.
  destruct (is_list w) eqn:Ew; auto.
  right. exists s, w. auto.
Qed.

(** C3.  The text [5] is valid JSON, so decoding succeeds and the
    decoded integer is returned as it is: the result is not a sequence of
    strings, and the scorer cannot test membership in it. *)
Theorem deserialize_list_scalar_text :
  deserialize_list (PStr (lit "5")) = PInt 5
  /\ is_str_list (PInt 5) = false
  /\ py_in (lit "calm") (deserialize_list (PStr (lit "5"))) = Raise TypeError.
Proof. repeat split. Qed.

(** C4.  On the text [5] a second normalization changes the result:
    the first returns the integer 5, the second the empty list. *)
Theorem deserialize_list_twice_scalar_text :
  deserialize_list (PStr (lit "5")) = PInt 5
  /\ deserialize_list (deserialize_list (PStr (lit "5"))) = PList []
  /\ deserialize_list (deserialize_list (PStr (lit "5")))
     <> deserialize_list (PStr (lit "5")).
Proof. repeat split. discriminate. Qed.

Lemma is_str_list_str_list (l : list pystr) : is_str_list (str_list l) = true.
Proof. induction l as [ | s l IH]; cbn; auto. Qed.

Lemma deserialize_list_str_list (l : list pystr) :
  deserialize_list (str_list l) = str_list l.
Proof. reflexivity. Qed.

(** C5, as stated, fails: a string may hold a high surrogate followed by
    a low one as two characters; [json.dumps] escapes each, [json.loads]
    joins the two escapes into one character, the tag is no longer the
    one the campaign asks for, and the score drops by 20. *)
Lemma joined_surrogates_change_score :
  deserialize_list (PStr (serialize_list (Some [split_pair])))
    = str_list [[0x1F600%N]]
  /\ calculate_match_score pair_campaign
       (native (unmatched_designer None) [split_pair] [] []) = Ok (of_Z 20)
  /\ calculate_match_score pair_campaign
       (stored (unmatched_designer None) [split_pair] [] []) = Ok (of_Z 0).
Proof. repeat split; vm_compute; reflexivity. Qed.

(** C5, amended.  For every designer and every three lists of strings
    in which no high surrogate is immediately followed by a low
    surrogate, the designer whose list attributes are the serialized
    lists normalizes to the same three sequences as the designer whose
    list attributes are the native lists, and both receive the same score
    from every campaign. *)
Theorem serialized_scores_as_native (d : Designer) (tags formats metadata : list pystr) :
  Forall (fun s => json_safe s = true) tags ->
  Forall (fun s => json_safe s = true) formats ->
  Forall (fun s => json_safe s = true) metadata ->
  let n := native d tags formats metadata in
  let s := stored d tags formats metadata in
  deserialize_list (scene_tags s) = deserialize_list (scene_tags n)
  /\ deserialize_list (export_formats s) = deserialize_list (export_formats n)
  /\ deserialize_list (visual_metadata s) = deserialize_list (visual_metadata n)
  /\ deserialize_list (scene_tags n) = str_list tags
  /\ deserialize_list (export_formats n) = str_list formats
  /\ deserialize_list (visual_metadata n) = str_list metadata
  /\ forall c, exists x,
       calculate_match_score c s = Ok x /\ calculate_match_score c n = Ok x.
Proof.
  intros H1 H2 H3 n s.
  assert (E1 : deserialize_list (scene_tags s) = str_list tags)
    by exact (deserialize_serialize tags H1).
  assert (E2 : deserialize_list (export_formats s) = str_list formats)
    by exact (deserialize_serialize formats H2).
  assert (E3 : deserialize_list (visual_metadata s) = str_list metadata)
    by exact (deserialize_serialize metadata H3).
  repeat (split; [assumption || reflexivity | ]).
  intros c.
  assert (Hn : well_typed n = true).
  { unfold well_typed, n, native, with_list_attributes.
    cbn [scene_tags export_formats visual_metadata].
    rewrite !deserialize_list_str_list, !is_str_list_str_list. reflexivity. }
  destruct (criteria_score_well_typed c n Hn) as (b2 & b3 & b5 & _ & _ & _ & E).
  assert (Es : criteria_score c s = criteria_score c n).
  { unfold criteria_score. rewrite E1, E2, E3. reflexivity. }
  rewrite !calculate_match_score_eq, Es, E. cbn [bind].
  eexists. split; reflexivity.
Qed.

Lemma serialized_scores_as_native_witness :
  exists x,
    calculate_match_score Scenario.campaign
      (stored (Scenario.designer_with_rate 400)
         [lit "calm"; lit "vibrant"] [lit "Quest"; lit "WebXR"] [lit "minimalist"])
      = Ok x
    /\ calculate_match_score Scenario.campaign
         (native (Scenario.designer_with_rate 400)
            [lit "calm"; lit "vibrant"] [lit "Quest"; lit "WebXR"] [lit "minimalist"])
       = Ok x.
Proof.
  apply (serialized_scores_as_native (Scenario.designer_with_rate 400)
           [lit "calm"; lit "vibrant"] [lit "Quest"; lit "WebXR"] [lit "minimalist"]);
    repeat constructor.
Defined.

(* ------------------------------------------------------------------------- *)
(** ** The sort: a permutation, ordered, stable *)
(* ------------------------------------------------------------------------- *)

Section SortFacts.

Context {A : Type}.
Variable key : A -> float.

Lemma insert_perm (x : A) (l : list A) :
  Permutation (PySort.insert key x l) (x :: l).
Proof.
  induction l as [ | y l IH]; cbn; auto.
  destruct (Float64.ltb (key y) (key x)); auto.
  rewrite IH. apply perm_swap.
Qed.

Lemma sort_perm (l : list A) : Permutation (PySort.sort key l) l.
Proof.
  induction l as [ | x l IH]; cbn; auto.
  rewrite insert_perm. auto.
Qed.

Lemma sort_reverse_perm (l : list A) :
  Permutation (PySort.sort_reverse key l) l.
Proof.
  unfold PySort.sort_reverse.
  rewrite <- Permutation_rev, sort_perm, <- Permutation_rev. reflexivity.
Qed.

Lemma insert_hd (x y : A) (l : list A) :
  ascending key y x -> HdRel (ascending key) y l -> HdRel (ascending key) y (PySort.insert key x l).
Proof.
  intros Hx Hl. destruct l as [ | z l]; cbn; auto.
  destruct (Float64.ltb (key z) (key x)); constructor; auto.
  inversion Hl; auto.
Qed.

Lemma insert_sorted (x : A) (l : list A) :
  Sorted (ascending key) l -> Sorted (ascending key) (PySort.insert key x l).
Proof.
  induction l as [ | y l IH]; cbn; intros Hs.
  - repeat constructor.
  - inversion Hs as [ | ? ? Hs' Hhd]; subst.
    destruct (Float64.ltb (key y) (key x)) eqn:E.
    + constructor; auto. apply insert_hd; auto.
      unfold ascending. apply ltb_asym. exact E.
    + constructor; auto.
Qed.

Lemma sort_sorted (l : list A) : Sorted (ascending key) (PySort.sort key l).
Proof.
  induction l as [ | x l IH]; cbn.
  - constructor.
  - apply insert_sorted. exact IH.
Qed.

Lemma sorted_snoc (R : A -> A -> Prop) (l : list A) (x : A) :
  Sorted R l -> (forall y, last l x = y -> l <> [] -> R y x) -> Sorted R (l ++ [x]).
Proof.
  induction l as [ | a l IH]; cbn; intros Hs Hlast.
  - repeat constructor.
  - inversion Hs as [ | ? ? Hs' Hhd]; subst.
    constructor.
    + apply IH; auto. intros y Hy Hne. apply Hlast; [ | discriminate].
      destruct l; [congruence | exact Hy].
    + destruct l as [ | b l]; cbn.
      * constructor. apply Hlast; [reflexivity | discriminate].
      * constructor. inversion Hhd; auto.
Qed.

Lemma sorted_rev (R : A -> A -> Prop) (l : list A) :
  Sorted R l -> Sorted (fun a b => R b a) (rev l).
Proof.
  induction l as [ | a l IH]; cbn; intros Hs.
  - constructor.
  - inversion Hs as [ | ? ? Hs' Hhd]; subst.
    apply sorted_snoc; auto.
    intros y Hy Hne.
    destruct l as [ | b l]; [cbn in Hne; congruence | ].
    inversion Hhd; subst.
    cbn [rev]. rewrite last_last. assumption.
Qed.

Lemma sort_reverse_sorted (l : list A) :
  Sorted (descending key) (PySort.sort_reverse key l).
Proof.
  unfold PySort.sort_reverse.
  apply (sorted_rev (ascending key)). apply sort_sorted.
Qed.

(** Stability: the elements with a given key keep their order. *)
Lemma insert_with_key (k : float) (x : A) (l : list A) :
  with_key key k (PySort.insert key x l) = with_key key k (x :: l).
Proof.
  induction l as [ | y l IH]; auto.
  cbn [PySort.insert].
  destruct (Float64.ltb (key y) (key x)) eqn:E; auto.
  unfold with_key in *. cbn [filter] in *. rewrite IH.
  destruct (Float64.eqb (key x) k) eqn:Ex; auto.
  destruct (Float64.eqb (key y) k) eqn:Ey; auto.
  exfalso. unfold Float64.ltb, SFltb in E.
  rewrite (eqb_compare_compat (key x) k (key y) Ex) in E.
  unfold Float64.eqb, SFeqb in Ey.
  destruct (SFcompare (key y) k) as [[ | | ] | ]; discriminate.
Qed.

Lemma sort_with_key (k : float) (l : list A) :
  with_key key k (PySort.sort key l) = with_key key k l.
Proof.
  induction l as [ | x l IH]; auto.
  cbn [PySort.sort]. rewrite insert_with_key.
  unfold with_key in *. cbn [filter]. rewrite IH. reflexivity.
Qed.

Lemma sort_reverse_with_key (k : float) (l : list A) :
  with_key key k (PySort.sort_reverse key l) = with_key key k l.
Proof.
  unfold PySort.sort_reverse, with_key.
  rewrite filter_rev. fold (with_key key k (PySort.sort key (rev l))).
  rewrite sort_with_key. unfold with_key.
  rewrite filter_rev, rev_involutive. reflexivity.
Qed.

End SortFacts.

(* ------------------------------------------------------------------------- *)
(** ** The selector *)
(* ------------------------------------------------------------------------- *)

Section Selector.

Variable campaign : Campaign.
Variable t : float.



(** When the loop completes, every row has a score and the result is
    the accumulator followed by the selected entries. *)
Lemma score_designers_ok (rows : list Designer) (acc res : list ScoredDesigner) :
  score_designers campaign t rows acc = Ok res ->
  res = acc ++ selected campaign t rows
  /\ Forall (fun d => exists s, calculate_match_score campaign (normalize_row d) = Ok s)
       rows.
Proof.
  revert acc. induction rows as [ | d rows IH]; cbn; intros acc H.
  - injection H as <-. rewrite app_nil_r. auto.
  - destruct (calculate_match_score campaign (normalize_row d)) as [s | e'] eqn:E;
      cbn in H; [ | discriminate].
    destruct (Float64.geb s t).
    + destruct (validates _); [ | discriminate].
      apply IH in H. destruct H as [-> HF]. rewrite <- app_assoc. eauto.
    + apply IH in H. destruct H as [-> HF]. eauto.
Qed.

Lemma valid_row_well_typed (d : Designer) :
  valid_row d = true -> well_typed (normalize_row d) = true.
Proof.
  unfold valid_row, validates, well_typed. cbn. intros H.
  repeat (apply andb_prop in H; destruct H as [H ?]).
  repeat (apply andb_true_intro; split);
    match goal with
    | Hl : is_str_list (deserialize_list ?v) = true |- context [deserialize_list ?v] =>
        destruct (deserialize_list v); cbn in Hl |- *; auto; discriminate
    end.
Qed.

(** On rows that [DesignerOut] accepts the loop completes. *)
Lemma score_designers_returns (rows : list Designer) (acc : list ScoredDesigner) :
  Forall (fun d => valid_row d = true) rows ->
  exists res, score_designers campaign t rows acc = Ok res.
Proof.
  intros HF. revert acc. induction HF as [ | d rows Hd HF IH]; cbn; intros acc.
  - eauto.
  - destruct (criteria_score_well_typed campaign _ (valid_row_well_typed d Hd))
      as (b2 & b3 & b5 & _ & _ & _ & E).
    rewrite calculate_match_score_eq, E. cbn [bind].
    destruct (Float64.geb _ t); auto.
    unfold valid_row in Hd. rewrite Hd. auto.
Qed.

Lemma selected_in (rows : list Designer) (sd : ScoredDesigner) :
  In sd (selected campaign t rows) <->
  exists d, In d rows
    /\ calculate_match_score campaign (normalize_row d) = Ok (score sd)
    /\ Float64.geb (score sd) t = true
    /\ sd = entry d (score sd).
Proof.
  induction rows as [ | d rows IH]; cbn.
  - split; [tauto | intros (d & [] & _)].
  - destruct (calculate_match_score campaign (normalize_row d)) as [s | e] eqn:E.
    + destruct (Float64.geb s t) eqn:G.
      * cbn. rewrite IH. split.
        -- intros [<- | (d' & Hd' & H)].
           ++ exists d. cbn. auto.
           ++ exists d'. auto.
        -- intros (d' & [<- | Hd'] & Hs & Hg & Hsd).
           ++ left. rewrite Hsd. f_equal. congruence.
           ++ right. exists d'. auto.
      * rewrite IH. split.
        -- intros (d' & Hd' & H). exists d'. auto.
        -- intros (d' & [<- | Hd'] & Hs & Hg & Hsd).
           ++ rewrite E in Hs. injection Hs as ->. congruence.
           ++ exists d'. auto.
    + rewrite IH. split.
      * intros (d' & Hd' & H). exists d'. auto.
      * intros (d' & [<- | Hd'] & Hs & Hg & Hsd).
        -- congruence.
        -- exists d'. auto.
Qed.

Lemma selected_scores (rows : list Designer) :
  Forall (fun sd => Float64.geb (score sd) t = true) (selected campaign t rows).
Proof.
  apply Forall_forall. intros sd H. apply selected_in in H.
  destruct H as (d & _ & _ & H & _). exact H.
Qed.

End Selector.

(** [match_designers] once the campaign is found. *)
Lemma match_designers_found (db : Database) (req : MatchRequest) (c : Campaign)
    (res : list ScoredDesigner) :
  fetch_campaign db (request_campaign_id req) = Ok (Some c) ->
  match_designers db req = Ok res ->
  res = PySort.sort_reverse score (selected c (threshold req) (designers db))
  /\ score_designers c (threshold req) (designers db) []
     = Ok (selected c (threshold req) (designers db)).
Proof.
  unfold match_designers. intros -> H. cbn [bind] in H.
  destruct (score_designers c (threshold req) (designers db) []) as [l | e] eqn:E;
    cbn in H; [ | discriminate].
  injection H as <-.
  apply score_designers_ok in E. destruct E as [-> _]. auto.
Qed.



Lemma fetch_campaign_found (db : Database) (id : Z) (c : Campaign) :
  fetch_campaign db id = Ok (Some c) ->
  Sqlite.fits_int64 id = true /\ campaign_exists db id.
Proof.
  unfold fetch_campaign, campaign_exists.
  destruct (Sqlite.fits_int64 id); [ | discriminate].
  intros H. injection H as H. split; [reflexivity | ].
  apply find_some in H. destruct H as [Hin Hid]. apply Z.eqb_eq in Hid.
  exists c. auto.
Qed.



Lemma match_designers_returns (db : Database) (req : MatchRequest) (c : Campaign) :
  fetch_campaign db (request_campaign_id req) = Ok (Some c) ->
  Forall (fun d => valid_row d = true) (designers db) ->
  exists res, match_designers db req = Ok res.
Proof.
  intros Hc HF. unfold match_designers. rewrite Hc. cbn [bind].
  destruct (score_designers_returns c (threshold req) (designers db) [] HF) as [l ->].
  cbn. eauto.
Qed.

Lemma sort_reverse_in {A : Type} (key : A -> float) (l : list A) (x : A) :
  In x (PySort.sort_reverse key l) <-> In x l.
Proof.
  split; apply Permutation_in;
    [ | apply Permutation_sym]; apply sort_reverse_perm.
Qed.

(** C7.  Once the campaign is found: on rows that [DesignerOut] accepts
    [match_designers] returns a result; and whenever it returns a result,
    every row has a score, the entry of a row is in the result if and
    only if its score is [>=] the threshold, a row whose score equals the
    threshold is included, and the result holds nothing else. *)
Theorem threshold_inclusive (db : Database) (req : MatchRequest) (c : Campaign) :
  fetch_campaign db (request_campaign_id req) = Ok (Some c) ->
  (Forall (fun d => valid_row d = true) (designers db) ->
   exists res, match_designers db req = Ok res)
  /\ (forall res,
        match_designers db req = Ok res ->
        (forall d, In d (designers db) ->
           exists s,
             calculate_match_score c (normalize_row d) = Ok s
             /\ (In (entry d s) res <-> Float64.geb s (threshold req) = true)
             /\ (Float64.eqb s (threshold req) = true -> In (entry d s) res))
        /\ (forall sd, In sd res ->
              exists d, In d (designers db)
                /\ calculate_match_score c (normalize_row d) = Ok (score sd)
                /\ sd = entry d (score sd))).
Proof.
  intros Hc. split; [exact (match_designers_returns db req c Hc) | ].
  intros res Hres.
  destruct (match_designers_found db req c res Hc Hres) as [-> Hloop].
  apply score_designers_ok in Hloop. destruct Hloop as [_ Hscores].
  rewrite Forall_forall in Hscores.
  assert (Hin : forall d s,
             In d (designers db) ->
             calculate_match_score c (normalize_row d) = Ok s ->
             (In (entry d s)
                (PySort.sort_reverse score (selected c (threshold req) (designers db)))
              <-> Float64.geb s (threshold req) = true)).
  { intros d s Hd Hs. rewrite sort_reverse_in, selected_in. cbn [score entry]. split.
    - intros (d' & _ & _ & Hg & _). exact Hg.
    - intros Hg. exists d. auto. }
  split.
  - intros d Hd. destruct (Hscores d Hd) as [s Hs]. exists s.
    split; [exact Hs | ]. split; [apply Hin; assumption | ].
    intros He. apply Hin; auto. apply eqb_geb. exact He.
  - intros sd Hsd. rewrite sort_reverse_in, selected_in in Hsd.
    destruct Hsd as (d & Hd & Hs & _ & He). exists d. auto.
Qed.

Lemma sorted_weaken {A : Type} (P : A -> Prop) (R R' : A -> A -> Prop) (l : list A) :
  (forall a b, P a -> P b -> R a b -> R' a b) ->
  Forall P l -> Sorted R l -> Sorted R' l.
Proof.
  intros HR HP Hs. induction Hs as [ | a l Hs IH Hhd]; constructor.
  - apply IH. inversion HP; assumption.
  - inversion HP as [ | ? ? Pa Pl]; subst.
    destruct Hhd as [ | b l' Hab]; constructor.
    inversion Pl; subst. apply HR; assumption.
Qed.

(** C8.  Once the campaign is found: on rows that [DesignerOut] accepts
    [match_designers] returns a result; and whenever it returns a result,
    the result is a permutation of the selected entries, every entry's
    score is [>=] the score of every entry after it, and the entries with
    equal scores are in the order of their rows. *)
Theorem match_designers_sorted_stable (db : Database) (req : MatchRequest)
    (c : Campaign) :
  fetch_campaign db (request_campaign_id req) = Ok (Some c) ->
  (Forall (fun d => valid_row d = true) (designers db) ->
   exists res, match_designers db req = Ok res)
  /\ (forall res,
        match_designers db req = Ok res ->
        let candidates := selected c (threshold req) (designers db) in
        Permutation res candidates
        /\ StronglySorted score_descending res
        /\ (forall k, with_key score k res = with_key score k candidates)).
Proof.
  intros Hc. split; [exact (match_designers_returns db req c Hc) | ].
  intros res Hres candidates.
  destruct (match_designers_found db req c res Hc Hres) as [-> _].
  fold candidates. split; [apply sort_reverse_perm | ]. split.
  - apply Sorted_StronglySorted.
    + intros x y z Hxy Hyz. exact (geb_trans _ _ _ Hxy Hyz).
    + apply sorted_weaken
        with (P := fun sd => is_nan (score sd) = false) (R := descending score).
      * intros a b Ha Hb Hab. apply not_ltb_geb; assumption.
      * apply Forall_forall. intros sd Hsd. apply sort_reverse_in in Hsd.
        pose proof (selected_scores c (threshold req) (designers db)) as HF.
        rewrite Forall_forall in HF. apply HF in Hsd.
        apply geb_not_nan in Hsd. tauto.
      * apply sort_reverse_sorted.
  - intros k. apply sort_reverse_with_key.
Qed.

(* ------------------------------------------------------------------------- *)
(** ** The selector on the scenario's database *)
(* ------------------------------------------------------------------------- *)

Example match_designers_scenario :
  match_designers Scenario.database (Scenario.request 1 default_threshold)
  = Ok [entry (Scenario.row 3 400) (of_Z 99); entry (Scenario.row 1 600) (of_Z 79)].
Proof. vm_compute. reflexivity. Qed.


Lemma threshold_inclusive_witness :
  exists res,
    match_designers Scenario.database (Scenario.request 1 (of_Z 79)) = Ok res.
Proof.
  apply (proj1 (threshold_inclusive Scenario.database (Scenario.request 1 (of_Z 79))
                  Scenario.campaign ltac:(reflexivity))).
  repeat constructor.
Defined.

Lemma match_designers_sorted_stable_witness :
  exists res,
    match_designers Scenario.database (Scenario.request 1 default_threshold) = Ok res.
Proof.
  apply (proj1 (match_designers_sorted_stable Scenario.database
                  (Scenario.request 1 default_threshold)
                  Scenario.campaign ltac:(reflexivity))).
  repeat constructor.
Defined.

(* ------------------------------------------------------------------------- *)
(** ** Rows as dicts *)
(* ------------------------------------------------------------------------- *)

Lemma str_eqb_eq (a b : pystr) : Str.eqb a b = true <-> a = b.
Proof.
  revert b. induction a as [ | x a IH]; intros [ | y b]; cbn; split;
    try congruence; try discriminate; auto.
  - intros H. apply andb_prop in H. destruct H as [Hx Hab].
    apply N.eqb_eq in Hx. apply IH in Hab. congruence.
  - intros H. injection H as -> ->. rewrite N.eqb_refl. apply IH. reflexivity.
Qed.

Lemma str_eqb_refl (a : pystr) : Str.eqb a a = true.
Proof. apply str_eqb_eq. reflexivity. Qed.

Lemma str_eqb_neq (a b : pystr) : Str.eqb a b = false <-> a <> b.
Proof.
  rewrite <- str_eqb_eq. destruct (Str.eqb a b); split; congruence.
Qed.

Section RowFactoryFacts.

Context {V : Type}.

Lemma get_setitem (d : list (pystr * V)) (k k' : pystr) (v : V) :
  get (setitem d k v) k' = if Str.eqb k' k then Some v else get d k'.
Proof.
  induction d as [ | [k0 v0] d IH]; cbn.
  - reflexivity.
  - destruct (Str.eqb k k0) eqn:E; cbn.
    + apply str_eqb_eq in E. subst k0.
      destruct (Str.eqb k' k); reflexivity.
    + destruct (Str.eqb k' k0) eqn:E0.
      * apply str_eqb_eq in E0. subst k0.
        destruct (Str.eqb k' k) eqn:E1; [ | reflexivity].
        apply str_eqb_eq in E1. subst k'. rewrite str_eqb_refl in E. discriminate.
      * exact IH.
Qed.

Lemma dict_factory_loop_spec (description : list pystr) (row : list V) :
  forall (idx : nat) (d : list (pystr * V)),
    (idx + List.length description <= List.length row)%nat ->
    exists d',
      dict_factory_loop description idx row d = Returns d'
      /\ (forall k, ~ In k description -> get d' k = get d k)
      /\ (forall i k,
            nth_error description i = Some k ->
            (forall j, (i < j)%nat -> nth_error description j <> Some k) ->
            get d' k = nth_error row (idx + i)).
Proof.
  induction description as [ | col description IH]; intros idx d Hlen.
  - exists d. split; [reflexivity | ]. split; [reflexivity | ].
    intros [ | i] k H; discriminate H.
  - cbn [List.length] in Hlen. cbn [dict_factory_loop].
    destruct (nth_error row idx) as [v | ] eqn:Ev.
    2: { apply nth_error_None in Ev. lia. }
    destruct (IH (S idx) (setitem d col v) ltac:(lia)) as (d' & -> & Hout & Hin).
    exists d'. split; [reflexivity | ]. split.
    + intros k Hk. rewrite Hout by (intros H; apply Hk; right; exact H).
      rewrite get_setitem.
      destruct (Str.eqb k col) eqn:E; [ | reflexivity].
      apply str_eqb_eq in E. subst k. exfalso. apply Hk. left. reflexivity.
    + intros [ | i] k Hk Hlast.
      * cbn in Hk. injection Hk as ->.
        rewrite Hout.
        -- rewrite get_setitem, str_eqb_refl, Nat.add_0_r. symmetry. exact Ev.
        -- intros H. apply In_nth_error in H. destruct H as [j Hj].
           apply (Hlast (S j)); [lia | exact Hj].
      * cbn in Hk. rewrite (Hin i k Hk).
        -- f_equal. lia.
        -- intros j Hj. apply (Hlast (S j)). lia.
Qed.

End RowFactoryFacts.

(** X1.  [dict_factory] on a row that has a value for every column returns a
    dict in which every column name gives the value at the last position
    where the name stands (at its only position when the names are
    distinct), and a name that is no column gives nothing. *)
Theorem dict_factory_columns {V : Type} (description : list pystr) (row : list V) :
  (List.length description <= List.length row)%nat ->
  exists d,
    dict_factory description row = Returns d
    /\ (forall i k,
          nth_error description i = Some k ->
          (forall j, (i < j)%nat -> nth_error description j <> Some k) ->
          get d k = nth_error row i)
    /\ (forall k, ~ In k description -> get d k = None).
Proof.
  intros Hlen.
  destruct (dict_factory_loop_spec description row 0 [] ltac:(lia))
    as (d & Hd & Hout & Hin).
  exists d. split; [exact Hd | ]. split.
  - intros i k Hk Hlast. exact (Hin i k Hk Hlast).
  - intros k Hk. rewrite (Hout k Hk). reflexivity.
Qed.

Lemma dict_factory_columns_witness :
  exists d,
    dict_factory [lit "id"; lit "name"] [PInt 7; PStr (lit "Ada")] = Returns d
    /\ (forall i k,
          nth_error [lit "id"; lit "name"] i = Some k ->
          (forall j, (i < j)%nat -> nth_error [lit "id"; lit "name"] j <> Some k) ->
          get d k = nth_error [PInt 7; PStr (lit "Ada")] i)
    /\ (forall k, ~ In k [lit "id"; lit "name"] -> get d k = None).
Proof.
  apply (dict_factory_columns [lit "id"; lit "name"] [PInt 7; PStr (lit "Ada")]).
  cbn. lia.
Defined.

(** A row shorter than the description makes [dict_factory] raise
    [IndexError]. *)
Lemma dict_factory_short_row {V : Type} (description : list pystr) (row : list V) :
  (List.length row < List.length description)%nat ->
  dict_factory description row = Raises IndexError.
Proof.
  unfold dict_factory.
  assert (H : forall idx d,
             (List.length row < idx + List.length description)%nat ->
             (idx <= List.length row)%nat ->
             dict_factory_loop description idx row d = Raises IndexError).
  { induction description as [ | col description IH]; intros idx d Hlt Hle.
    - cbn in Hlt. lia.
    - cbn [List.length] in Hlt. cbn [dict_factory_loop].
      destruct (nth_error row idx) as [v | ] eqn:Ev; [ | reflexivity].
      apply IH; [lia | ].
      assert (nth_error row idx <> None) as Hn by congruence.
      apply nth_error_Some in Hn. lia. }
  intros Hlt. apply H; lia.
Qed.

(* ------------------------------------------------------------------------- *)
(** ** The text [serialize_list] writes, the text [deserialize_list] reads *)
(* ------------------------------------------------------------------------- *)

Section SerializedText.

Local Open Scope N_scope.

Lemma hex_digit_printable (n : N) : n < 16 -> printable (Json.hex_digit n) = true.
Proof.
  intros H. unfold printable, Json.hex_digit.
  destruct (n <? 10) eqn:E;
    [apply N.ltb_lt in E | apply N.ltb_ge in E];
    apply andb_true_intro; split; apply N.leb_le; lia.
Qed.

Lemma land_15_small (n : N) : N.land n 15 < 16.
Proof. rewrite land_15. apply N.mod_lt. discriminate. Qed.

Lemma u_escape_printable (n : N) : forallb printable (Json.u_escape n) = true.
Proof.
  unfold Json.u_escape. cbn [forallb].
  rewrite !hex_digit_printable by apply land_15_small. reflexivity.
Qed.

Lemma escape_char_printable (c : char) : forallb printable (Json.escape_char c) = true.
Proof.
  unfold Json.escape_char.
  repeat match goal with
    | |- context [if ?b then _ else _] => destruct b eqn:?; [try reflexivity | ]
    end.
  - cbn [forallb]. unfold printable at 1.
    match goal with H : (_ && _)%bool = true |- _ => rewrite H end. reflexivity.
  - apply u_escape_printable.
  - rewrite forallb_app, !u_escape_printable. reflexivity.
Qed.

Lemma escape_printable (s : pystr) : forallb printable (Json.escape s) = true.
Proof.
  induction s as [ | c s IH]; [reflexivity | ].
  cbn [Json.escape]. rewrite forallb_app, escape_char_printable, IH. reflexivity.
Qed.

Lemma encode_string_printable (s : pystr) :
  forallb printable (Json.encode_string s) = true.
Proof.
  unfold Json.encode_string. cbn [forallb].
  rewrite forallb_app, escape_printable. reflexivity.
Qed.

Lemma encode_items_printable (items : list pystr) :
  forallb printable (Json.encode_items items) = true.
Proof.
  induction items as [ | s items IH]; [reflexivity | ].
  rewrite encode_items_cons, forallb_app, encode_string_printable.
  destruct items; [reflexivity | ]. cbn [forallb]. rewrite IH. reflexivity.
Qed.

Lemma dumps_printable (items : list pystr) : forallb printable (Json.dumps items) = true.
Proof.
  unfold Json.dumps. cbn [forallb].
  rewrite forallb_app, encode_items_printable. reflexivity.
Qed.

Lemma printable_encodable (s : pystr) :
  forallb printable s = true -> Sqlite.encodable s = true.
Proof.
  unfold Sqlite.encodable. intros H.
  apply forallb_forall. intros c Hc.
  apply (proj1 (forallb_forall _ _) H) in Hc.
  unfold printable in Hc. apply andb_prop in Hc. destruct Hc as [_ Hc].
  apply N.leb_le in Hc. unfold Sqlite.is_surrogate.
  destruct (0xD800 <=? c) eqn:E; [ | reflexivity].
  apply N.leb_le in E. lia.
Qed.

Lemma serialize_list_binds (items : option (list pystr)) :
  Sqlite.bind_text (serialize_list items) = Returns (serialize_list items).
Proof.
  unfold Sqlite.bind_text.
  rewrite printable_encodable; [reflexivity | ].
  destruct items; apply dumps_printable.
Qed.

End SerializedText.

(** X2.  Whatever the strings of the list hold, the text [serialize_list]
    writes is made of printable ASCII characters only (every other
    character is escaped), so that it can always be stored: binding it
    as a parameter never raises [UnicodeEncodeError]. *)
Theorem serialize_list_ascii (items : option (list pystr)) :
  forallb printable (serialize_list items) = true
  /\ Sqlite.bind_text (serialize_list items) = Returns (serialize_list items).
Proof.
  split; [ | apply serialize_list_binds].
  destruct items; apply dumps_printable.
Qed.

Section Whitespace.

Lemma lstrip_spaces (pad s : pystr) :
  forallb isspace pad = true -> lstrip (pad ++ s) = lstrip s.
Proof.
  induction pad as [ | c pad IH]; cbn; [reflexivity | ].
  intros H. apply andb_prop in H. destruct H as [Hc Hpad].
  rewrite Hc. auto.
Qed.

Lemma forallb_rev {A : Type} (p : A -> bool) (l : list A) :
  forallb p (rev l) = forallb p l.
Proof.
  induction l as [ | x l IH]; [reflexivity | ].
  cbn. rewrite forallb_app, IH. cbn. rewrite andb_true_r. apply andb_comm.
Qed.

Lemma rstrip_spaces (s pad : pystr) :
  forallb isspace pad = true -> rstrip (s ++ pad) = rstrip s.
Proof.
  intros H. unfold rstrip. rewrite rev_app_distr, lstrip_spaces; [reflexivity | ].
  rewrite forallb_rev. exact H.
Qed.

Lemma lstrip_app (s pad : pystr) :
  lstrip (s ++ pad) = lstrip s ++ pad \/ lstrip s = [] .
Proof.
  induction s as [ | c s IH]; cbn; [auto | ].
  destruct (isspace c); auto.
Qed.

Lemma lstrip_all_spaces (s : pystr) : lstrip s = [] -> forallb isspace s = true.
Proof.
  induction s as [ | c s IH]; cbn; [reflexivity | ].
  destruct (isspace c); [auto | discriminate].
Qed.

Lemma strip_spaces (before s after : pystr) :
  forallb isspace before = true -> forallb isspace after = true ->
  strip (before ++ s ++ after) = strip s.
Proof.
  intros Hb Ha. unfold strip. rewrite lstrip_spaces by exact Hb.
  destruct (lstrip_app s after) as [-> | E].
  - apply rstrip_spaces. exact Ha.
  - rewrite E.
    rewrite <- (app_nil_r (s ++ after)), lstrip_spaces; [reflexivity | ].
    rewrite forallb_app, Ha, (lstrip_all_spaces s E). reflexivity.
Qed.

End Whitespace.

(** X3.  White space around a stored text does not count: with any run of
    characters that [str.strip] removes before it and after it, a text is
    deserialized to the same value.  A text of such characters only is
    deserialized to the empty list. *)
Theorem deserialize_list_ignores_padding (before s after : pystr) :
  forallb isspace before = true -> forallb isspace after = true ->
  deserialize_list (PStr (before ++ s ++ after)) = deserialize_list (PStr s)
  /\ deserialize_list (PStr (before ++ after)) = PList [].
Proof.
  intros Hb Ha. split.
  - unfold deserialize_list. rewrite strip_spaces by assumption. reflexivity.
  - unfold deserialize_list.
    rewrite <- (app_nil_l after) at 1. rewrite strip_spaces by assumption.
    reflexivity.
Qed.

Lemma deserialize_list_ignores_padding_witness :
  deserialize_list (PStr ([10; 0xA0]%N ++ lit "[1]" ++ [32; 11]%N))
    = deserialize_list (PStr (lit "[1]"))
  /\ deserialize_list (PStr ([10; 0xA0]%N ++ [32; 11]%N)) = PList [].
Proof.
  apply (deserialize_list_ignores_padding [10; 0xA0]%N (lit "[1]") [32; 11]%N);
    reflexivity.
Defined.

(* ------------------------------------------------------------------------- *)
(** ** More on the scorer *)
(* ------------------------------------------------------------------------- *)

Lemma add_performance_none (d : Designer) (s : float) :
  has_performance d = false -> add_performance d s = s.
Proof.
  unfold has_performance, add_performance.
  destruct (performance_score d) as [p | ]; [ | reflexivity].
  intros ->. reflexivity.
Qed.

Lemma weights_total_range (b1 b2 b3 b4 b5 b6 : bool) :
  (0 <= weights_total b1 b2 b3 b4 b5 b6 <= 95)%Z
  /\ (weights_total b1 b2 b3 b4 b5 b6 = 95%Z
      <-> b1 && b2 && b3 && b4 && b5 && b6 = true).
Proof.
  unfold weights_total.
  destruct b1, b2, b3, b4, b5, b6; cbn; (split; [lia | ]); split; intros H;
    try reflexivity; vm_compute in H; discriminate H.
Qed.

(** X4.  With no performance term (the performance score is absent or zero)
    the score of a designer whose list attributes are lists of strings
    is a whole number of points between 0 and 95: exactly the sum of
    the weights 20, 20, 15, 15, 15 and 10 of the criteria that pass,
    with no rounding, and 95 exactly when all six pass. *)
Theorem score_is_sum_of_weights (c : Campaign) (d : Designer) :
  well_typed d = true ->
  has_performance d = false ->
  exists b_ambiance b_platform b_style,
    wanted_in (ambiance c) (deserialize_list (scene_tags d)) = Ok b_ambiance
    /\ wanted_in (platform_pref c) (deserialize_list (export_formats d)) = Ok b_platform
    /\ wanted_in (style c) (deserialize_list (visual_metadata d)) = Ok b_style
    /\ calculate_match_score c d
       = Ok (of_Z (weights_total (budget_ok c d) b_ambiance b_platform
                     (interactivity_ok c d) b_style (timeline_ok c d)))
    /\ (0 <= weights_total (budget_ok c d) b_ambiance b_platform
               (interactivity_ok c d) b_style (timeline_ok c d) <= 95)%Z
    /\ (calculate_match_score c d = Ok (of_Z 95)
        <-> budget_ok c d && b_ambiance && b_platform
            && interactivity_ok c d && b_style && timeline_ok c d = true).
Proof.
  intros Hd Hp.
  destruct (criteria_score_well_typed c d Hd) as (b2 & b3 & b5 & E2 & E3 & E5 & E).
  exists b2, b3, b5.
  assert (Es : calculate_match_score c d
               = Ok (of_Z (weights_total (budget_ok c d) b2 b3
                             (interactivity_ok c d) b5 (timeline_ok c d)))).
  { rewrite calculate_match_score_eq, E. cbn [bind].
    rewrite add_performance_none by exact Hp. reflexivity. }
  repeat (split; [assumption | ]).
  split; [apply weights_total_range | ].
  rewrite Es, <- (proj2 (weights_total_range _ _ _ _ _ _)).
  split.
  - destruct (budget_ok c d), b2, b3, (interactivity_ok c d), b5, (timeline_ok c d);
      vm_compute; congruence.
  - intros ->. reflexivity.
Qed.

Lemma score_is_sum_of_weights_witness :
  exists b_ambiance b_platform b_style,
    wanted_in (ambiance Scenario.campaign)
      (deserialize_list (scene_tags (Scenario.idle_row 2))) = Ok b_ambiance
    /\ wanted_in (platform_pref Scenario.campaign)
         (deserialize_list (export_formats (Scenario.idle_row 2))) = Ok b_platform
    /\ wanted_in (style Scenario.campaign)
         (deserialize_list (visual_metadata (Scenario.idle_row 2))) = Ok b_style
    /\ calculate_match_score Scenario.campaign (Scenario.idle_row 2)
       = Ok (of_Z (weights_total (budget_ok Scenario.campaign (Scenario.idle_row 2))
                     b_ambiance b_platform
                     (interactivity_ok Scenario.campaign (Scenario.idle_row 2))
                     b_style (timeline_ok Scenario.campaign (Scenario.idle_row 2))))
    /\ (0 <= weights_total (budget_ok Scenario.campaign (Scenario.idle_row 2))
               b_ambiance b_platform
               (interactivity_ok Scenario.campaign (Scenario.idle_row 2))
               b_style (timeline_ok Scenario.campaign (Scenario.idle_row 2)) <= 95)%Z
    /\ (calculate_match_score Scenario.campaign (Scenario.idle_row 2) = Ok (of_Z 95)
        <-> budget_ok Scenario.campaign (Scenario.idle_row 2) && b_ambiance && b_platform
            && interactivity_ok Scenario.campaign (Scenario.idle_row 2) && b_style
            && timeline_ok Scenario.campaign (Scenario.idle_row 2) = true).
Proof.
  apply (score_is_sum_of_weights Scenario.campaign (Scenario.idle_row 2));
    reflexivity.
Defined.

(** X6.  [match_designers] normalizes the three list attributes of a row
    before it calls the scorer, which normalizes them again.  Whenever
    the first normalization gives lists, the second changes nothing: the
    row with its lists normalized is scored as the row itself. *)
Theorem score_of_normalized_row (c : Campaign) (d : Designer) :
  is_list (deserialize_list (scene_tags d)) = true ->
  is_list (deserialize_list (export_formats d)) = true ->
  is_list (deserialize_list (visual_metadata d)) = true ->
  calculate_match_score c (normalize_row d) = calculate_match_score c d.
Proof.
  intros H1 H2 H3. unfold calculate_match_score.
  cbn [normalize_row scene_tags export_formats visual_metadata].
  rewrite !deserialize_list_idempotent_on_lists by assumption.
  reflexivity.
Qed.

Lemma score_of_normalized_row_witness :
  calculate_match_score Scenario.campaign (normalize_row (Scenario.row 1 600))
  = calculate_match_score Scenario.campaign (Scenario.row 1 600).
Proof.
  apply (score_of_normalized_row Scenario.campaign (Scenario.row 1 600));
    reflexivity.
Defined.

(** A text that decodes to a number is the case the hypothesis of
    [score_of_normalized_row] leaves out: scored directly the row raises,
    scored after [match_designers] has normalized it, it does not. *)
Example score_of_scalar_text_row :
  let d := with_list_attributes (Scenario.row 1 600)
             (PStr (lit "5")) (PStr (lit "[]")) (PStr (lit "[]")) in
  calculate_match_score Scenario.campaign d = Raise TypeError
  /\ calculate_match_score Scenario.campaign (normalize_row d) = Ok (of_Z 29).
Proof. split; vm_compute; reflexivity. Qed.

(* ------------------------------------------------------------------------- *)
(** ** The performance term *)
(* ------------------------------------------------------------------------- *)

Section PerformanceTerm.

Local Open Scope Z_scope.

(** The mantissa of a float of the format has at most 53 digits, and
    exactly 53 above the smallest exponent. *)
Lemma valid_mantissa (s : bool) (m : positive) (e : Z) :
  valid_binary prec emax (S754_finite s m e) = true ->
  -1074 <= e /\ Zpos m < 2 ^ 53 /\ (-1074 < e -> 2 ^ 52 <= Zpos m).
Proof.
  intros H. apply round_at_valid_float in H. destruct H as [_ H].
  rewrite fexp_eq in H.
  pose proof (Zdigits2_bounds (Zpos m) ltac:(lia)) as [Hlo Hhi].
  assert (Hd : Zdigits2 (Zpos m) <= 53) by lia.
  split; [lia | ]. split.
  - assert (2 ^ Zdigits2 (Zpos m) <= 2 ^ 53) by (apply Z.pow_le_mono_r; lia). lia.
  - intros He. assert (E : Zdigits2 (Zpos m) = 53) by lia.
    rewrite E in Hlo. exact Hlo.
Qed.

Lemma units_lt_exponent (s1 s2 : bool) (m1 m2 : positive) (e1 e2 : Z) :
  valid_binary prec emax (S754_finite s1 m1 e1) = true ->
  valid_binary prec emax (S754_finite s2 m2 e2) = true ->
  e1 < e2 ->
  Zpos m1 * 2 ^ (e1 + 1074) < Zpos m2 * 2 ^ (e2 + 1074).
Proof.
  intros V1 V2 He.
  apply valid_mantissa in V1. destruct V1 as (Ha & Hm1 & _).
  apply valid_mantissa in V2. destruct V2 as (_ & _ & Hm2).
  specialize (Hm2 ltac:(lia)).
  assert (Hp1 : 0 < 2 ^ (e1 + 1074)) by (apply Z.pow_pos_nonneg; lia).
  assert (Hp2 : 0 < 2 ^ (e2 + 1074)) by (apply Z.pow_pos_nonneg; lia).
  assert (H1 : Zpos m1 * 2 ^ (e1 + 1074) < 2 ^ 53 * 2 ^ (e1 + 1074))
    by (apply Z.mul_lt_mono_pos_r; assumption).
  assert (H2 : 2 ^ 52 * 2 ^ (e2 + 1074) <= Zpos m2 * 2 ^ (e2 + 1074))
    by (apply Z.mul_le_mono_nonneg_r; lia).
  assert (H3 : 2 ^ 53 * 2 ^ (e1 + 1074) <= 2 ^ 52 * 2 ^ (e2 + 1074)).
  { rewrite <- !Z.pow_add_r by lia. apply Z.pow_le_mono_r; lia. }
  lia.
Qed.

(** On floats of the format the order of the floats is the order of
    their values. *)
Lemma leb_units (f g : spec_float) :
  valid_binary prec emax f = true -> valid_binary prec emax g = true ->
  finite_or_zero f = true -> finite_or_zero g = true ->
  SFleb f g = true -> units f <= units g.
Proof.
  intros Vf Vg Ff Fg.
  destruct f as [sf | sf | | sf mf ef]; try discriminate Ff;
    destruct g as [sg | sg | | sg mg eg]; try discriminate Fg;
    unfold SFleb; cbn [SFcompare units]; intros H.
  - lia.
  - pose proof (valid_mantissa _ _ _ Vg) as (Heg & _ & _).
    pose proof (Z.pow_pos_nonneg 2 (eg + 1074) ltac:(lia) ltac:(lia)).
    destruct sg; [discriminate H | ]. cbn [cond_Zopp]. lia.
  - pose proof (valid_mantissa _ _ _ Vf) as (Hef & _ & _).
    pose proof (Z.pow_pos_nonneg 2 (ef + 1074) ltac:(lia) ltac:(lia)).
    destruct sf; [ | discriminate H]. cbn [cond_Zopp]. lia.
  - pose proof (valid_mantissa _ _ _ Vf) as (Hef & _ & _).
    pose proof (valid_mantissa _ _ _ Vg) as (Heg & _ & _).
    pose proof (Z.pow_pos_nonneg 2 (ef + 1074) ltac:(lia) ltac:(lia)) as Hpf.
    pose proof (Z.pow_pos_nonneg 2 (eg + 1074) ltac:(lia) ltac:(lia)) as Hpg.
    change (Pos.compare_cont Eq mf mg) with (Pos.compare mf mg) in H.
    destruct sf, sg; cbn [cond_Zopp]; try discriminate H; try lia.
    + destruct (Z.compare_spec ef eg) as [E | E | E].
      * subst eg. destruct (Pos.compare_spec mf mg) as [E' | E' | E'];
          try discriminate H; [subst; lia | nia].
      * discriminate H.
      * pose proof (units_lt_exponent true true mg mf eg ef Vg Vf E). lia.
    + destruct (Z.compare_spec ef eg) as [E | E | E].
      * subst eg. destruct (Pos.compare_spec mf mg) as [E' | E' | E'];
          try discriminate H; [subst; lia | nia].
      * pose proof (units_lt_exponent false false mf mg ef eg Vf Vg E). lia.
      * discriminate H.
Qed.

Lemma same_value_nan (f g : spec_float) : same_value f g -> is_nan f = is_nan g.
Proof.
  intros [-> | [Hf Hg]]; [reflexivity | ].
  destruct f, g; try discriminate; reflexivity.
Qed.

Lemma round_units_not_nan (z : Z) : is_nan (round_units z) = false.
Proof.
  destruct z as [ | u | u]; cbn [round_units]; [reflexivity | | ].
  - pose proof (round_at_sign false u) as H. cbv beta iota in H.
    destruct (round_at false (Zpos u) (-1074)); try reflexivity. contradiction.
  - pose proof (round_at_sign true u) as H. cbv beta iota in H.
    destruct (round_at true (Zpos u) (-1074)); try reflexivity. contradiction.
Qed.

Lemma add_not_nan (a b : spec_float) :
  valid_binary prec emax a = true -> valid_binary prec emax b = true ->
  finite_or_zero a = true -> finite_or_zero b = true ->
  is_nan (SFadd prec emax a b) = false.
Proof.
  intros Va Vb Fa Fb.
  rewrite (same_value_nan _ _ (add_units a b Va Vb Fa Fb)).
  apply round_units_not_nan.
Qed.

Lemma leb_infinity (y : spec_float) :
  is_nan y = false -> SFleb y (S754_infinity false) = true.
Proof. destruct y as [s | [ | ] | | [ | ] m e]; cbn; congruence. Qed.

Lemma infinity_leb (y : spec_float) :
  is_nan y = false -> SFleb (S754_infinity true) y = true.
Proof. destruct y as [s | [ | ] | | [ | ] m e]; cbn; congruence. Qed.

(** Adding to the same float a smaller and a larger one keeps their
    order. *)
Lemma add_mono_right (k x1 x2 : spec_float) :
  valid_binary prec emax k = true -> finite_or_zero k = true ->
  valid_binary prec emax x1 = true -> valid_binary prec emax x2 = true ->
  SFleb x1 x2 = true ->
  SFleb (SFadd prec emax k x1) (SFadd prec emax k x2) = true.
Proof.
  intros Vk Fk V1 V2 Hle.
  destruct (finite_or_zero x1) eqn:F1, (finite_or_zero x2) eqn:F2.
  - rewrite (same_value_leb _ _ _ _ (add_units k x1 Vk V1 Fk F1)
               (add_units k x2 Vk V2 Fk F2)).
    apply round_units_mono.
    pose proof (leb_units x1 x2 V1 V2 F1 F2 Hle). lia.
  - destruct x2 as [s2 | [ | ] | | s2 m2 e2]; try discriminate.
    + destruct x1 as [s1 | s1 | | [ | ] m1 e1]; discriminate.
    + replace (SFadd prec emax k (S754_infinity false)) with (S754_infinity false)
        by (destruct k; try discriminate; reflexivity).
      apply leb_infinity. apply add_not_nan; assumption.
    + destruct x1; discriminate.
  - destruct x1 as [s1 | [ | ] | | s1 m1 e1]; try discriminate.
    + replace (SFadd prec emax k (S754_infinity true)) with (S754_infinity true)
        by (destruct k; try discriminate; reflexivity).
      apply infinity_leb. apply add_not_nan; assumption.
    + destruct x2 as [s2 | s2 | | [ | ] m2 e2]; discriminate.
  - destruct x1 as [s1 | [ | ] | | s1 m1 e1]; try discriminate;
      destruct x2 as [s2 | [ | ] | | s2 m2 e2]; try discriminate;
      destruct k; try discriminate; reflexivity.
Qed.

(** Five times a float is the float nearest to five times its value. *)
Lemma mul_five_units (p : spec_float) :
  valid_binary prec emax p = true -> finite_or_zero p = true ->
  same_value (SFmul prec emax p (of_Z 5)) (round_units (5 * units p)).
Proof.
  intros Vp Fp.
  change (of_Z 5) with (S754_finite false 5629499534213120 (-50)).
  destruct p as [sp | sp | | sp mp ep]; try discriminate.
  - right. split; reflexivity.
  - left. cbn [SFmul units].
    pose proof (valid_mantissa _ _ _ Vp) as (Hep & _ & _).
    pose proof (round_at_valid_float sp mp ep Vp) as [_ Hc].
    assert (Hd : Zdigits2 (Zpos mp) <= Zdigits2 (Zpos (5 * mp)))
      by (apply Zdigits2_mono; lia).
    pose proof (fexp_mono _ _ (proj1 (Z.add_le_mono_r _ _ ep) Hd)) as Hfe.
    assert (He5 : ep <= fexp prec emax (Zdigits2 (Zpos (5 * mp)) + ep)) by lia.
    replace (xorb sp false) with sp by (destruct sp; reflexivity).
    replace (5 * cond_Zopp sp (Zpos mp * 2 ^ (ep + 1074)))
      with (cond_Zopp sp (Zpos (5 * mp) * 2 ^ (ep + 1074)))
      by (destruct sp; cbn [cond_Zopp]; lia).
    rewrite (round_units_scaled sp (5 * mp) ep Hep).
    rewrite (binary_round_round_at sp (5 * mp) ep ep (Z.le_refl _) He5).
    rewrite Z.sub_diag, Z.pow_0_r, Z.mul_1_r.
    replace (Zpos (mp * 5629499534213120)) with (Zpos (5 * mp) * 2 ^ 50) by lia.
    replace (ep + -50) with (ep - 50) by lia.
    assert (Hs : ep - 50 <= fexp prec emax (Zdigits2 (Zpos (5 * mp) * 2 ^ 50) + (ep - 50))).
    { rewrite Zdigits2_shift by lia.
      replace (Zdigits2 (Zpos (5 * mp)) + 50 + (ep - 50))
        with (Zdigits2 (Zpos (5 * mp)) + ep) by lia.
      lia. }
    rewrite binary_round_aux_round_at by (lia || exact Hs).
    apply round_at_shift; lia.
Qed.

Lemma mul_five_not_nan (p : spec_float) :
  valid_binary prec emax p = true -> is_nan p = false ->
  is_nan (SFmul prec emax p (of_Z 5)) = false.
Proof.
  intros Vp Np.
  destruct (finite_or_zero p) eqn:Fp.
  - rewrite (same_value_nan _ _ (mul_five_units p Vp Fp)).
    apply round_units_not_nan.
  - destruct p; try discriminate; reflexivity.
Qed.

(** Five times a smaller float is not more than five times a larger
    one. *)
Lemma mul_five_mono (p1 p2 : spec_float) :
  valid_binary prec emax p1 = true -> valid_binary prec emax p2 = true ->
  SFleb p1 p2 = true ->
  SFleb (SFmul prec emax p1 (of_Z 5)) (SFmul prec emax p2 (of_Z 5)) = true.
Proof.
  intros V1 V2 Hle.
  destruct (geb_not_nan p2 p1 Hle) as [N2 N1].
  destruct (finite_or_zero p1) eqn:F1, (finite_or_zero p2) eqn:F2.
  - rewrite (same_value_leb _ _ _ _ (mul_five_units p1 V1 F1) (mul_five_units p2 V2 F2)).
    apply round_units_mono.
    pose proof (leb_units p1 p2 V1 V2 F1 F2 Hle). lia.
  - destruct p2 as [s2 | [ | ] | | s2 m2 e2]; try discriminate.
    + destruct p1 as [s1 | s1 | | [ | ] m1 e1]; discriminate.
    + change (SFmul prec emax (S754_infinity false) (of_Z 5)) with (S754_infinity false).
      apply leb_infinity. apply mul_five_not_nan; assumption.
  - destruct p1 as [s1 | [ | ] | | s1 m1 e1]; try discriminate.
    + change (SFmul prec emax (S754_infinity true) (of_Z 5)) with (S754_infinity true).
      apply infinity_leb. apply mul_five_not_nan; assumption.
    + destruct p2 as [s2 | s2 | | [ | ] m2 e2]; discriminate.
  - destruct p1 as [s1 | [ | ] | | s1 m1 e1]; try discriminate;
      destruct p2 as [s2 | [ | ] | | s2 m2 e2]; try discriminate; reflexivity.
Qed.

End PerformanceTerm.

Lemma weights_total_valid (b1 b2 b3 b4 b5 b6 : bool) :
  Float64.valid (of_Z (weights_total b1 b2 b3 b4 b5 b6)) = true
  /\ finite_or_zero (of_Z (weights_total b1 b2 b3 b4 b5 b6)) = true.
Proof. destruct b1, b2, b3, b4, b5, b6; split; vm_compute; reflexivity. Qed.

(** On a score of whole points a performance score of zero adds
    nothing, as the guard of the scorer has it. *)
Lemma add_performance_term (d : Designer) (p : float) (b1 b2 b3 b4 b5 b6 : bool) :
  add_performance (with_performance d (Some p)) (of_Z (weights_total b1 b2 b3 b4 b5 b6))
  = Float64.add (of_Z (weights_total b1 b2 b3 b4 b5 b6)) (Float64.mul p (of_Z 5)).
Proof.
  unfold add_performance. cbn [with_performance performance_score].
  destruct p as [[ | ] | s | | s m e]; cbn [Float64.truthy]; try reflexivity;
    destruct b1, b2, b3, b4, b5, b6; vm_compute; reflexivity.
Qed.

(** X7.  The score grows with the performance score.  For a designer whose
    list attributes are lists of strings and two performance scores,
    floats of the format with the first [<=] the second, the scorer
    returns a score for each, and the score for the first is [<=] the
    score for the second: rounding never reverses the order. *)
Theorem score_monotone_in_performance (c : Campaign) (d : Designer) (p1 p2 : float) :
  well_typed d = true ->
  Float64.valid p1 = true -> Float64.valid p2 = true ->
  Float64.leb p1 p2 = true ->
  exists s1 s2,
    calculate_match_score c (with_performance d (Some p1)) = Ok s1
    /\ calculate_match_score c (with_performance d (Some p2)) = Ok s2
    /\ Float64.leb s1 s2 = true.
Proof.
  intros Hd V1 V2 Hle.
  destruct (criteria_score_well_typed c d Hd) as (b2 & b3 & b5 & _ & _ & _ & E).
  rewrite !calculate_match_score_eq.
  change (criteria_score c (with_performance d (Some p1))) with (criteria_score c d).
  change (criteria_score c (with_performance d (Some p2))) with (criteria_score c d).
  rewrite E. cbn [bind]. rewrite !add_performance_term.
  eexists. eexists. split; [reflexivity | ]. split; [reflexivity | ].
  destruct (weights_total_valid (budget_ok c d) b2 b3 (interactivity_ok c d) b5
              (timeline_ok c d)) as [Vk Fk].
  apply add_mono_right; try assumption.
  - apply mul_valid; [assumption | reflexivity].
  - apply mul_valid; [assumption | reflexivity].
  - apply mul_five_mono; assumption.
Qed.

Lemma score_monotone_in_performance_witness :
  exists s1 s2,
    calculate_match_score Scenario.campaign
      (with_performance (Scenario.designer_with_rate 400) (Some (of_decimal false 8 (-1))))
    = Ok s1
    /\ calculate_match_score Scenario.campaign
         (with_performance (Scenario.designer_with_rate 400) (Some (of_Z 1)))
       = Ok s2
    /\ Float64.leb s1 s2 = true.
Proof.
  apply (score_monotone_in_performance Scenario.campaign
           (Scenario.designer_with_rate 400) (of_decimal false 8 (-1)) (of_Z 1));
    vm_compute; reflexivity.
Defined.

(** X8.  With a performance score between 0 and 1, for which the
    performance term is worth up to its 5 points, the score of a
    designer whose list attributes are lists of strings lies between 0
    and 100. *)
Theorem score_within_hundred (c : Campaign) (d : Designer) (p : float) :
  well_typed d = true ->
  Float64.valid p = true ->
  Float64.geb p (of_Z 0) = true ->
  Float64.leb p (of_Z 1) = true ->
  exists s,
    calculate_match_score c (with_performance d (Some p)) = Ok s
    /\ Float64.geb s (of_Z 0) = true
    /\ Float64.leb s (of_Z 100) = true.
Proof.
  intros Hd Vp H0 H1.
  destruct (criteria_score_well_typed c d Hd) as (b2 & b3 & b5 & _ & _ & _ & E).
  rewrite calculate_match_score_eq.
  change (criteria_score c (with_performance d (Some p))) with (criteria_score c d).
  rewrite E. cbn [bind]. rewrite add_performance_term.
  eexists. split; [reflexivity | ].
  destruct (weights_total_valid (budget_ok c d) b2 b3 (interactivity_ok c d) b5
              (timeline_ok c d)) as [Vk Fk].
  set (k := of_Z (weights_total (budget_ok c d) b2 b3 (interactivity_ok c d) b5
                    (timeline_ok c d))) in *.
  assert (Hlo : Float64.leb (Float64.add k (Float64.mul (of_Z 0) (of_Z 5)))
                  (Float64.add k (Float64.mul p (of_Z 5))) = true).
  { apply add_mono_right; try assumption.
    - reflexivity.
    - apply mul_valid; [assumption | reflexivity].
    - apply mul_five_mono; [reflexivity | assumption | exact H0]. }
  assert (Hhi : Float64.leb (Float64.add k (Float64.mul p (of_Z 5)))
                  (Float64.add k (Float64.mul (of_Z 1) (of_Z 5))) = true).
  { apply add_mono_right; try assumption.
    - apply mul_valid; [assumption | reflexivity].
    - reflexivity.
    - apply mul_five_mono; [assumption | reflexivity | exact H1]. }
  split.
  - unfold Float64.geb. fold (Float64.leb (of_Z 0) (Float64.add k (Float64.mul p (of_Z 5)))).
    apply (leb_trans _ (Float64.add k (Float64.mul (of_Z 0) (of_Z 5))) _);
      [ | exact Hlo].
    unfold k.
    destruct (budget_ok c d), b2, b3, (interactivity_ok c d), b5, (timeline_ok c d);
      vm_compute; reflexivity.
  - apply (leb_trans _ (Float64.add k (Float64.mul (of_Z 1) (of_Z 5))) _);
      [exact Hhi | ].
    unfold k.
    destruct (budget_ok c d), b2, b3, (interactivity_ok c d), b5, (timeline_ok c d);
      vm_compute; reflexivity.
Qed.

Lemma score_within_hundred_witness :
  exists s,
    calculate_match_score Scenario.campaign
      (with_performance (Scenario.designer_with_rate 400) (Some (of_decimal false 8 (-1))))
    = Ok s
    /\ Float64.geb s (of_Z 0) = true
    /\ Float64.leb s (of_Z 100) = true.
Proof.
  apply (score_within_hundred Scenario.campaign
           (Scenario.designer_with_rate 400) (of_decimal false 8 (-1)));
    vm_compute; reflexivity.
Defined.

(* ------------------------------------------------------------------------- *)
(** ** More on the selector *)
(* ------------------------------------------------------------------------- *)

Section SortFilter.

Context {A : Type}.
Variable key : A -> float.
Variable t : float.

Let reaches (x : A) : bool := Float64.geb (key x) t.

Lemma filter_insert (x : A) (l : list A) :
  is_nan (key x) = false ->
  Forall (fun y => is_nan (key y) = false) l ->
  filter reaches (PySort.insert key x l)
  = if reaches x then PySort.insert key x (filter reaches l) else filter reaches l.
Proof.
  intros Hx Hl. induction Hl as [ | y l Hy Hl IH].
  - cbn. destruct (reaches x); reflexivity.
  - cbn [PySort.insert filter].
    destruct (Float64.ltb (key y) (key x)) eqn:E.
    + cbn [filter]. rewrite IH.
      destruct (reaches y) eqn:Ry, (reaches x) eqn:Rx; try reflexivity.
      cbn [PySort.insert]. rewrite E. reflexivity.
    + cbn [filter].
      destruct (reaches x) eqn:Rx; [ | reflexivity].
      assert (Ry : reaches y = true).
      { unfold reaches in *.
        apply (geb_trans _ (key x)); [ | exact Rx].
        apply not_ltb_geb; assumption. }
      rewrite Ry. cbn [PySort.insert]. rewrite E. reflexivity.
Qed.

Lemma sort_not_nan (l : list A) :
  Forall (fun y => is_nan (key y) = false) l ->
  Forall (fun y => is_nan (key y) = false) (PySort.sort key l).
Proof.
  intros H. apply Forall_forall. intros y Hy.
  apply (Permutation_in _ (sort_perm key l)) in Hy.
  revert y Hy. apply Forall_forall. exact H.
Qed.

Lemma filter_sort (l : list A) :
  Forall (fun y => is_nan (key y) = false) l ->
  filter reaches (PySort.sort key l) = PySort.sort key (filter reaches l).
Proof.
  induction 1 as [ | x l Hx Hl IH]; [reflexivity | ].
  cbn [PySort.sort filter].
  rewrite filter_insert by (auto using sort_not_nan).
  rewrite IH. destruct (reaches x); reflexivity.
Qed.

Lemma filter_sort_reverse (l : list A) :
  Forall (fun y => is_nan (key y) = false) l ->
  filter reaches (PySort.sort_reverse key l)
  = PySort.sort_reverse key (filter reaches l).
Proof.
  intros H. unfold PySort.sort_reverse.
  rewrite filter_rev, filter_sort, filter_rev; [reflexivity | ].
  apply Forall_rev. exact H.
Qed.

End SortFilter.

Section SelectorErrors.

Variable campaign : Campaign.

(** When the loop completes: every row has a score, and every row that
    reaches the threshold is one [DesignerOut] accepts. *)
Lemma score_designers_returns_iff (t : float) (rows : list Designer)
    (acc : list ScoredDesigner) :
  (exists res, score_designers campaign t rows acc = Ok res)
  <-> Forall (fun d => exists s,
                calculate_match_score campaign (normalize_row d) = Ok s
                /\ (Float64.geb s t = true -> valid_row d = true)) rows.
Proof.
  revert acc. induction rows as [ | d rows IH]; intros acc; cbn [score_designers].
  - split; eauto.
  - destruct (calculate_match_score campaign (normalize_row d)) as [s | e] eqn:E;
      cbn [bind].
    + destruct (Float64.geb s t) eqn:G.
      * fold (valid_row d). destruct (valid_row d) eqn:V.
        -- rewrite IH. split.
           ++ intros H. constructor; [ | assumption].
              exists s. split; [exact E | intros _; exact V].
           ++ intros H. inversion H; assumption.
        -- split.
           ++ intros [res H]. discriminate.
           ++ intros H. inversion H as [ | ? ? (s' & Hs' & Hv) _]; subst.
              assert (s' = s) by congruence. subst s'.
              specialize (Hv G). congruence.
      * rewrite IH. split.
        -- intros H. constructor; [ | assumption].
           exists s. split; [exact E | congruence].
        -- intros H. inversion H; assumption.
    + split.
      * intros [res H]. discriminate.
      * intros H. inversion H as [ | ? ? (s' & Hs' & _) _]. congruence.
Qed.


Lemma selected_filter (t1 t2 : float) (rows : list Designer) :
  Float64.geb t2 t1 = true ->
  selected campaign t2 rows
  = filter (fun sd => Float64.geb (score sd) t2) (selected campaign t1 rows).
Proof.
  intros Ht. induction rows as [ | d rows IH]; [reflexivity | ].
  cbn [selected].
  destruct (calculate_match_score campaign (normalize_row d)) as [s | e]; [ | exact IH].
  destruct (Float64.geb s t1) eqn:G1.
  - cbn [filter score entry]. destruct (Float64.geb s t2); rewrite IH; reflexivity.
  - destruct (Float64.geb s t2) eqn:G2; [ | exact IH].
    rewrite (geb_trans _ _ _ G2 Ht) in G1. discriminate.
Qed.

End SelectorErrors.

(** X10.  Raising the threshold only removes entries.  If [match_designers]
    returns a result for a threshold, then for every threshold that is
    [>=] it (and the same campaign) it returns the entries of that
    result whose score reaches the new threshold, in the same order. *)
Theorem raising_threshold_filters (db : Database) (id : Z) (t1 t2 : float)
    (res : list ScoredDesigner) :
  match_designers db {| request_campaign_id := id; threshold := t1 |} = Ok res ->
  Float64.geb t2 t1 = true ->
  match_designers db {| request_campaign_id := id; threshold := t2 |}
  = Ok (filter (fun sd => Float64.geb (score sd) t2) res).
Proof.
  unfold match_designers. cbn [request_campaign_id threshold].
  destruct (fetch_campaign db id) as [[c | ] | e]; cbn [bind]; try discriminate.
  intros H Ht.
  destruct (score_designers c t1 (designers db) []) as [l | e] eqn:E1;
    cbn [bind] in H; [ | discriminate].
  injection H as <-.
  assert (R2 : exists l2, score_designers c t2 (designers db) [] = Ok l2).
  { apply score_designers_returns_iff.
    assert (R1 : exists l1, score_designers c t1 (designers db) [] = Ok l1) by eauto.
    apply score_designers_returns_iff in R1.
    revert R1. apply Forall_impl. intros d (s & Hs & Hv).
    exists s. split; [exact Hs | ]. intros G. apply Hv.
    exact (geb_trans _ _ _ G Ht). }
  destruct R2 as [l2 E2]. rewrite E2. cbn [bind].
  apply score_designers_ok in E1. destruct E1 as [-> _].
  apply score_designers_ok in E2. destruct E2 as [-> _].
  cbn [app]. rewrite (selected_filter c t1 t2 (designers db) Ht).
  rewrite filter_sort_reverse; [reflexivity | ].
  apply Forall_forall. intros sd Hsd.
  pose proof (selected_scores c t1 (designers db)) as HF.
  rewrite Forall_forall in HF. apply HF in Hsd.
  apply geb_not_nan in Hsd. tauto.
Qed.

Lemma raising_threshold_filters_witness :
  match_designers Scenario.database
    {| request_campaign_id := 1; threshold := of_Z 80 |}
  = Ok (filter (fun sd => Float64.geb (score sd) (of_Z 80))
          [entry (Scenario.row 3 400) (of_Z 99); entry (Scenario.row 1 600) (of_Z 79)]).
Proof.
  apply (raising_threshold_filters Scenario.database 1 default_threshold (of_Z 80));
    vm_compute; reflexivity.
Defined.



(* ------------------------------------------------------------------------- *)
(** ** The database file *)
(* ------------------------------------------------------------------------- *)

Section Rowids.

Context {R : Type}.
Variable rowid : R -> Z.

Lemma largest_rowid_bound (l : list R) :
  Forall (fun r => (rowid r <= Sqlite.largest_rowid rowid l)%Z) l.
Proof.
  induction l as [ | r l IH]; constructor;
    unfold Sqlite.largest_rowid; cbn [fold_right];
    fold (Sqlite.largest_rowid rowid l).
  - lia.
  - revert IH. apply Forall_impl. intros r'. lia.
Qed.

Lemma next_rowid_fresh (t : Sqlite.table R) :
  Forall (fun r => (rowid r < Sqlite.next_rowid rowid t)%Z) (Sqlite.rows t)
  /\ (Sqlite.sequence t < Sqlite.next_rowid rowid t)%Z.
Proof.
  unfold Sqlite.next_rowid. split; [ | lia].
  pose proof (largest_rowid_bound (Sqlite.rows t)) as H.
  revert H. apply Forall_impl. intros r. lia.
Qed.

End Rowids.

Section CampaignRows.


Lemma campaigns_out_app (l : list CampaignRow.t) (r : CampaignRow.t) :
  campaigns_out (l ++ [r])
  = (outs <-- campaigns_out l ;; out <-- campaign_out r ;; Returns (outs ++ [out])).
Proof.
  induction l as [ | r' l IH]; cbn [app campaigns_out and_then].
  - destruct (campaign_out r); reflexivity.
  - destruct (campaign_out r') as [o | e]; cbn [and_then]; [ | reflexivity].
    rewrite IH.
    destruct (campaigns_out l) as [os | e]; cbn [and_then]; [ | reflexivity].
    destruct (campaign_out r); reflexivity.
Qed.


Lemma campaigns_out_ids (l : list CampaignRow.t) (outs : list CampaignOut.t) :
  campaigns_out l = Returns outs ->
  map CampaignOut.id outs = map CampaignRow.id l.
Proof.
  revert outs. induction l as [ | r l IH]; cbn [campaigns_out]; intros outs H.
  - injection H as <-. reflexivity.
  - destruct (campaign_out r) as [o | e] eqn:E; cbn [and_then] in H; [ | discriminate].
    destruct (campaigns_out l) as [os | e]; cbn [and_then] in H; [ | discriminate].
    injection H as <-. cbn [map]. rewrite (IH os eq_refl). f_equal.
    destruct r as [id [b | ] [a | ] [p | ] [i | ] [s | ] [tl | ] [st | ]];
      cbn in E; try discriminate.
    injection E as <-. reflexivity.
Qed.

Lemma bind_text_encodable (s : pystr) :
  Sqlite.encodable s = true -> Sqlite.bind_text s = Returns s.
Proof. unfold Sqlite.bind_text. intros ->. reflexivity. Qed.

Lemma bind_integer_fits (z : Z) :
  Sqlite.fits_int64 z = true -> Sqlite.bind_integer z = Returns z.
Proof. unfold Sqlite.bind_integer. intros ->. reflexivity. Qed.

Lemma real_column_as_written (f : float) :
  stored_as_written f = true -> Sqlite.real_column f = Some f.
Proof. destruct f as [[ | ] | | | ]; cbn; intros H; try discriminate H; reflexivity. Qed.

(** What [create_campaign] does once its parameters are bound. *)
Lemma create_campaign_binds (db : DatabaseFile) (t : Sqlite.table CampaignRow.t)
    (campaign : CampaignCreate.t) (stamp : pystr) :
  campaigns_table db = Some t ->
  campaign_binds campaign stamp = true ->
  let id := Sqlite.next_rowid CampaignRow.id t in
  let row :=
    {| CampaignRow.id := id;
       CampaignRow.budget := Sqlite.real_column (CampaignCreate.budget campaign);
       CampaignRow.ambiance := Some (CampaignCreate.ambiance campaign);
       CampaignRow.platform_pref := Some (CampaignCreate.platform_pref campaign);
       CampaignRow.interactivity := Some (CampaignCreate.interactivity campaign);
       CampaignRow.style := Some (CampaignCreate.style campaign);
       CampaignRow.timeline := Some (CampaignCreate.timeline campaign);
       CampaignRow.submitted_at := Some stamp |} in
  create_campaign db campaign stamp
  = Returns ({| campaigns_table :=
                  Some {| Sqlite.rows := Sqlite.rows t ++ [row]; Sqlite.sequence := id |};
                designers_table := designers_table db |},
             {| CampaignOut.fields := campaign;
                CampaignOut.id := id;
                CampaignOut.submitted_at := stamp |}).
Proof.
  intros Ht Hb. unfold campaign_binds in Hb.
  repeat (apply andb_prop in Hb; destruct Hb as [Hb ?]).
  unfold create_campaign. rewrite Ht.
  rewrite !bind_text_encodable, bind_integer_fits by assumption.
  reflexivity.
Qed.

Lemma create_campaign_returns (db db' : DatabaseFile) (campaign : CampaignCreate.t)
    (stamp : pystr) (out : CampaignOut.t) :
  create_campaign db campaign stamp = Returns (db', out) ->
  exists t, campaigns_table db = Some t /\ campaign_binds campaign stamp = true.
Proof.
  unfold create_campaign, campaign_binds, Sqlite.bind_text, Sqlite.bind_integer.
  destruct (campaigns_table db) as [t | ]; [ | discriminate].
  intros H. exists t. split; [reflexivity | ].
  repeat match type of H with
    | context [if ?b then _ else _] => destruct b; cbn [and_then] in H;
                                       [ | discriminate]
    end.
  reflexivity.
Qed.

End CampaignRows.

(** X13.  A campaign that is created is listed.  When the listing works, the
    strings of the new campaign hold no surrogate, its interactivity
    fits 64 bits and its budget is neither a NaN nor the negative zero,
    [create_campaign] returns the record it was given with an id greater
    than every id listed before, and the next listing is the previous one
    followed by that record.  The designers are left as they were. *)
Theorem created_campaign_is_listed (db : DatabaseFile) (campaign : CampaignCreate.t)
    (stamp : pystr) (listed : list CampaignOut.t) :
  list_campaigns db = Returns listed ->
  campaign_binds campaign stamp = true ->
  stored_as_written (CampaignCreate.budget campaign) = true ->
  exists db' out,
    create_campaign db campaign stamp = Returns (db', out)
    /\ CampaignOut.fields out = campaign
    /\ CampaignOut.submitted_at out = stamp
    /\ Forall (fun o => (CampaignOut.id o < CampaignOut.id out)%Z) listed
    /\ list_campaigns db' = Returns (listed ++ [out])
    /\ designers_table db' = designers_table db
    /\ list_designers db' = list_designers db.
Proof.
  unfold list_campaigns. intros Hl Hb Hw.
  destruct (campaigns_table db) as [t | ] eqn:Ht; [ | discriminate].
  pose proof (create_campaign_binds db t campaign stamp Ht Hb) as Hc.
  cbv zeta in Hc. rewrite (real_column_as_written _ Hw) in Hc.
  eexists. eexists. split; [exact Hc | ].
  cbn [CampaignOut.fields CampaignOut.submitted_at CampaignOut.id
       campaigns_table designers_table Sqlite.rows list_designers].
  repeat (split; [reflexivity | ]).
  split; [ | split; [ | split; reflexivity]].
  - apply Forall_forall. intros o Ho.
    apply (in_map CampaignOut.id) in Ho.
    rewrite (campaigns_out_ids _ _ Hl) in Ho.
    apply in_map_iff in Ho. destruct Ho as (r & <- & Hr).
    pose proof (proj1 (next_rowid_fresh CampaignRow.id t)) as HF.
    rewrite Forall_forall in HF. exact (HF r Hr).
  - rewrite campaigns_out_app, Hl. cbn [and_then campaign_out].
    destruct campaign. reflexivity.
Qed.

Lemma created_campaign_is_listed_witness :
  exists db' out,
    create_campaign Registry.file Registry.campaign Registry.stamp = Returns (db', out)
    /\ CampaignOut.fields out = Registry.campaign
    /\ CampaignOut.submitted_at out = Registry.stamp
    /\ Forall (fun o => (CampaignOut.id o < CampaignOut.id out)%Z)
         [{| CampaignOut.fields := Registry.campaign;
             CampaignOut.id := 1;
             CampaignOut.submitted_at := Registry.stamp |}]
    /\ list_campaigns db'
       = Returns ([{| CampaignOut.fields := Registry.campaign;
                      CampaignOut.id := 1;
                      CampaignOut.submitted_at := Registry.stamp |}] ++ [out])
    /\ designers_table db' = designers_table Registry.file
    /\ list_designers db' = list_designers Registry.file.
Proof.
  apply (created_campaign_is_listed Registry.file Registry.campaign Registry.stamp);
    reflexivity.
Defined.



Section DesignerRows.

Lemma designers_out_spec (rows : list Designer) :
  forall result : list DesignerOut,
    designers_out rows result
    = if forallb valid_row rows
      then Returns (result ++ map (fun d => designer_out (normalize_row d)) rows)
      else Raises (Python ValidationError).
Proof.
  induction rows as [ | d rows IH]; intros result; cbn [designers_out forallb map].
  - rewrite app_nil_r. reflexivity.
  - fold (valid_row d). destruct (valid_row d); cbn [andb]; [ | reflexivity].
    rewrite IH, <- app_assoc. reflexivity.
Qed.

Lemma designers_out_app (rows : list Designer) (d : Designer) (listed : list DesignerOut) :
  designers_out rows [] = Returns listed ->
  designers_out (rows ++ [d]) []
  = if valid_row d then Returns (listed ++ [designer_out (normalize_row d)])
    else Raises (Python ValidationError).
Proof.
  rewrite !designers_out_spec, forallb_app. cbn [forallb app].
  destruct (forallb valid_row rows); [ | discriminate].
  intros H. injection H as <-. cbn [andb]. rewrite andb_true_r.
  destruct (valid_row d); [ | reflexivity].
  rewrite map_app. reflexivity.
Qed.

Lemma designers_out_ids (rows : list Designer) (listed : list DesignerOut) :
  designers_out rows [] = Returns listed ->
  map out_id listed = map designer_id rows.
Proof.
  rewrite designers_out_spec. destruct (forallb valid_row rows); [ | discriminate].
  intros H. injection H as <-. cbn [app]. rewrite map_map. reflexivity.
Qed.

(** What [create_designer] does once its parameters are bound. *)
Lemma create_designer_binds (db : DatabaseFile) (t : Sqlite.table Designer)
    (designer : DesignerCreate.t) :
  designers_table db = Some t ->
  designer_binds designer = true ->
  let id := Sqlite.next_rowid designer_id t in
  create_designer db designer
  = Returns ({| campaigns_table := campaigns_table db;
                designers_table :=
                  Some {| Sqlite.rows := Sqlite.rows t ++ [designer_row designer id];
                          Sqlite.sequence := id |} |},
             created_out designer id).
Proof.
  intros Ht Hb. unfold designer_binds in Hb.
  repeat (apply andb_prop in Hb; destruct Hb as [Hb ?]).
  unfold create_designer. rewrite Ht.
  rewrite !serialize_list_binds.
  rewrite !bind_text_encodable, bind_integer_fits by assumption.
  reflexivity.
Qed.

Lemma create_designer_returns (db db' : DatabaseFile) (designer : DesignerCreate.t)
    (out : DesignerOut) :
  create_designer db designer = Returns (db', out) ->
  exists t, designers_table db = Some t /\ designer_binds designer = true.
Proof.
  unfold create_designer. rewrite !serialize_list_binds.
  unfold designer_binds, Sqlite.bind_text, Sqlite.bind_integer.
  destruct (designers_table db) as [t | ]; [ | discriminate].
  intros H. exists t. split; [reflexivity | ].
  repeat match type of H with
    | context [if ?b then _ else _] => destruct b; cbn [and_then] in H;
                                       [ | discriminate]
    end.
  reflexivity.
Qed.

Lemma forallb_json_safe (l : list pystr) :
  forallb json_safe l = true -> Forall (fun s => json_safe s = true) l.
Proof. intros H. apply Forall_forall. apply forallb_forall. exact H. Qed.

(** The stored row of a designer whose lists survive the codec
    normalizes to the designer in memory, but for what the REAL columns
    do to its two floats. *)
Lemma normalize_designer_row (designer : DesignerCreate.t) (id : Z) :
  lists_json_safe designer = true ->
  normalize_row (designer_row designer id)
  = with_performance
      (with_rate_tier (in_memory designer id)
         (Sqlite.real_column (DesignerCreate.rate_tier designer)))
      (Sqlite.real_column (DesignerCreate.performance_score designer)).
Proof.
  unfold lists_json_safe. intros H.
  apply andb_prop in H. destruct H as [H H3].
  apply andb_prop in H. destruct H as [H1 H2].
  unfold normalize_row, designer_row, with_performance, with_rate_tier, in_memory.
  cbn [designer_id name rate_tier scene_tags export_formats game_logic_experience
       visual_metadata availability performance_score].
  rewrite !deserialize_serialize by (apply forallb_json_safe; assumption).
  reflexivity.
Qed.


End DesignerRows.

(** X15.  A designer that is created is listed.  When the listing works, the
    name and the availability hold no surrogate, the experience fits 64
    bits, the rate and the performance score are neither a NaN nor the
    negative zero, and no string of the three lists holds a high
    surrogate immediately followed by a low one, [create_designer]
    returns the record it was given with an id greater than every id
    listed before, and the next listing is the previous one followed by
    that record.  The campaigns are left as they were. *)
Theorem created_designer_is_listed (db : DatabaseFile) (designer : DesignerCreate.t)
    (listed : list DesignerOut) :
  list_designers db = Returns listed ->
  designer_binds designer = true ->
  lists_json_safe designer = true ->
  stored_as_written (DesignerCreate.rate_tier designer) = true ->
  stored_as_written (DesignerCreate.performance_score designer) = true ->
  exists db' id,
    create_designer db designer = Returns (db', created_out designer id)
    /\ Forall (fun o => (out_id o < id)%Z) listed
    /\ validates (created_out designer id) = true
    /\ list_designers db' = Returns (listed ++ [created_out designer id])
    /\ campaigns_table db' = campaigns_table db
    /\ list_campaigns db' = list_campaigns db.
Proof.
  unfold list_designers. intros Hl Hb Hj Hr Hp.
  destruct (designers_table db) as [t | ] eqn:Ht; [ | discriminate].
  pose proof (create_designer_binds db t designer Ht Hb) as Hc. cbv zeta in Hc.
  eexists. eexists. split; [exact Hc | ].
  cbn [campaigns_table designers_table Sqlite.rows list_campaigns].
  assert (Hout : designer_out
                   (normalize_row
                      (designer_row designer (Sqlite.next_rowid designer_id t)))
                 = created_out designer (Sqlite.next_rowid designer_id t)).
  { rewrite normalize_designer_row by exact Hj.
    rewrite !real_column_as_written by assumption.
    unfold designer_out, created_out, with_performance, with_rate_tier, in_memory.
    cbn [designer_id name rate_tier scene_tags export_formats game_logic_experience
         visual_metadata availability performance_score].
    f_equal.
    destruct (DesignerCreate.performance_score designer) as [[ | ] | | | ];
      try reflexivity; discriminate. }
  assert (Hv : validates (created_out designer (Sqlite.next_rowid designer_id t)) = true).
  { unfold validates, created_out.
    cbn [out_rate_tier out_scene_tags out_export_formats out_game_logic_experience
         out_visual_metadata out_availability is_some].
    rewrite !is_str_list_str_list. reflexivity. }
  split; [ | split; [exact Hv | split; [ | split; reflexivity]]].
  - apply Forall_forall. intros o Ho.
    apply (in_map out_id) in Ho.
    rewrite (designers_out_ids _ _ Hl) in Ho.
    apply in_map_iff in Ho. destruct Ho as (r & <- & Hin).
    pose proof (proj1 (next_rowid_fresh designer_id t)) as HF.
    rewrite Forall_forall in HF. exact (HF r Hin).
  - rewrite (designers_out_app _ _ _ Hl).
    unfold valid_row. rewrite Hout, Hv. reflexivity.
Qed.

Lemma created_designer_is_listed_witness :
  exists db' id,
    create_designer Registry.file Registry.designer
    = Returns (db', created_out Registry.designer id)
    /\ Forall (fun o => (out_id o < id)%Z)
         [designer_out (normalize_row (Scenario.row 1 600))]
    /\ validates (created_out Registry.designer id) = true
    /\ list_designers db'
       = Returns ([designer_out (normalize_row (Scenario.row 1 600))]
                  ++ [created_out Registry.designer id])
    /\ campaigns_table db' = campaigns_table Registry.file
    /\ list_campaigns db' = list_campaigns Registry.file.
Proof.
  apply (created_designer_is_listed Registry.file Registry.designer);
    reflexivity.
Defined.





(* ------------------------------------------------------------------------- *)
(** ** The match endpoint on the file *)
(* ------------------------------------------------------------------------- *)

Section StoredRows.

(** A fetched campaign with a budget is scored as the typed campaign. *)
Lemma stored_score_typed (row : CampaignRow.t) (b : float) (d : Designer) :
  CampaignRow.budget row = Some b ->
  Stored.calculate_match_score row d = calculate_match_score (typed_campaign row b) d.
Proof.
  intros H. unfold Stored.calculate_match_score, calculate_match_score.
  unfold Stored.budget_ok, budget_ok. rewrite H.
  destruct (rate_tier d); reflexivity.
Qed.


Lemma stored_score_designers_ext (row : CampaignRow.t) (c : Campaign) :
  (forall d, Stored.calculate_match_score row d = calculate_match_score c d) ->
  forall t rows acc,
    Stored.score_designers row t rows acc = score_designers c t rows acc.
Proof.
  intros H t rows. induction rows as [ | d rows IH]; intros acc;
    cbn [Stored.score_designers score_designers]; [reflexivity | ].
  rewrite H.
  destruct (calculate_match_score c (normalize_row d)) as [s | e]; cbn [bind];
    [ | reflexivity].
  destruct (Float64.geb s t); [ | apply IH].
  destruct (validates _); [apply IH | reflexivity].
Qed.

(** The sign of a zero budget, which the REAL column drops, plays no
    part in the comparison with a rate. *)
Lemma geb_stored_budget (b b' r : float) :
  Sqlite.real_column b = Some b' -> Float64.geb b' r = Float64.geb b r.
Proof.
  destruct b as [s | s | | s m e]; cbn [Sqlite.real_column]; intros H;
    try discriminate H; injection H as <-; try reflexivity;
    destruct r as [ | | | [ | ] ? ?]; reflexivity.
Qed.

Lemma real_column_not_nan (f : float) :
  is_nan f = false -> exists f', Sqlite.real_column f = Some f'.
Proof. destruct f; cbn; intros H; try discriminate H; eauto. Qed.

Lemma find_row_fresh (rows : list CampaignRow.t) (row : CampaignRow.t) :
  Forall (fun r => (CampaignRow.id r < CampaignRow.id row)%Z) rows ->
  find (fun r => (CampaignRow.id r =? CampaignRow.id row)%Z) (rows ++ [row]) = Some row.
Proof.
  induction 1 as [ | r rows Hr H IH]; cbn [app find].
  - rewrite Z.eqb_refl. reflexivity.
  - destruct (Z.eqb_spec (CampaignRow.id r) (CampaignRow.id row)); [lia | exact IH].
Qed.

Lemma find_row_other (rows : list CampaignRow.t) (row : CampaignRow.t) (id : Z) :
  id <> CampaignRow.id row ->
  find (fun r => (CampaignRow.id r =? id)%Z) (rows ++ [row])
  = find (fun r => (CampaignRow.id r =? id)%Z) rows.
Proof.
  intros Hid. induction rows as [ | r rows IH]; cbn [app find].
  - destruct (Z.eqb_spec (CampaignRow.id row) id); [congruence | reflexivity].
  - destruct (CampaignRow.id r =? id)%Z; [reflexivity | exact IH].
Qed.

(** Looking up an id among the typed campaigns finds the row the table
    holds for it, provided that row has a budget. *)
Lemma find_typed_campaigns (rows : list CampaignRow.t) (id : Z) :
  (forall row,
     find (fun r => (CampaignRow.id r =? id)%Z) rows = Some row ->
     CampaignRow.budget row <> None) ->
  find (fun c => (campaign_id c =? id)%Z) (typed_campaigns rows)
  = match find (fun r => (CampaignRow.id r =? id)%Z) rows with
    | Some row =>
        match CampaignRow.budget row with
        | Some b => Some (typed_campaign row b)
        | None => None
        end
    | None => None
    end.
Proof.
  induction rows as [ | r rows IH]; intros H; cbn [typed_campaigns find];
    [reflexivity | ].
  cbn [find] in H.
  destruct (CampaignRow.id r =? id)%Z eqn:E.
  - destruct (CampaignRow.budget r) as [b | ] eqn:Hb.
    + cbn [find typed_campaign campaign_id]. rewrite E. reflexivity.
    + exfalso. apply (H r eq_refl). exact Hb.
  - destruct (CampaignRow.budget r) as [b | ].
    + cbn [find typed_campaign campaign_id]. rewrite E. apply IH. exact H.
    + apply IH. exact H.
Qed.

(** The endpoint on the file and [match_designers] on typed campaigns
    answer alike, for every request whose campaign row, if there is
    one, has a budget. *)
Lemma stored_match_designers_typed (db : DatabaseFile)
    (ct : Sqlite.table CampaignRow.t) (dt : Sqlite.table Designer)
    (req : MatchRequest) :
  campaigns_table db = Some ct ->
  designers_table db = Some dt ->
  (forall row,
     Stored.fetch_campaign ct (request_campaign_id req) = Returns (Some row) ->
     CampaignRow.budget row <> None) ->
  Stored.match_designers db req
  = of_result
      (match_designers
         {| campaigns := typed_campaigns (Sqlite.rows ct);
            designers := Sqlite.rows dt |} req).
Proof.
  intros Hct Hdt H.
  unfold Stored.match_designers, match_designers, fetch_campaign.
  rewrite Hct, Hdt. cbn [campaigns designers].
  unfold Stored.fetch_campaign, Sqlite.bind_integer in H |- *.
  destruct (Sqlite.fits_int64 (request_campaign_id req));
    cbn [and_then bind] in H |- *; [ | reflexivity].
  rewrite find_typed_campaigns
    by (intros row Hrow; apply H; rewrite Hrow; reflexivity).
  destruct (find _ (Sqlite.rows ct)) as [row | ]; [ | reflexivity].
  destruct (CampaignRow.budget row) as [b | ] eqn:Hb.
  - rewrite (stored_score_designers_ext row (typed_campaign row b))
      by (intros d; apply stored_score_typed; exact Hb).
    reflexivity.
  - exfalso. apply (H row eq_refl). exact Hb.
Qed.


End StoredRows.

(** X18.  A campaign that is created can be matched.  After
    [create_campaign] has returned a record whose budget is no NaN and
    whose id is a 64-bit integer (as the ids of a table are),
    [match_designers] finds the campaign under the id of the record and
    scores the designer rows against the campaign of the record: it
    raises [OperationalError] when there is no designers table, and
    otherwise does what the loop and the sort do for that campaign.  A
    request for any other id is answered as before the campaign was
    created. *)
Theorem created_campaign_is_matched (db db' : DatabaseFile)
    (campaign : CampaignCreate.t) (stamp : pystr) (out : CampaignOut.t) :
  create_campaign db campaign stamp = Returns (db', out) ->
  is_nan (CampaignCreate.budget campaign) = false ->
  Sqlite.fits_int64 (CampaignOut.id out) = true ->
  (forall t,
     Stored.match_designers db'
       {| request_campaign_id := CampaignOut.id out; threshold := t |}
     = match designers_table db with
       | None => Raises OperationalError
       | Some designers =>
           of_result
             (scored <- score_designers (campaign_of_out out) t
                          (Sqlite.rows designers) [] ;;
              Ok (PySort.sort_reverse score scored))
       end)
  /\ (forall req,
        request_campaign_id req <> CampaignOut.id out ->
        Stored.match_designers db' req = Stored.match_designers db req).
Proof.
  intros Hc Hnan Hfits.
  destruct (create_campaign_returns _ _ _ _ _ Hc) as (ct & Ht & Hb).
  pose proof (create_campaign_binds db ct campaign stamp Ht Hb) as Hc'.
  cbv zeta in Hc'. rewrite Hc in Hc'. injection Hc' as -> ->.
  cbn [CampaignOut.id] in Hfits |- *.
  destruct (real_column_not_nan _ Hnan) as [b' Hb'].
  rewrite Hb'.
  set (id := Sqlite.next_rowid CampaignRow.id ct) in *.
  set (out := {| CampaignOut.fields := campaign; CampaignOut.id := id;
                 CampaignOut.submitted_at := stamp |}).
  match goal with
  | |- context [Sqlite.rows ct ++ [?r]] => set (row := r)
  end.
  split.
  - intros t. unfold Stored.match_designers, Stored.fetch_campaign, Sqlite.bind_integer.
    cbn [campaigns_table designers_table request_campaign_id threshold Sqlite.rows].
    rewrite Hfits. cbn [and_then].
    change id with (CampaignRow.id row).
    rewrite find_row_fresh
      by exact (proj1 (next_rowid_fresh CampaignRow.id ct)).
    destruct (designers_table db) as [dt | ]; [ | reflexivity].
    rewrite (stored_score_designers_ext row (campaign_of_out out)); [reflexivity | ].
    intros d. unfold Stored.calculate_match_score, calculate_match_score.
    unfold Stored.budget_ok, budget_ok.
    cbn [row CampaignRow.budget campaign_of_out out CampaignOut.fields budget].
    destruct (rate_tier d) as [r | ]; [ | reflexivity].
    rewrite (geb_stored_budget _ _ r Hb'). reflexivity.
  - intros req Hid. unfold Stored.match_designers, Stored.fetch_campaign.
    cbn [campaigns_table designers_table Sqlite.rows]. rewrite Ht.
    destruct (Sqlite.bind_integer (request_campaign_id req)) as [id' | e] eqn:B;
      cbn [and_then]; [ | reflexivity].
    assert (id' = request_campaign_id req) as ->.
    { unfold Sqlite.bind_integer in B.
      destruct (Sqlite.fits_int64 (request_campaign_id req));
        [injection B as <-; reflexivity | discriminate B]. }
    rewrite find_row_other by exact Hid. reflexivity.
Qed.

Lemma created_campaign_is_matched_witness :
  match create_campaign Registry.file Registry.campaign Registry.stamp with
  | Returns (db', out) =>
      (forall t,
         Stored.match_designers db'
           {| request_campaign_id := CampaignOut.id out; threshold := t |}
         = match designers_table Registry.file with
           | None => Raises OperationalError
           | Some designers =>
               of_result
                 (scored <- score_designers (campaign_of_out out) t
                              (Sqlite.rows designers) [] ;;
                  Ok (PySort.sort_reverse score scored))
           end)
      /\ (forall req,
            request_campaign_id req <> CampaignOut.id out ->
            Stored.match_designers db' req = Stored.match_designers Registry.file req)
  | Raises _ => False
  end.
Proof.
  destruct (create_campaign Registry.file Registry.campaign Registry.stamp)
    as [[db' out] | e] eqn:E.
  - assert (Hid : CampaignOut.id out = 2%Z).
    { vm_compute in E. injection E as _ <-. reflexivity. }
    apply (created_campaign_is_matched _ _ _ _ _ E); [reflexivity | ].
    rewrite Hid. reflexivity.
  - vm_compute in E. discriminate E.
Defined.



(* ------------------------------------------------------------------------- *)
(** ** The ids of the rows *)
(* ------------------------------------------------------------------------- *)

Section Numbering.

Context {R : Type}.
Variable rowid : R -> Z.

Lemma largest_rowid_numbered (t : Sqlite.table R) :
  numbered rowid t ->
  Sqlite.largest_rowid rowid (Sqlite.rows t) = Z.of_nat (List.length (Sqlite.rows t)).
Proof.
  intros [H _]. revert H. generalize (Sqlite.rows t). intros l.
  assert (G : forall (l : list R) (k : nat),
             map rowid l = map Z.of_nat (seq (S k) (List.length l)) ->
             Z.max (Z.of_nat k) (Sqlite.largest_rowid rowid l)
             = Z.of_nat (k + List.length l)).
  { clear l. induction l as [ | r l IH]; intros k H.
    - cbn. lia.
    - cbn [List.length seq map] in H. injection H as Hr Hl.
      unfold Sqlite.largest_rowid. cbn [fold_right List.length].
      fold (Sqlite.largest_rowid rowid l).
      specialize (IH (S k) Hl). lia. }
  intros H. specialize (G l 0%nat H). cbn [Z.of_nat Nat.add] in G.
  pose proof (largest_rowid_bound rowid l) as HB.
  assert (0 <= Sqlite.largest_rowid rowid l)%Z.
  { clear. induction l as [ | r l IH]; unfold Sqlite.largest_rowid; cbn [fold_right];
      [lia | fold (Sqlite.largest_rowid rowid l); lia]. }
  lia.
Qed.

Lemma insert_numbered (t : Sqlite.table R) (make : Z -> R) :
  numbered rowid t ->
  (forall id, rowid (make id) = id) ->
  snd (Sqlite.insert rowid t make) = Z.of_nat (S (List.length (Sqlite.rows t)))
  /\ numbered rowid (fst (Sqlite.insert rowid t make)).
Proof.
  intros Hn Hmake.
  pose proof (largest_rowid_numbered t Hn) as Hl.
  destruct Hn as [Hids Hseq].
  assert (Hid : Sqlite.next_rowid rowid t = Z.of_nat (S (List.length (Sqlite.rows t)))).
  { unfold Sqlite.next_rowid. rewrite Hseq, Hl. lia. }
  unfold Sqlite.insert. cbn [fst snd Sqlite.rows Sqlite.sequence].
  split; [exact Hid | ]. split; cbn [Sqlite.rows Sqlite.sequence].
  - rewrite map_app, length_app, Hids. cbn [map List.length].
    rewrite Hmake, Hid, Nat.add_1_r, seq_S, map_app. reflexivity.
  - rewrite Hid, length_app. cbn [List.length].
    f_equal. lia.
Qed.

End Numbering.

(** X20.  In a file whose two tables are numbered from 1 (as they are
    after [init_db] on a new file), every campaign and every designer
    that is created receives the number of rows of its table plus one as
    its id, and the tables stay numbered from 1: ids follow the order of
    creation, without gaps. *)
Theorem ids_count_from_one (db : DatabaseFile) :
  numbered_file db ->
  (forall campaign stamp db' out,
     create_campaign db campaign stamp = Returns (db', out) ->
     numbered_file db'
     /\ exists t, campaigns_table db = Some t
          /\ CampaignOut.id out = Z.of_nat (S (List.length (Sqlite.rows t))))
  /\ (forall designer db' out,
        create_designer db designer = Returns (db', out) ->
        numbered_file db'
        /\ exists t, designers_table db = Some t
             /\ out_id out = Z.of_nat (S (List.length (Sqlite.rows t)))).
Proof.
  unfold numbered_file. intros Hn.
  destruct (campaigns_table db) as [ct | ] eqn:Hct; [ | contradiction].
  destruct (designers_table db) as [dt | ] eqn:Hdt; [ | contradiction].
  destruct Hn as [Hc Hd]. split.
  - intros campaign stamp db' out H.
    destruct (create_campaign_returns _ _ _ _ _ H) as (t & Ht & Hb).
    pose proof (create_campaign_binds db t campaign stamp Ht Hb) as H'.
    cbv zeta in H'. rewrite H in H'. injection H' as -> ->.
    rewrite Hct in Ht. injection Ht as <-.
    cbn [campaigns_table designers_table CampaignOut.id]. rewrite Hdt.
    match goal with
    | |- context [Sqlite.rows ct ++ [?r]] =>
        pose proof (insert_numbered CampaignRow.id ct
                      (fun id => {| CampaignRow.id := id;
                                    CampaignRow.budget := CampaignRow.budget r;
                                    CampaignRow.ambiance := CampaignRow.ambiance r;
                                    CampaignRow.platform_pref := CampaignRow.platform_pref r;
                                    CampaignRow.interactivity := CampaignRow.interactivity r;
                                    CampaignRow.style := CampaignRow.style r;
                                    CampaignRow.timeline := CampaignRow.timeline r;
                                    CampaignRow.submitted_at := CampaignRow.submitted_at r |})
                      Hc (fun id => eq_refl)) as [Hid Hnum]
    end.
    cbn [Sqlite.insert fst snd CampaignRow.budget CampaignRow.ambiance
         CampaignRow.platform_pref CampaignRow.interactivity CampaignRow.style
         CampaignRow.timeline CampaignRow.submitted_at] in Hid, Hnum.
    split; [split; [exact Hnum | exact Hd] | ].
    exists ct. split; [reflexivity | exact Hid].
  - intros designer db' out H.
    destruct (create_designer_returns _ _ _ _ H) as (t & Ht & Hb).
    pose proof (create_designer_binds db t designer Ht Hb) as H'.
    cbv zeta in H'. rewrite H in H'. injection H' as -> ->.
    rewrite Hdt in Ht. injection Ht as <-.
    cbn [campaigns_table designers_table out_id created_out]. rewrite Hct.
    pose proof (insert_numbered designer_id dt (designer_row designer)
                  Hd (fun id => eq_refl)) as [Hid Hnum].
    cbn [Sqlite.insert fst snd] in Hid, Hnum.
    split; [split; [exact Hc | exact Hnum] | ].
    exists dt. split; [reflexivity | exact Hid].
Qed.

Lemma ids_count_from_one_witness :
  (forall campaign stamp db' out,
     create_campaign (init_db new_file) campaign stamp = Returns (db', out) ->
     numbered_file db'
     /\ exists t, campaigns_table (init_db new_file) = Some t
          /\ CampaignOut.id out = Z.of_nat (S (List.length (Sqlite.rows t))))
  /\ (forall designer db' out,
        create_designer (init_db new_file) designer = Returns (db', out) ->
        numbered_file db'
        /\ exists t, designers_table (init_db new_file) = Some t
             /\ out_id out = Z.of_nat (S (List.length (Sqlite.rows t)))).
Proof.
  apply (ids_count_from_one (init_db new_file)).
  repeat split.
Defined.

(* ------------------------------------------------------------------------- *)
(** ** No designer twice *)
(* ------------------------------------------------------------------------- *)

Section NoDuplicates.

Variable campaign : Campaign.
Variable t : float.

Let entry_id (sd : ScoredDesigner) : Z := out_id (designer sd).

Lemma selected_ids (rows : list Designer) (id : Z) :
  In id (map entry_id (selected campaign t rows)) -> In id (map designer_id rows).
Proof.
  intros H. apply in_map_iff in H. destruct H as (sd & <- & Hsd).
  apply selected_in in Hsd. destruct Hsd as (d & Hd & _ & _ & ->).
  apply in_map_iff. exists d. split; [reflexivity | exact Hd].
Qed.

Lemma selected_nodup (rows : list Designer) :
  NoDup (map designer_id rows) -> NoDup (map entry_id (selected campaign t rows)).
Proof.
  induction rows as [ | d rows IH]; cbn [map selected]; intros H.
  - constructor.
  - inversion H as [ | ? ? Hnotin Hnodup]; subst.
    destruct (calculate_match_score campaign (normalize_row d)) as [s | e]; auto.
    destruct (Float64.geb s t); auto.
    cbn [map]. constructor; auto.
    intros Hin. apply Hnotin. apply selected_ids. exact Hin.
Qed.

Lemma selected_length (rows : list Designer) :
  (List.length (selected campaign t rows) <= List.length rows)%nat.
Proof.
  induction rows as [ | d rows IH]; cbn [selected List.length]; [lia | ].
  destruct (calculate_match_score campaign (normalize_row d)) as [s | e]; [ | lia].
  destruct (Float64.geb s t); cbn [List.length]; lia.
Qed.

End NoDuplicates.

(** X21.  No designer is returned twice.  When the ids of the designer
    rows are distinct, the ids of the designers in a result of
    [match_designers] are distinct, and the result has at most as many
    entries as there are rows. *)
Theorem match_designers_no_duplicates (db : Database) (req : MatchRequest)
    (res : list ScoredDesigner) :
  NoDup (map designer_id (designers db)) ->
  match_designers db req = Ok res ->
  NoDup (map (fun sd => out_id (designer sd)) res)
  /\ (List.length res <= List.length (designers db))%nat.
Proof.
  intros Hids Hres.
  destruct (fetch_campaign db (request_campaign_id req)) as [[c | ] | e] eqn:Hc.
  2, 3: unfold match_designers in Hres; rewrite Hc in Hres; discriminate.
  destruct (match_designers_found db req c res Hc Hres) as [-> _].
  pose proof (sort_reverse_perm score (selected c (threshold req) (designers db)))
    as HP.
  split.
  - apply (Permutation_NoDup
             (l := map (fun sd => out_id (designer sd))
                     (selected c (threshold req) (designers db)))).
    + apply Permutation_map. apply Permutation_sym. exact HP.
    + apply selected_nodup. exact Hids.
  - rewrite (Permutation_length HP). apply selected_length.
Qed.

Lemma match_designers_no_duplicates_witness :
  NoDup (map (fun sd => out_id (designer sd))
           [entry (Scenario.row 3 400) (of_Z 99); entry (Scenario.row 1 600) (of_Z 79)])
  /\ (List.length
        [entry (Scenario.row 3 400) (of_Z 99); entry (Scenario.row 1 600) (of_Z 79)]
      <= List.length (designers Scenario.database))%nat.
Proof.
  apply (match_designers_no_duplicates Scenario.database
           (Scenario.request 1 default_threshold)).
  - cbn. repeat constructor; cbn; intuition discriminate.
  - vm_compute. reflexivity.
Defined.

(* ------------------------------------------------------------------------- *)
(** ** The timeline criterion on dates *)
(* ------------------------------------------------------------------------- *)

Section IsoDates.

Local Open Scope N_scope.

Lemma leb_lex_compare (a b : pystr) :
  Str.leb a b = match lex_compare a b with Gt => false | _ => true end.
Proof.
  revert b. induction a as [ | x a IH]; intros [ | y b]; cbn [Str.leb lex_compare];
    try reflexivity.
  rewrite IH. unfold N.ltb. rewrite (N.compare_antisym x y).
  destruct (x ?= y); reflexivity.
Qed.

Lemma lex_compare_app (a b x y : pystr) :
  List.length a = List.length b ->
  lex_compare (a ++ x) (b ++ y)
  = match lex_compare a b with Eq => lex_compare x y | c => c end.
Proof.
  revert b. induction a as [ | u a IH]; intros [ | v b] H; try discriminate H.
  - reflexivity.
  - cbn [app lex_compare]. injection H as H. rewrite (IH b H).
    destruct (u ?= v); reflexivity.
Qed.

Lemma decimal_length (w : nat) (n : N) : List.length (decimal w n) = w.
Proof.
  revert n. induction w as [ | w IH]; intros n; cbn [decimal]; [reflexivity | ].
  rewrite length_app, IH. cbn. lia.
Qed.

Lemma compare_digits (q1 r1 q2 r2 : N) :
  r1 < 10 -> r2 < 10 ->
  match q1 ?= q2 with Eq => r1 ?= r2 | c => c end
  = (10 * q1 + r1 ?= 10 * q2 + r2).
Proof.
  intros H1 H2. symmetry.
  destruct (N.compare_spec q1 q2) as [E | E | E].
  - subst q2. destruct (N.compare_spec r1 r2) as [E' | E' | E'].
    + subst. apply N.compare_refl.
    + apply N.compare_lt_iff. lia.
    + apply N.compare_gt_iff. lia.
  - apply N.compare_lt_iff. lia.
  - apply N.compare_gt_iff. lia.
Qed.

Lemma compare_shift (k a b : N) : (k + a ?= k + b) = (a ?= b).
Proof.
  destruct (N.compare_spec a b) as [E | E | E].
  - subst. apply N.compare_refl.
  - apply N.compare_lt_iff. lia.
  - apply N.compare_gt_iff. lia.
Qed.

(** Numbers written with the same count of digits compare as strings
    the way they compare as numbers. *)
Lemma lex_compare_decimal (w : nat) (n1 n2 : N) :
  n1 < 10 ^ N.of_nat w -> n2 < 10 ^ N.of_nat w ->
  lex_compare (decimal w n1) (decimal w n2) = (n1 ?= n2).
Proof.
  revert n1 n2. induction w as [ | w IH]; intros n1 n2 H1 H2.
  - cbn in H1, H2. assert (n1 = 0) by lia. assert (n2 = 0) by lia. subst. reflexivity.
  - rewrite Nat2N.inj_succ, N.pow_succ_r' in H1, H2.
    cbn [decimal].
    rewrite lex_compare_app by (rewrite !decimal_length; reflexivity).
    rewrite IH by (apply N.Div0.div_lt_upper_bound; lia).
    cbn [lex_compare]. rewrite compare_shift.
    replace (match n1 mod 10 ?= n2 mod 10 with Eq => Eq | c => c end)
      with (n1 mod 10 ?= n2 mod 10) by (destruct (n1 mod 10 ?= n2 mod 10); reflexivity).
    rewrite compare_digits by (apply N.mod_lt; discriminate).
    rewrite <- !N.div_mod by discriminate. reflexivity.
Qed.

Lemma lex_compare_hyphen (a b : pystr) :
  lex_compare ([45] ++ a) ([45] ++ b) = lex_compare a b.
Proof. reflexivity. Qed.

Lemma lex_compare_iso_date (y1 m1 d1 y2 m2 d2 : N) :
  y1 < 10000 -> m1 < 100 -> d1 < 100 ->
  y2 < 10000 -> m2 < 100 -> d2 < 100 ->
  lex_compare (iso_date y1 m1 d1) (iso_date y2 m2 d2)
  = (y1 * 10000 + m1 * 100 + d1 ?= y2 * 10000 + m2 * 100 + d2).
Proof.
  intros Hy1 Hm1 Hd1 Hy2 Hm2 Hd2. unfold iso_date.
  rewrite lex_compare_app by (rewrite !decimal_length; reflexivity).
  rewrite lex_compare_decimal by assumption.
  rewrite lex_compare_hyphen.
  rewrite lex_compare_app by (rewrite !decimal_length; reflexivity).
  rewrite lex_compare_decimal by assumption.
  rewrite lex_compare_hyphen.
  rewrite lex_compare_decimal by assumption.
  symmetry.
  destruct (N.compare_spec y1 y2) as [Ey | Ey | Ey];
    [subst y2; destruct (N.compare_spec m1 m2) as [Em | Em | Em];
       [subst m2; destruct (N.compare_spec d1 d2) as [Ed | Ed | Ed] | | ] | | ];
    first [ subst; apply N.compare_refl
          | apply N.compare_lt_iff; lia
          | apply N.compare_gt_iff; lia ].
Qed.

End IsoDates.

(** X22.  The timeline criterion compares two strings, and on dates
    written as [YYYY-MM-DD], with zeros in front, it decides as the
    dates do: with such an availability and such a timeline the
    criterion passes exactly when the date of the availability is not
    after the date of the timeline. *)
Theorem iso_dates_compare_as_dates (c : Campaign) (d : Designer)
    (y1 m1 d1 y2 m2 d2 : N) :
  availability d = Some (iso_date y1 m1 d1) ->
  timeline c = Some (iso_date y2 m2 d2) ->
  (y1 < 10000)%N -> (m1 < 100)%N -> (d1 < 100)%N ->
  (y2 < 10000)%N -> (m2 < 100)%N -> (d2 < 100)%N ->
  timeline_ok c d = true
  <-> (y1 * 10000 + m1 * 100 + d1 <= y2 * 10000 + m2 * 100 + d2)%N.
Proof.
  intros Ha Ht Hy1 Hm1 Hd1 Hy2 Hm2 Hd2.
  unfold timeline_ok. rewrite Ha, Ht.
  change (Str.truthy (iso_date y1 m1 d1)) with true.
  change (Str.truthy (iso_date y2 m2 d2)) with true.
  cbn [andb]. rewrite leb_lex_compare, lex_compare_iso_date by assumption.
  unfold N.le.
  destruct (y1 * 10000 + m1 * 100 + d1 ?= y2 * 10000 + m2 * 100 + d2)%N;
    split; congruence.
Qed.

Lemma iso_dates_compare_as_dates_witness :
  timeline_ok Scenario.campaign (Scenario.designer_with_rate 400) = true
  <-> (2024 * 10000 + 5 * 100 + 1 <= 2024 * 10000 + 6 * 100 + 1)%N.
Proof.
  apply (iso_dates_compare_as_dates Scenario.campaign (Scenario.designer_with_rate 400)
           2024 5 1 2024 6 1);
    reflexivity.
Defined.

(** Without the zeros in front the strings do not compare as the dates:
    June comes before October, and the criterion fails. *)
Example timeline_without_padding :
  Str.leb (lit "2024-6-01") (lit "2024-10-01") = false.
Proof. reflexivity. Qed.
